(** * cricpulse-dashboard: SearchKeyIndex and StatFormatter

    A shallow embedding of the helper functions of [frontend/src/App.jsx]
    ([formatCell], [fmt], [fmtPct], [normalizeText], [buildSearchKey] and
    the option filter of [SearchSelect]) together with the parts of the
    JavaScript runtime they call: [String(v)], [Number.prototype.toFixed],
    [Math.round], [Number.isInteger], [String.prototype.toLowerCase],
    [replace(/\s+/g, " ")], [trim], [split], [join], [includes], [slice].

    - A JavaScript string is the list of its UTF-16 code units.
    - A JavaScript number is an IEEE 754 binary64 value, a [spec_float]
      with precision 53 and maximal exponent 1024; products and quotients
      are the correctly rounded ones of [SpecFloat].
    - A JavaScript value is what [JSON.parse] can produce, or [undefined].
    - A call that can throw returns in the [completion] monad.

    The second part embeds the rest of the front end that computes:
    [teamColor], the cells of [Table], the indicators, [startBall0], the
    card backgrounds and the sorted tables of [App.jsx], and [teamColor],
    [shortTeam] and the bars of the bowler chart of the radial charts. A read that reaches a built-in
    prototype, and the number of a string, are outside the model: the
    functions concerned return [None] there. *)

From Stdlib Require Import ZArith NArith String Ascii List Bool Lia SpecFloat.
From Stdlib Require Permutation Sorted.
Import ListNotations.

Set Warnings "-register-all".
Open Scope Z_scope.

(** ** Strings as lists of UTF-16 code units *)

Module JsString.

Definition code_unit := N.
Definition jsstring := list code_unit.

(** The string a source literal denotes (ASCII literals only). *)
Definition js (s : string) : jsstring :=
  List.map N_of_ascii (list_ascii_of_string s).

Definition unit_eqb (a b : code_unit) : bool := N.eqb a b.

Fixpoint str_eqb (a b : jsstring) : bool :=
  match a, b with
  | [], [] => true
  | x :: a', y :: b' => unit_eqb x y && str_eqb a' b'
  | _, _ => false
  end.

(** [s.startsWith(p)]. *)
Fixpoint starts_with (p s : jsstring) : bool :=
  match p, s with
  | [], _ => true
  | x :: p', y :: s' => unit_eqb x y && starts_with p' s'
  | _ :: _, [] => false
  end.

(** [s.includes(p)]: [p] occurs in [s] at some position. *)
Fixpoint includes (s p : jsstring) : bool :=
  starts_with p s ||
  match s with
  | [] => false
  | _ :: s' => includes s' p
  end.

(** White space and line terminators: the class [\s] of regular
    expressions, which is also what [trim] strips. *)
Definition is_space (c : code_unit) : bool :=
  ((9 <=? c) && (c <=? 13) ||
   (c =? 32) || (c =? 160) || (c =? 5760) ||
   (8192 <=? c) && (c <=? 8202) ||
   (c =? 8232) || (c =? 8233) || (c =? 8239) || (c =? 8287) ||
   (c =? 12288) || (c =? 65279))%N.

Definition space : code_unit := 32%N.

(** Lower-casing of one code unit: exact on Basic Latin and Latin-1
    (A-Z, and U+00C0..U+00DE without the multiplication sign U+00D7);
    code units from U+0100 on are kept as they are. *)
Definition lower_unit (c : code_unit) : code_unit :=
  (if (65 <=? c) && (c <=? 90) then c + 32
   else if (192 <=? c) && (c <=? 222) && negb (c =? 215) then c + 32
   else c)%N.

Definition toLowerCase (s : jsstring) : jsstring := List.map lower_unit s.

(** [s.replace(/\s+/g, " ")]: each maximal run of white space becomes
    one space. [in_run] tells that the previous unit was white space. *)
Fixpoint replace_space_runs (in_run : bool) (s : jsstring) : jsstring :=
  match s with
  | [] => []
  | c :: s' =>
      if is_space c
      then if in_run then replace_space_runs true s'
           else space :: replace_space_runs true s'
      else c :: replace_space_runs false s'
  end.

Fixpoint trim_start (s : jsstring) : jsstring :=
  match s with
  | [] => []
  | c :: s' => if is_space c then trim_start s' else s
  end.

Definition trim_end (s : jsstring) : jsstring := rev (trim_start (rev s)).

Definition trim (s : jsstring) : jsstring := trim_end (trim_start s).

(** [s.split(sep)] for a separator of one code unit: never empty, the
    pieces between the separators, empty ones included. *)
Fixpoint split (sep : code_unit) (s : jsstring) : list jsstring :=
  match s with
  | [] => [[]]
  | c :: s' =>
      if unit_eqb c sep then [] :: split sep s'
      else match split sep s' with
           | [] => [[c]]
           | p :: ps => (c :: p) :: ps
           end
  end.

(** [parts.join(sep)]. *)
Fixpoint join (sep : jsstring) (parts : list jsstring) : jsstring :=
  match parts with
  | [] => []
  | [p] => p
  | p :: ps => p ++ sep ++ join sep ps
  end.

(** Truthiness of a string, as [filter(Boolean)] and [!n] test it. *)
Definition nonempty (s : jsstring) : bool :=
  match s with [] => false | _ :: _ => true end.

End JsString.
Import JsString.

(** ** Numbers: IEEE 754 binary64 *)

Module JsNumber.

Definition number := spec_float.

Definition prec : Z := 53.
Definition emax : Z := 1024.

Definition mul : number -> number -> number := SFmul prec emax.
Definition div : number -> number -> number := SFdiv prec emax.

(** The number an integer literal denotes. *)
Definition of_Z (z : Z) : number := binary_normalize prec emax z 0 false.

(** The number a decimal literal [n / 10^p] denotes: the double nearest
    to the quotient (both operands are exact for the literals used). *)
Definition decimal (n : Z) (p : Z) : number := div (of_Z n) (of_Z (10 ^ p)).

Definition is_finite (x : number) : bool :=
  match x with
  | S754_zero _ | S754_finite _ _ _ => true
  | _ => false
  end.

(** A finite number is the rational [num / den], [den > 0]. *)
Definition num (x : number) : Z :=
  match x with
  | S754_finite s m e =>
      let a := if 0 <=? e then Zpos m * 2 ^ e else Zpos m in
      if s then - a else a
  | _ => 0
  end.

Definition den (x : number) : Z :=
  match x with
  | S754_finite _ _ e => if 0 <=? e then 1 else 2 ^ (- e)
  | _ => 1
  end.

(** [Number.isInteger(x)]. *)
Definition isInteger (x : number) : bool :=
  is_finite x && (num x mod den x =? 0).

(** [Math.round(x)]: the nearest integer, ties towards +infinity; the
    sign of a zero result is the sign of [x]. *)
Definition round (x : number) : number :=
  match x with
  | S754_finite s m e =>
      if 0 <=? e then x
      else
        let z := (2 * num x + den x) / (2 * den x) in
        if z =? 0 then S754_zero s else binary_normalize prec emax z 0 false
  | _ => x
  end.

(** *** Decimal digits *)

Definition digit (d : Z) : code_unit := (48 + Z.to_N d)%N.

Fixpoint digits_loop (fuel : nat) (n : Z) (acc : jsstring) : jsstring :=
  let acc' := digit (n mod 10) :: acc in
  match fuel with
  | O => acc'
  | S fuel' => if n <? 10 then acc' else digits_loop fuel' (n / 10) acc'
  end.

(** The decimal representation of [n >= 0], without leading zeros. *)
Definition decimal_digits (n : Z) : jsstring :=
  digits_loop (Z.to_nat (Z.log2 n)) n [].

Definition zeros (n : Z) : jsstring := repeat (digit 0) (Z.to_nat n).

(** *** [Number.prototype.toString] with radix 10, that is [String(x)] *)

(** [10^(n-1) <= a / b < 10^n] for positive [a] and [b]. *)
Definition decimal_exponent (a b : Z) : Z :=
  if b <=? a then Z.of_nat (length (decimal_digits (a / b)))
  else 1 - Z.of_nat (length (decimal_digits ((b - 1) / a))).

(** A power of ten as a fraction. *)
Definition pow10_num (q : Z) : Z := if 0 <=? q then 10 ^ q else 1.
Definition pow10_den (q : Z) : Z := if 0 <=? q then 1 else 10 ^ (- q).

(** The reals that round to [m * 2^e] are those between
    [lower / scale] and [upper / scale], the bounds included when [m] is
    even; [scaled / scale] is the number itself. *)
Definition quarter_num (c e : Z) : Z := if 2 <=? e then c * 2 ^ (e - 2) else c.
Definition scale (e : Z) : Z := if 2 <=? e then 1 else 2 ^ (2 - e).
Definition scaled (m e : Z) : Z := quarter_num (4 * m) e.
Definition upper (m e : Z) : Z := quarter_num (4 * m + 2) e.
Definition lower (m e : Z) : Z :=
  if (m =? 2 ^ (prec - 1)) && (3 - emax - prec <? e)
  then quarter_num (4 * m - 1) e
  else quarter_num (4 * m - 2) e.

(** [s * 10^q] rounds to [m * 2^e]. *)
Definition rounds_to (m e s q : Z) : bool :=
  let y := s * pow10_num q * scale e in
  let lo := lower m e * pow10_den q in
  let hi := upper m e * pow10_den q in
  if Z.even m then (lo <=? y) && (y <=? hi) else (lo <? y) && (y <? hi).

(** The candidate with [k] digits: of the two neighbours of the number
    on the grid of step [10^q], [q = n0 - k], the nearest one that rounds
    to it, the even one in a tie. *)
Definition candidate (m e n0 k : Z) : option (Z * Z) :=
  let q := n0 - k in
  let s_lo := (scaled m e * pow10_den q) / (scale e * pow10_num q) in
  let s_hi := s_lo + 1 in
  let pick s := if s =? 10 ^ k then Some (1, n0) else Some (s, q) in
  match rounds_to m e s_lo q, rounds_to m e s_hi q with
  | true, true =>
      match 2 * scaled m e * pow10_den q
            ?= (2 * s_lo + 1) * pow10_num q * scale e with
      | Lt => pick s_lo
      | Gt => pick s_hi
      | Eq => if Z.even s_lo then pick s_lo else pick s_hi
      end
  | true, false => pick s_lo
  | false, true => pick s_hi
  | false, false => None
  end.

(** The shortest digits: the least [k] that has a candidate. When the
    fuel runs out the exact decimal expansion is returned. *)
Fixpoint shortest (fuel : nat) (m e n0 k : Z) : Z * Z :=
  match candidate m e n0 k with
  | Some r => r
  | None =>
      match fuel with
      | O => let q := Z.min e 0 in
             ((scaled m e * pow10_den q) / (scale e * pow10_num q), q)
      | S fuel' => shortest fuel' m e n0 (k + 1)
      end
  end.

(** The digits [s] and the exponent [n] of a positive finite number:
    it prints as [0.s * 10^n]. *)
Definition shortest_digits (m e : Z) : jsstring * Z :=
  let n0 := decimal_exponent (scaled m e) (scale e) in
  let '(s, q) := shortest 20 m e n0 1 in
  let ds := decimal_digits s in
  (ds, Z.of_nat (length ds) + q).

Definition exponent_part (n : Z) : jsstring :=
  let e := n - 1 in
  js "e" ++ (if 0 <=? e then js "+" else js "-") ++ decimal_digits (Z.abs e).

Definition format_digits (ds : jsstring) (n : Z) : jsstring :=
  let k := Z.of_nat (length ds) in
  if (k <=? n) && (n <=? 21) then ds ++ zeros (n - k)
  else if (0 <? n) && (n <=? 21) then
    firstn (Z.to_nat n) ds ++ js "." ++ skipn (Z.to_nat n) ds
  else if (-6 <? n) && (n <=? 0) then js "0." ++ zeros (- n) ++ ds
  else if k =? 1 then ds ++ exponent_part n
  else firstn 1 ds ++ js "." ++ skipn 1 ds ++ exponent_part n.

Definition toString (x : number) : jsstring :=
  match x with
  | S754_nan => js "NaN"
  | S754_zero _ => js "0"
  | S754_infinity s => (if s then js "-" else []) ++ js "Infinity"
  | S754_finite s m e =>
      let '(ds, n) := shortest_digits (Zpos m) e in
      (if s then js "-" else []) ++ format_digits ds n
  end.

(** *** [Number.prototype.toFixed] *)

(** [|x| < 10^21], the range in which [toFixed] prints plain decimals. *)
Definition below_1e21 (x : number) : bool :=
  Z.abs (num x) <? 10 ^ 21 * den x.

Definition toFixed (x : number) (f : Z) : jsstring :=
  match x with
  | S754_nan | S754_infinity _ => toString x
  | _ =>
      let s := if num x <? 0 then js "-" else [] in
      let a := Z.abs (num x) in
      if below_1e21 x then
        let n := (2 * a * 10 ^ f + den x) / (2 * den x) in
        let m := decimal_digits n in
        let k := Z.of_nat (length m) in
        if f =? 0 then s ++ m
        else
          let m := if k <=? f then zeros (f + 1 - k) ++ m else m in
          let k := length m in
          s ++ firstn (k - Z.to_nat f) m ++ js "." ++ skipn (k - Z.to_nat f) m
      else s ++ toString (SFabs x)
  end.

End JsNumber.

Import JsNumber.

(** ** Values, completions and [String(v)] *)

Module JsValue.

Inductive error := TypeError.

(** The outcome of a call: a value, or a thrown exception. *)
Inductive completion (A : Type) :=
| Normal (a : A)
| Throw (e : error).
Arguments Normal {A} a.
Arguments Throw {A} e.

Definition bind {A B} (c : completion A) (f : A -> completion B)
  : completion B :=
  match c with
  | Normal a => f a
  | Throw e => Throw e
  end.

(** What [JSON.parse] produces, and [undefined] (a missing property). *)
Inductive value :=
| VUndefined
| VNull
| VBoolean (b : bool)
| VNumber (x : number)
| VString (s : jsstring)
| VArray (items : list value)
| VObject (props : list (jsstring * value)).

Definition has_own_property (props : list (jsstring * value))
  (name : jsstring) : bool :=
  existsb (fun p => str_eqb (fst p) name) props.

(** [String(v)]. An array joins the strings of its items with commas,
    [null] and [undefined] items giving nothing. A parsed object has
    [Object.prototype.toString] unless a property of its own named
    [toString] hides it; such a property is never callable, and no
    [valueOf] returns a primitive, so the conversion throws. *)
Fixpoint ToString (v : value) : completion jsstring :=
  match v with
  | VUndefined => Normal (js "undefined")
  | VNull => Normal (js "null")
  | VBoolean b => Normal (if b then js "true" else js "false")
  | VNumber x => Normal (toString x)
  | VString s => Normal s
  | VArray items =>
      (fix join_items (l : list value) : completion jsstring :=
         match l with
         | [] => Normal []
         | x :: rest =>
             bind (match x with
                   | VUndefined | VNull => Normal []
                   | _ => ToString x
                   end)
               (fun s =>
                  match rest with
                  | [] => Normal s
                  | _ :: _ =>
                      bind (join_items rest)
                        (fun r => Normal (s ++ js "," ++ r))
                  end)
         end) items
  | VObject props =>
      if has_own_property props (js "toString") then Throw TypeError
      else Normal (js "[object Object]")
  end.

(** [ToBoolean(v)]. *)
Definition truthy (v : value) : bool :=
  match v with
  | VUndefined | VNull => false
  | VBoolean b => b
  | VNumber (S754_zero _) | VNumber S754_nan => false
  | VNumber _ => true
  | VString s => nonempty s
  | VArray _ | VObject _ => true
  end.

End JsValue.
Import JsValue.

Notation "x <- c ;; k" := (bind c (fun x => k))
  (at level 61, c at next level, right associativity).

(** ** The functions of [App.jsx] *)

Definition ten_thousand : number := of_Z 10000.

(** [formatCell(v, key = "")]. *)
Definition formatCell (v key : value) : completion jsstring :=
  match v with
  | VNull | VUndefined => Normal []
  | VNumber x =>
      ks <- ToString (match key with VUndefined => VString [] | _ => key end) ;;
      let k := toLowerCase ks in
      if includes k (js "econ") then Normal (toFixed x 2)
      else if str_eqb k (js "sr") || includes k (js "sr_")
              || includes k (js "_sr") || includes k (js "strike")
      then Normal (toFixed x 1)
      else if includes k (js "dismiss") then Normal (toFixed x 1)
      else if includes k (js "wicket_pct")
              || includes k (js "wicket_pct_per_start")
      then Normal (toFixed x 1)
      else if includes k (js "share") then Normal (toFixed x 1)
      else
        let isInt := isInteger x in
        if isInt then Normal (toString x)
        else Normal (toString (div (round (mul x ten_thousand)) ten_thousand))
  | _ => ToString v
  end.

Definition em_dash : jsstring := [8212%N].

(** [fmt(value, key)]. *)
Definition fmt (v key : value) : completion jsstring :=
  match v with
  | VNull | VUndefined => Normal em_dash
  | _ => formatCell v key
  end.

(** [fmtPct(value, key)]. *)
Definition fmtPct (v key : value) : completion jsstring :=
  match v with
  | VNull | VUndefined => Normal em_dash
  | _ => s <- formatCell v key ;; Normal (s ++ js "%")
  end.

(** The method chain of [normalizeText], on the converted string. *)
Definition normalize_string (s : jsstring) : jsstring :=
  trim (replace_space_runs false (toLowerCase s)).

(** [normalizeText(s)]. *)
Definition normalizeText (s : value) : completion jsstring :=
  str <- ToString (if truthy s then s else VString []) ;;
  Normal (normalize_string str).

(** [x || ""] for an array element that may be missing. *)
Definition or_empty (x : option jsstring) : jsstring :=
  match x with
  | Some s => if nonempty s then s else []
  | None => []
  end.

(** The body of [buildSearchKey] below the guard, on the tokens. *)
Definition key_of_parts (parts : list jsstring) : jsstring :=
  let first := or_empty (nth_error parts 0) in
  let last :=
    if (1 <? length parts)%nat then nth (length parts - 1) parts []
    else first in
  let firstLast := join (js " ") parts in
  let lastFirst :=
    trim (join (js " ") (last :: firstn (length parts - 1) parts)) in
  let compact := join [] parts in
  join (js " | ") [firstLast; lastFirst; last; first; compact].

(** [buildSearchKey(fullName)]. *)
Definition buildSearchKey (fullName : value) : completion jsstring :=
  n <- normalizeText fullName ;;
  if negb (nonempty n) then Normal []
  else
    let parts := filter nonempty (split space n) in
    Normal (key_of_parts parts).

(** The entries of the option list of [SearchSelect]. *)
Record entry := { name : value; key : jsstring }.

(** [options.map((name) => ({ name, key: buildSearchKey(name) }))]. *)
Fixpoint entries (options : list value) : completion (list entry) :=
  match options with
  | [] => Normal []
  | n :: rest =>
      k <- buildSearchKey n ;;
      l <- entries rest ;;
      Normal ({| name := n; key := k |} :: l)
  end.

Definition limit : nat := 150.

(** The memoised [opts] of [SearchSelect], for the option list
    [options || []] and the query [q] typed in the search box. *)
Definition opts (options : list value) (q : jsstring)
  : completion (list entry) :=
  list <- entries options ;;
  qq <- normalizeText (VString q) ;;
  if negb (nonempty qq) then Normal (firstn limit list)
  else
    let filtered := filter (fun o => includes (key o) qq) list in
    Normal (firstn limit filtered).

(** [search(candidates, query)]: the names the component lists, which
    are the [name] fields of [opts]. *)
Definition search (candidates : list value) (query : jsstring)
  : completion (list value) :=
  l <- opts candidates query ;; Normal (List.map name l).

(** ** Vocabulary of the specification *)

Module Spec.

(** The words of a string: its maximal runs of units that are not
    white space. *)
Fixpoint words (s : jsstring) : list jsstring :=
  match s with
  | [] => []
  | c :: s' =>
      if is_space c then words s'
      else match s' with
           | [] => [[c]]
           | d :: _ =>
               if is_space d then [c] :: words s'
               else match words s' with
                    | w :: ws => (c :: w) :: ws
                    | [] => [[c]]
                    end
           end
  end.

(** A token: not empty, and free of white space. *)
Definition token (w : jsstring) : Prop :=
  w <> [] /\ Forall (fun c => is_space c = false) w.

(** Lower-cased, runs of white space collapsed to one space, trimmed:
    the lower-cased words, one space between neighbours. *)
Definition normalized (s : jsstring) : jsstring :=
  join [space] (words (toLowerCase s)).

(** The five representations of a name with the given tokens, joined
    by the delimiter. *)
Definition firstLast (tokens : list jsstring) : jsstring :=
  join (js " ") tokens.
Definition lastFirst (tokens : list jsstring) : jsstring :=
  join (js " ") (last tokens [] :: removelast tokens).
Definition compact (tokens : list jsstring) : jsstring := concat tokens.
Definition representations (tokens : list jsstring) : list jsstring :=
  [firstLast tokens; lastFirst tokens; last tokens []; hd [] tokens;
   compact tokens].
Definition search_key (tokens : list jsstring) : jsstring :=
  join (js " | ") (representations tokens).

(** [p] is a substring of [s]. *)
Definition substring (p s : jsstring) : Prop :=
  exists a b, s = a ++ p ++ b.

Definition is_digit (c : code_unit) : bool := ((48 <=? c) && (c <=? 57))%N.

(** An optional minus sign. *)
Definition sign (s : jsstring) : Prop := s = [] \/ s = js "-".

(** Fixed-point notation with exactly [d] digits after the point. *)
Definition fixed_notation (d : Z) (s : jsstring) : Prop :=
  exists sg int frac,
    s = sg ++ int ++ js "." ++ frac /\ sign sg /\ int <> [] /\
    forallb is_digit int = true /\ forallb is_digit frac = true /\
    Z.of_nat (length frac) = d.

(** A plain integer: digits only after an optional minus sign. *)
Definition integer_notation (s : jsstring) : Prop :=
  exists sg int,
    s = sg ++ int /\ sign sg /\ int <> [] /\ forallb is_digit int = true.

(** At most [d] digits after the point: a plain integer, or fixed-point
    notation with one to [d] digits after the point. *)
Definition decimal_notation (d : Z) (s : jsstring) : Prop :=
  integer_notation s \/ exists f, 1 <= f <= d /\ fixed_notation f s.

(** The number that a string of digits denotes. *)
Definition digits_value (s : jsstring) : Z :=
  fold_left (fun a c => 10 * a + (Z.of_N c - 48)) s 0.


(** The values whose conversion to a string is defined: everything but
    a parsed object with a property named [toString], and an array
    holding such an object. *)
Fixpoint convertible (v : value) : bool :=
  match v with
  | VArray items => forallb convertible items
  | VObject props => negb (has_own_property props (js "toString"))
  | _ => true
  end.

(** Rounding to nearest, ties to even, in integer arithmetic.
    [inbetween A B m l]: the location [l] of the positive rational [A / B]
    between [m] and [m + 1]. *)
Definition inbetween (A B m : Z) (l : location) : Prop :=
  match l with
  | loc_Exact => A = m * B
  | loc_Inexact Lt => m * B < A /\ 2 * A < (2 * m + 1) * B
  | loc_Inexact Eq => 2 * A = (2 * m + 1) * B
  | loc_Inexact Gt => (2 * m + 1) * B < 2 * A /\ A < (m + 1) * B
  end.

(** [A / B] is among the reals that round to the mantissa [m] at the
    exponent [e], in units of the last place. *)
Definition near (A B m e : Z) : Prop :=
  let c := if (m =? 2 ^ (prec - 1)) && (3 - emax - prec <? e) then 1 else 2 in
  if Z.even m
  then (4 * m - c) * B <= 4 * A /\ 4 * A <= (4 * m + 2) * B
  else (4 * m - c) * B < 4 * A /\ 4 * A < (4 * m + 2) * B.

(** The rational [N / D] is among the reals that round to [m * 2^e]. *)
Definition in_interval (m e N D : Z) : bool :=
  let y := N * scale e in
  let lo := lower m e * D in
  let hi := upper m e * D in
  if Z.even m then (lo <=? y) && (y <=? hi) else (lo <? y) && (y <? hi).

(** [N / (D * 2^e)] as a fraction of integers. *)
Definition rep_num (N e : Z) : Z := if 0 <=? e then N else N * 2 ^ (- e).
Definition rep_den (D e : Z) : Z := if 0 <=? e then D * 2 ^ e else D.

(** The candidate's derived search key contains [qq]. *)
Definition matches (qq : jsstring) (candidate : value) : bool :=
  match buildSearchKey candidate with
  | Normal k => includes k qq
  | Throw _ => false
  end.

End Spec.
Import Spec.

(** * Further functions of the front end *)

(** ** Team colours and team codes *)

(** The properties that every object literal inherits from
    [Object.prototype]; each is a function or an object, hence truthy. *)
Definition object_prototype_names : list jsstring :=
  [js "constructor"; js "hasOwnProperty"; js "isPrototypeOf";
   js "propertyIsEnumerable"; js "toLocaleString"; js "toString";
   js "valueOf"; js "__proto__"; js "__defineGetter__";
   js "__defineSetter__"; js "__lookupGetter__"; js "__lookupSetter__"].

(** What a property read on an object literal gives back: a value, or
    the member of [Object.prototype] of the given name. *)
Inductive result :=
| Value (v : value)
| Inherited (name : jsstring).

(** The own property [t] of an object literal with string properties. *)
Definition own_property (map : list (jsstring * jsstring)) (t : jsstring)
  : option jsstring :=
  option_map snd (find (fun p => str_eqb (fst p) t) map).

(** [map[t] || fallback]. *)
Definition get_or (map : list (jsstring * jsstring)) (t : jsstring)
  (fallback : value) : result :=
  match own_property map t with
  | Some c => if nonempty c then Value (VString c) else Value fallback
  | None =>
      if existsb (str_eqb t) object_prototype_names then Inherited t
      else Value fallback
  end.

(** The [map] of [teamColor] in [App.jsx]. *)
Definition team_colors : list (jsstring * jsstring) :=
  [(js "india", js "#0ea5e9");
   (js "australia", js "#e8fb36");
   (js "england", js "#ed3a3a");
   (js "new zealand", js "#111827b5");
   (js "pakistan", js "#13e05e");
   (js "south africa", js "#056817");
   (js "west indies", js "#7c2d12");
   (js "sri lanka", js "#00165f");
   (js "bangladesh", js "#b91c1c");
   (js "afghanistan", js "#30532e");
   (js "ireland", js "#16a34a");
   (js "scotland", js "#2362ea");
   (js "nepal", js "#dc262682");
   (js "united arab emirates", js "#0f172a");
   (js "zimbabwe", js "#a16207")].

(** [teamColor(team, fallback)] of [App.jsx]. *)
Definition teamColor (team fallback : value) : completion result :=
  if negb (truthy team) then Normal (Value fallback)
  else
    t <- ToString team ;;
    Normal (get_or team_colors (toLowerCase t) fallback).

(** The helpers that [BatterRadialChart.jsx] and [BowlerRadialChart.jsx]
    share. *)
Module RadialChart.

Definition team_colors : list (jsstring * jsstring) :=
  [(js "india", js "#0ea5e9");
   (js "australia", js "#e8fb36");
   (js "england", js "#ed3a3a");
   (js "new zealand", js "#111827");
   (js "pakistan", js "#13e05e");
   (js "south africa", js "#056817");
   (js "west indies", js "#7c2d12");
   (js "sri lanka", js "#00165f");
   (js "bangladesh", js "#b91c1c");
   (js "afghanistan", js "#30532e");
   (js "ireland", js "#16a34a");
   (js "scotland", js "#2362ea");
   (js "zimbabwe", js "#a16207")].

(** [teamColor(team, fallback = default)]: the default is "#2563eb" in
    the batter chart and "#f59e0b" in the bowler chart. *)
Definition teamColor (default : jsstring) (team fallback : value)
  : completion result :=
  let fallback :=
    match fallback with VUndefined => VString default | _ => fallback end in
  if negb (truthy team) then Normal (Value fallback)
  else
    t <- ToString team ;;
    Normal (get_or team_colors (toLowerCase t) fallback).

Definition team_codes : list (jsstring * jsstring) :=
  [(js "India", js "IND");
   (js "Australia", js "AUS");
   (js "England", js "ENG");
   (js "New Zealand", js "NZ");
   (js "Pakistan", js "PAK");
   (js "South Africa", js "SA");
   (js "West Indies", js "WI");
   (js "Sri Lanka", js "SL");
   (js "Bangladesh", js "BAN");
   (js "Afghanistan", js "AFG");
   (js "Ireland", js "IRE");
   (js "Scotland", js "SCO");
   (js "Zimbabwe", js "ZIM")].

(** [shortTeam(team)]. *)
Definition shortTeam (team : value) : completion result :=
  if negb (truthy team) then Normal (Value (VString (js "Overall")))
  else
    s <- ToString team ;;
    let t := trim s in
    Normal (get_or team_codes t (VString t)).

End RadialChart.



(** ** The ball of the over *)

(** [x - y]. *)
Definition sub : number -> number -> number := SFsub prec emax.

Module Math.

(** [Math.max(a, b)] and [Math.min(a, b)]: [NaN] when an argument is;
    otherwise the arguments are visited in turn, from minus infinity
    (plus infinity), and [+0] counts as larger than [-0]. *)
Definition max_step (highest x : number) : number :=
  match highest, x with
  | S754_zero true, S754_zero false => x
  | _, _ => if SFltb highest x then x else highest
  end.

Definition max (a b : number) : number :=
  match a, b with
  | S754_nan, _ | _, S754_nan => S754_nan
  | _, _ => max_step (max_step (S754_infinity true) a) b
  end.

Definition min_step (lowest x : number) : number :=
  match lowest, x with
  | S754_zero false, S754_zero true => x
  | _, _ => if SFltb x lowest then x else lowest
  end.

Definition min (a b : number) : number :=
  match a, b with
  | S754_nan, _ | _, S754_nan => S754_nan
  | _, _ => min_step (min_step (S754_infinity false) a) b
  end.

End Math.

(** [startBall0] of [App]: [Math.max(0, Math.min(5, ball1to6 - 1))]. *)
Definition startBall0 (ball1to6 : number) : number :=
  Math.max (of_Z 0) (Math.min (of_Z 5) (sub ball1to6 (of_Z 1))).

(** ** Fields of the response, table cells and indicators *)

(** The own property [field] of a parsed object; of members of one
    name [JSON.parse] keeps the last. *)
Definition own_value (props : list (jsstring * value)) (field : jsstring)
  : option value :=
  option_map snd (find (fun p => str_eqb (fst p) field) (rev props)).

(** [v?.[field]] for [undefined], [null] and parsed objects: [undefined]
    for the first two and for a field the object lacks. [None] where
    the read reaches a built-in prototype: a field of a number, boolean,
    string or array, and a field that an object lacks and
    [Object.prototype] defines. *)
Definition get (v : value) (field : jsstring) : option value :=
  match v with
  | VUndefined | VNull => Some VUndefined
  | VObject props =>
      match own_value props field with
      | Some x => Some x
      | None =>
          if existsb (str_eqb field) object_prototype_names then None
          else Some VUndefined
      end
  | _ => None
  end.

Module Table.

Record column := { key : jsstring; label : jsstring }.

(** The text of a cell: [formatCell(r?.[c.key], c.key)]. *)
Definition cell (r : value) (c : column) : option (completion jsstring) :=
  option_map (fun v => formatCell v (VString (key c))) (get r (key c)).

Definition col (k l : string) : column := {| key := js k; label := js l |}.

(** The columns of the six tables of [App]. *)
Definition batter_team : list column :=
  [col "bowling_team" "Opposition"; col "runs" "Runs"; col "balls" "Balls";
   col "outs" "Outs"; col "sr" "Strike rate";
   col "dismissal_%" "Dismissal rate"].

Definition bowler_team : list column :=
  [col "batting_team" "Opposition"; col "runs_conceded" "Runs conceded";
   col "legal_balls" "Deliveries"; col "wkts" "Wickets";
   col "econ" "Economy"; col "wicket_pct_per_start" "Wickets ratio"].

Definition best_batters : list column :=
  [col "batter" "Batter"; col "runs" "Runs"; col "balls" "Balls";
   col "outs" "Outs"; col "sr" "Strike rate";
   col "dismissal_%" "Dismissal rate"].

Definition best_bowlers : list column :=
  [col "bowler" "Bowler"; col "runs_conceded" "Runs conceded";
   col "legal_balls" "Deliveries"; col "wkts" "Wickets";
   col "econ" "Economy"; col "wicket_pct_per_start" "Wickets ratio"].

Definition top5_bowlers : list column :=
  [col "bowler" "Bowler"; col "balls" "Balls";
   col "econ_vs_batter" "Economy"; col "wkts" "Wickets";
   col "wicket_pct_per_start" "Wickets ratio"].

Definition top5_batters : list column :=
  [col "batter" "Batter"; col "balls" "Balls";
   col "sr_vs_bowler" "Strike rate"; col "outs" "Outs";
   col "dismissal_pct_per_start" "Dismissal rate"].

Definition columns : list column :=
  batter_team ++ bowler_team ++ best_batters ++ best_bowlers
  ++ top5_bowlers ++ top5_batters.

End Table.

Module Kpi.

(** An indicator of [App]: [fmt] or [fmtPct] of [data?.part?.field]
    under a key, shown with a label. *)
Record indicator := {
  percent : bool;
  part : jsstring;
  field : jsstring;
  key : jsstring;
  label : jsstring
}.

Definition ind (p : bool) (part field key label : string) : indicator :=
  {| percent := p; part := js part; field := js field; key := js key;
     label := js label |}.

Definition indicators : list indicator :=
  [ind false "batter_card" "sr" "sr" "Strike rate";
   ind true "batter_card" "dismissal_pct_per_start" "dismissal_pct_per_start"
     "Dismissal % (per start)";
   ind false "bowler_card" "economy" "econ" "Economy";
   ind true "bowler_card" "wicket_pct_per_start" "wicket_pct_per_start"
     "Wicket-in-window %";
   ind true "bowler_card" "wickets_share_of_total" "wickets_share_of_total"
     "Wicket share of total";
   ind false "matchup" "batter_sr_vs_bowler" "sr_vs_bowler"
     "Strike rate vs bowler";
   ind true "matchup" "batter_dismissal_pct_per_start"
     "dismissal_pct_per_start" "Dismissal % (per start)";
   ind false "matchup" "bowler_economy_vs_batter" "econ" "Economy vs batter";
   ind true "matchup" "bowler_wicket_pct_per_start" "wicket_pct_per_start"
     "Wicket-in-window %"].

(** The value of the indicator in the response [data]. *)
Definition reading (i : indicator) (data : value) : option value :=
  match get data (part i) with
  | Some card => get card (field i)
  | None => None
  end.

(** The text the indicator shows. *)
Definition text (i : indicator) (data : value)
  : option (completion jsstring) :=
  option_map
    (fun v => (if percent i then fmtPct else fmt) v (VString (key i)))
    (reading i data).

End Kpi.

(** The number of decimals that the naming rules of [formatCell] give a
    key; [None] for a key that falls through to the final rule. *)
Definition rule_of (key : jsstring) : option Z :=
  let k := toLowerCase key in
  if includes k (js "econ") then Some 2
  else if str_eqb k (js "sr") || includes k (js "sr_")
          || includes k (js "_sr") || includes k (js "strike")
          || includes k (js "dismiss") || includes k (js "wicket_pct")
          || includes k (js "share")
  then Some 1
  else None.

(** The number of decimals that the label of a column announces. *)
Definition decimals (label : jsstring) : option Z :=
  if str_eqb label (js "Economy") then Some 2
  else if str_eqb label (js "Strike rate")
          || str_eqb label (js "Dismissal rate")
          || str_eqb label (js "Wickets ratio")
  then Some 1
  else None.

(** ** Colours and backgrounds of the cards *)







(** ** The order of the table rows *)

(** [Number(v)]: [NaN] for [undefined] and for an object, whose string
    is no number, unless the conversion to a primitive throws; [None]
    for a string and for an array, whose number is read from their
    text. *)
Definition ToNumber (v : value) : option (completion number) :=
  match v with
  | VUndefined => Some (Normal S754_nan)
  | VNull => Some (Normal (S754_zero false))
  | VBoolean b => Some (Normal (if b then of_Z 1 else S754_zero false))
  | VNumber x => Some (Normal x)
  | VString _ | VArray _ => None
  | VObject props =>
      Some (if has_own_property props (js "toString") then Throw TypeError
            else Normal S754_nan)
  end.

(** [x || 0] for a number [x]. *)
Definition or_zero (x : number) : number :=
  if truthy (VNumber x) then x else S754_zero false.

(** [Number(row?.[field]) || 0]. *)
Definition sort_key (field : jsstring) (row : value)
  : option (completion number) :=
  match get row field with
  | Some v =>
      match ToNumber v with
      | Some c => Some (x <- c ;; Normal (or_zero x))
      | None => None
      end
  | None => None
  end.

(** The comparison function of the sorted tables of [App]:
    [(a, b) => (Number(b?.[field]) || 0) - (Number(a?.[field]) || 0)]. *)
Definition compare_rows (field : jsstring) (a b : value)
  : option (completion number) :=
  match sort_key field b with
  | Some (Normal y) =>
      match sort_key field a with
      | Some (Normal x) => Some (Normal (sub y x))
      | Some (Throw e) => Some (Throw e)
      | None => None
      end
  | Some (Throw e) => Some (Throw e)
  | None => None
  end.

(** [a] goes before [b]: the comparison function returns a negative
    number for them. *)
Definition before (field : jsstring) (a b : value) : Prop :=
  exists r, compare_rows field a b = Some (Normal r) /\
            SFltb r (S754_zero false) = true.

(** The comparison function returns a zero for [a] and [b]. *)
Definition tied (field : jsstring) (a b : value) : Prop :=
  exists s, compare_rows field a b = Some (Normal (S754_zero s)).

(** A row whose key is a finite binary64 number. *)
Definition finite_key (field : jsstring) (row : value) : Prop :=
  exists x, sort_key field row = Some (Normal x) /\
            valid_binary prec emax x = true /\ is_finite x = true.

(** ** The sorted tables *)

(** [Array.prototype.sort] is stable, and for a consistent comparison
    function the order it gives is the only one that is both sorted and
    stable; insertion from the right computes it. [before y x] tells that
    [y] goes strictly before [x]. *)
Fixpoint insert_by {A} (before : A -> A -> bool) (x : A) (l : list A)
  : list A :=
  match l with
  | [] => [x]
  | y :: l' =>
      if before y x then y :: insert_by before x l' else x :: y :: l'
  end.

Definition sort_by {A} (before : A -> A -> bool) (l : list A) : list A :=
  fold_right (insert_by before) [] l.

(** The comparison function returns a negative number for [a], [b]. *)
Definition goes_before (field : jsstring) (a b : value) : bool :=
  match compare_rows field a b with
  | Some (Normal r) => SFltb r (S754_zero false)
  | _ => false
  end.

Definition is_undefined (v : value) : bool :=
  match v with VUndefined => true | _ => false end.

(** What evaluating the keys of the rows comes to: [None] when a key is
    outside the model, a thrown exception when a conversion throws. *)
Fixpoint keys (field : jsstring) (rows : list value)
  : option (completion (list number)) :=
  match rows with
  | [] => Some (Normal [])
  | r :: rest =>
      match sort_key field r, keys field rest with
      | None, _ | _, None => None
      | Some (Throw e), _ => Some (Throw e)
      | Some (Normal _), Some (Throw e) => Some (Throw e)
      | Some (Normal k), Some (Normal ks) => Some (Normal (k :: ks))
      end
  end.

(** The comparison function returns [NaN] for two keys that are the
    same infinity, and for no other keys. *)
Definition is_infinity (s : bool) (x : number) : bool :=
  match x with
  | S754_infinity s' => Bool.eqb s s'
  | _ => false
  end.

Definition comparable (ks : list number) : bool :=
  (length (filter (is_infinity false) ks) <? 2)%nat
  && (length (filter (is_infinity true) ks) <? 2)%nat.

(** [rows.sort((a, b) => (Number(b?.[field]) || 0) - (Number(a?.[field]) || 0))]:
    [undefined] elements go last and are not compared; fewer than two
    other elements are not compared either; otherwise every element is
    compared, so that every key is evaluated. [None] when the comparison
    function returns [NaN] for two of the rows: the order is then the
    engine's. *)
Definition sort_rows (field : jsstring) (rows : list value)
  : option (completion (list value)) :=
  let defined := filter (fun v => negb (is_undefined v)) rows in
  let undefineds := filter is_undefined rows in
  if (length defined <? 2)%nat then Some (Normal (defined ++ undefineds))
  else
    match keys field defined with
    | None => None
    | Some (Throw e) => Some (Throw e)
    | Some (Normal ks) =>
        if comparable ks
        then Some (Normal (sort_by (goes_before field) defined ++ undefineds))
        else None
    end.

(** [tables = data?.tables || {}]. *)
Definition tables (data : value) : option value :=
  match get data (js "tables") with
  | Some t => Some (if truthy t then t else VObject [])
  | None => None
  end.

(** [[...(tables[name] || [])]]: the elements of an array; nothing for a
    falsy value; a number, [true] and an object are not iterable; [None]
    for a string, which spreads into its code points. *)
Definition rows_of (tables : value) (name : jsstring)
  : option (completion (list value)) :=
  match get tables name with
  | Some v =>
      if truthy v then
        match v with
        | VArray items => Some (Normal items)
        | VString _ => None
        | _ => Some (Throw TypeError)
        end
      else Some (Normal [])
  | None => None
  end.

(** A sorted table of [App]: the rows of [tables[name]] sorted by
    [field], cut to [limit] rows when there is a limit. *)
Definition sorted_table (name field : jsstring) (limit : option nat)
  (data : value) : option (completion (list value)) :=
  match tables data with
  | Some t =>
      match rows_of t name with
      | Some (Normal rows) =>
          match sort_rows field rows with
          | Some (Normal sorted) =>
              Some (Normal match limit with
                           | Some n => firstn n sorted
                           | None => sorted
                           end)
          | other => other
          end
      | other => other
      end
  | None => None
  end.

Definition batterTeamRows : value -> option (completion (list value)) :=
  sorted_table (js "opposition_split_batter_same_slot") (js "sr") None.

Definition bowlerTeamRows : value -> option (completion (list value)) :=
  sorted_table (js "opposition_split_bowler_same_slot")
    (js "wicket_pct_per_start") None.

Definition bestBattersTop10 : value -> option (completion (list value)) :=
  sorted_table (js "best_batters_overall_same_slot") (js "sr") (Some 10%nat).

Definition bestBowlersTop10 : value -> option (completion (list value)) :=
  sorted_table (js "best_bowlers_overall_same_slot")
    (js "wicket_pct_per_start") (Some 10%nat).

Definition top5BattersSorted : value -> option (completion (list value)) :=
  sorted_table (js "top5_batters_vs_bowler_same_slot") (js "sr_vs_bowler")
    None.

Definition top5BowlersSorted : value -> option (completion (list value)) :=
  sorted_table (js "top5_bowlers_vs_batter_same_slot")
    (js "wicket_pct_per_start") None.

(** The tables of [App] with the functions that sort them. *)
Definition sorted_tables
  : list (jsstring * jsstring * option nat
          * (value -> option (completion (list value)))) :=
  [(js "opposition_split_batter_same_slot", js "sr", None, batterTeamRows);
   (js "opposition_split_bowler_same_slot", js "wicket_pct_per_start", None,
    bowlerTeamRows);
   (js "best_batters_overall_same_slot", js "sr", Some 10%nat,
    bestBattersTop10);
   (js "best_bowlers_overall_same_slot", js "wicket_pct_per_start",
    Some 10%nat, bestBowlersTop10);
   (js "top5_batters_vs_bowler_same_slot", js "sr_vs_bowler", None,
    top5BattersSorted);
   (js "top5_bowlers_vs_batter_same_slot", js "wicket_pct_per_start", None,
    top5BowlersSorted)].

(** The key of [a] is at least the key of [b]. *)
Definition key_ge (field : jsstring) (a b : value) : Prop :=
  forall x y,
    sort_key field a = Some (Normal x) -> sort_key field b = Some (Normal y) ->
    num y * den x <= num x * den y.

(** Neither of [t] and [x] goes before the other. *)
Definition ties (field : jsstring) (t x : value) : bool :=
  negb (goes_before field t x) && negb (goes_before field x t).

(** ** The bars of the bowler chart *)

(** [x + y]. *)
Definition add : number -> number -> number := SFadd prec emax.

(** [r[field]]: as [r?.[field]], but a [null] or [undefined] row
    throws. *)
Definition read (r : value) (field : jsstring) : option (completion value) :=
  match r with
  | VUndefined | VNull => Some (Throw TypeError)
  | _ => option_map Normal (get r field)
  end.

(** [Number(r[field] || 0)]. *)
Definition number_or_zero (r : value) (field : jsstring)
  : option (completion number) :=
  match read r field with
  | Some (Normal v) =>
      ToNumber (if truthy v then v else VNumber (S754_zero false))
  | Some (Throw e) => Some (Throw e)
  | None => None
  end.

(** [rows.map(f)]: the rows in turn; the first row outside the model or
    throwing ends it. *)
Fixpoint traverse {A B} (f : A -> option (completion B)) (l : list A)
  : option (completion (list B)) :=
  match l with
  | [] => Some (Normal [])
  | x :: rest =>
      match f x with
      | Some (Normal y) =>
          match traverse f rest with
          | Some (Normal ys) => Some (Normal (y :: ys))
          | other => other
          end
      | Some (Throw e) => Some (Throw e)
      | None => None
      end
  end.

(** [Math.max(...values)]. *)
Definition max_of (values : list number) : number :=
  if existsb (fun x => match x with S754_nan => true | _ => false end) values
  then S754_nan
  else fold_left Math.max_step values (S754_infinity true).

Module BowlerRadialChart.

(** An entry of [data]. *)
Record bar := {
  name : value;
  team : value;
  econ : number;
  wicketProb : number;
  score : number;
  fill : result
}.

(** [Math.max(0, maxEcon - econ) + 0.01]. *)
Definition score_of (maxEcon econ : number) : number :=
  add (Math.max (of_Z 0) (sub maxEcon econ)) (decimal 1 2).

(** The entry of the row [r]. *)
Definition bar_of (maxEcon : number) (r : value) : option (completion bar) :=
  match number_or_zero r (js "econ") with
  | Some (Normal econ) =>
      match read r (js "bowler"), read r (js "team") with
      | Some (Normal name), Some (Normal team) =>
          match number_or_zero r (js "wicket_pct_per_start") with
          | Some (Normal wicketProb) =>
              Some (fill <- RadialChart.teamColor (js "#f59e0b") team
                              (VString (js "#f59e0b")) ;;
                    Normal {| name := name; team := team; econ := econ;
                              wicketProb := wicketProb;
                              score := score_of maxEcon econ;
                              fill := fill |})
          | Some (Throw e) => Some (Throw e)
          | None => None
          end
      | Some (Throw e), _ => Some (Throw e)
      | Some (Normal _), Some (Throw e) => Some (Throw e)
      | _, _ => None
      end
  | Some (Throw e) => Some (Throw e)
  | None => None
  end.

(** [data], for the array [rows], which is not empty. *)
Definition data (rows : list value) : option (completion (list bar)) :=
  match traverse (fun r => number_or_zero r (js "econ")) rows with
  | Some (Normal econVals) =>
      let maxEcon := max_of (econVals ++ [of_Z 0]) in
      traverse (bar_of maxEcon) rows
  | Some (Throw e) => Some (Throw e)
  | None => None
  end.

End BowlerRadialChart.

(** A row whose economy is a finite binary64 number. *)
Definition finite_econ (r : value) : Prop :=
  exists x, number_or_zero r (js "econ") = Some (Normal x) /\
            valid_binary prec emax x = true /\ is_finite x = true.

(** * Properties *)

(** ** Strings *)

Lemma str_eqb_eq (a b : jsstring) : str_eqb a b = true <-> a = b.
Proof.
  revert b. induction a as [|x a IH]; intros [|y b]; simpl;
    try (split; (discriminate || reflexivity)).
  unfold unit_eqb. rewrite andb_true_iff, N.eqb_eq, IH.
  split; [intros [-> ->]; reflexivity | intros [= -> ->]; auto].
Qed.

Lemma starts_with_app (p s : jsstring) :
  starts_with p s = true <-> exists b, s = p ++ b.
Proof.
  revert s. induction p as [|x p IH]; intros s; simpl.
  - split; [exists s; reflexivity | reflexivity].
  - destruct s as [|y s].
    + split; [discriminate | intros [b Hb]; discriminate].
    + unfold unit_eqb. rewrite andb_true_iff, N.eqb_eq, IH. split.
      * intros [-> [b ->]]. exists b. reflexivity.
      * intros [b [= -> ->]]. split; [reflexivity | exists b; reflexivity].
Qed.

(** [includes] decides the substring relation. *)
Lemma includes_substring (s p : jsstring) :
  includes s p = true <-> substring p s.
Proof.
  unfold substring. induction s as [|c s IH]; simpl.
  - rewrite orb_false_r, starts_with_app. split.
    + intros [b Hb]. exists [], b. exact Hb.
    + intros [a [b Hab]]. destruct a; [exists b; exact Hab | discriminate].
  - rewrite orb_true_iff, starts_with_app, IH. split.
    + intros [[b Hb] | [a [b Hab]]].
      * exists [], b. exact Hb.
      * exists (c :: a), b. simpl. rewrite Hab. reflexivity.
    + intros [[|x a] [b Hab]].
      * left. exists b. exact Hab.
      * right. injection Hab as -> ->. exists a, b. reflexivity.
Qed.

Lemma includes_empty (s : jsstring) : includes s [] = true.
Proof. apply includes_substring. exists [], s. reflexivity. Qed.

Lemma trim_start_app (a b : jsstring) :
  trim_start (a ++ b) =
  if forallb is_space a then trim_start b else trim_start a ++ b.
Proof.
  induction a as [|c a IH]; simpl; [reflexivity|].
  destruct (is_space c); simpl; [exact IH | reflexivity].
Qed.

Lemma forallb_rev {A} (f : A -> bool) (l : list A) :
  forallb f (rev l) = forallb f l.
Proof.
  induction l as [|x l IH]; simpl; [reflexivity|].
  rewrite forallb_app, IH. simpl. rewrite andb_true_r. apply andb_comm.
Qed.

Lemma trim_end_cons (c : code_unit) (s : jsstring) :
  trim_end (c :: s) =
  if is_space c && forallb is_space s then [] else c :: trim_end s.
Proof.
  unfold trim_end. simpl rev. rewrite trim_start_app.
  rewrite forallb_rev. destruct (forallb is_space s) eqn:Hs.
  - rewrite andb_true_r. simpl. destruct (is_space c); simpl.
    + reflexivity.
    + assert (trim_start (rev s) = []) as ->; [|reflexivity].
      rewrite <- (forallb_rev is_space) in Hs.
      induction (rev s) as [|d r IH]; simpl in *; [reflexivity|].
      apply andb_true_iff in Hs as [-> Hr]. auto.
  - rewrite andb_false_r, rev_app_distr. reflexivity.
Qed.

Lemma trim_end_nil : trim_end [] = [].
Proof. reflexivity. Qed.

Lemma trim_end_all_space (s : jsstring) :
  forallb is_space s = true -> trim_end s = [].
Proof.
  induction s as [|c s IH]; [reflexivity|]. simpl. intros H.
  rewrite trim_end_cons. apply andb_true_iff in H as [-> ->]. reflexivity.
Qed.

Lemma trim_end_nonspace (c : code_unit) (s : jsstring) :
  is_space c = false -> trim_end (c :: s) = c :: trim_end s.
Proof. intros H. rewrite trim_end_cons, H. reflexivity. Qed.

(** ** Normalisation: the method chain against the words of the input *)

Lemma is_space_space : is_space space = true.
Proof. reflexivity. Qed.

Lemma replace_space_runs_all_space (b : bool) (s : jsstring) :
  forallb is_space (replace_space_runs b s) = forallb is_space s.
Proof.
  revert b. induction s as [|c s IH]; intros b; simpl; [reflexivity|].
  destruct (is_space c) eqn:Hc.
  - destruct b; simpl; rewrite ?is_space_space; apply IH.
  - simpl. rewrite Hc. reflexivity.
Qed.

Lemma words_nil_iff (s : jsstring) :
  words s = [] <-> forallb is_space s = true.
Proof.
  induction s as [|c s IH]; simpl; [tauto|].
  destruct (is_space c) eqn:Hc; simpl; [exact IH|].
  split; [|discriminate].
  destruct s as [|d s']; [discriminate|].
  destruct (is_space d); [discriminate|].
  destruct (words (d :: s')); discriminate.
Qed.

Lemma words_cons_nonspace (c d : code_unit) (s : jsstring) :
  is_space c = false -> is_space d = false ->
  exists w ws, words (d :: s) = w :: ws /\
               words (c :: d :: s) = (c :: w) :: ws.
Proof.
  intros Hc Hd.
  destruct (words (d :: s)) as [|w ws] eqn:Hw.
  - apply words_nil_iff in Hw. simpl in Hw. rewrite Hd in Hw. discriminate.
  - exists w, ws. split; [reflexivity|].
    change (words (c :: d :: s))
      with (if is_space c then words (d :: s)
            else if is_space d then [c] :: words (d :: s)
                 else match words (d :: s) with
                      | w :: ws => (c :: w) :: ws
                      | [] => [[c]]
                      end).
    rewrite Hc, Hd, Hw. reflexivity.
Qed.

Lemma join_cons_cons (sep : jsstring) (c : code_unit) (w : jsstring)
  (ws : list jsstring) :
  join sep ((c :: w) :: ws) = c :: join sep (w :: ws).
Proof. destruct ws; reflexivity. Qed.

Lemma trim_start_replace (b : bool) (s : jsstring) :
  trim_start (replace_space_runs b s) = replace_space_runs true s.
Proof.
  revert b. induction s as [|c s IH]; intros b; simpl; [reflexivity|].
  destruct (is_space c) eqn:Hc.
  - destruct b; simpl; rewrite ?is_space_space; apply IH.
  - simpl. rewrite Hc. reflexivity.
Qed.

Lemma trim_end_replace (s : jsstring) :
  trim_end (replace_space_runs true s) = join [space] (words s) /\
  trim_end (replace_space_runs false s) =
    match s with
    | [] => []
    | c :: _ =>
        if is_space c
        then match words s with
             | [] => []
             | _ :: _ => space :: join [space] (words s)
             end
        else join [space] (words s)
    end.
Proof.
  induction s as [|c s [IHt IHf]]; [split; reflexivity|].
  destruct (is_space c) eqn:Hc.
  - simpl. rewrite Hc. split; [exact IHt|].
    rewrite trim_end_cons, is_space_space, replace_space_runs_all_space.
    simpl. destruct (words s) as [|w ws] eqn:Hw.
    + apply words_nil_iff in Hw. rewrite Hw. reflexivity.
    + destruct (forallb is_space s) eqn:Hs.
      * apply words_nil_iff in Hs. congruence.
      * rewrite IHt. reflexivity.
  - assert (trim_end (c :: replace_space_runs false s)
            = join [space] (words (c :: s))) as H.
    { rewrite trim_end_nonspace by exact Hc. rewrite IHf.
      destruct s as [|d s']; [simpl; rewrite Hc; reflexivity|].
      destruct (is_space d) eqn:Hd.
      - change (words (c :: d :: s'))
          with (if is_space c then words (d :: s')
                else if is_space d then [c] :: words (d :: s')
                     else match words (d :: s') with
                          | w :: ws => (c :: w) :: ws
                          | [] => [[c]]
                          end).
        rewrite Hc, Hd. destruct (words (d :: s')); reflexivity.
      - destruct (words_cons_nonspace c d s' Hc Hd) as (w & ws & H1 & H2).
        rewrite H2, H1. symmetry. apply join_cons_cons. }
    simpl replace_space_runs. rewrite Hc. split; exact H.
Qed.

(** The chain [replace(/\s+/g, " ").trim()] leaves the words of its
    input, one space between neighbours. *)
Lemma trim_replace_words (s : jsstring) :
  trim (replace_space_runs false s) = join [space] (words s).
Proof.
  unfold trim. rewrite trim_start_replace. apply trim_end_replace.
Qed.

Lemma normalize_string_normalized (s : jsstring) :
  normalize_string s = normalized s.
Proof. apply trim_replace_words. Qed.

(** ** Tokens *)

Lemma words_unfold (c d : code_unit) (s : jsstring) :
  words (c :: d :: s) =
  if is_space c then words (d :: s)
  else if is_space d then [c] :: words (d :: s)
       else match words (d :: s) with
            | w :: ws => (c :: w) :: ws
            | [] => [[c]]
            end.
Proof. reflexivity. Qed.

Lemma token_cons (c : code_unit) (w : jsstring) :
  is_space c = false -> Forall (fun c => is_space c = false) w ->
  token (c :: w).
Proof. intros Hc Hw. split; [discriminate | constructor; assumption]. Qed.

Lemma words_tokens (s : jsstring) : Forall token (words s).
Proof.
  induction s as [|c s IH]; [constructor|].
  destruct s as [|d s'].
  - simpl. destruct (is_space c) eqn:Hc; constructor; [|constructor].
    apply token_cons; [exact Hc | constructor].
  - rewrite words_unfold. destruct (is_space c) eqn:Hc; [exact IH|].
    destruct (is_space d) eqn:Hd.
    + constructor; [apply token_cons; [exact Hc | constructor] | exact IH].
    + destruct (words (d :: s')) as [|w ws].
      * constructor; [apply token_cons; [exact Hc | constructor] | constructor].
      * inversion IH as [|? ? [_ Hw] Hws]; subst.
        constructor; [apply token_cons; assumption | exact Hws].
Qed.




Lemma nonspace_not_space (c : code_unit) :
  is_space c = false -> unit_eqb c space = false.
Proof.
  intros H. unfold unit_eqb. destruct (N.eqb_spec c space) as [->|]; auto.
Qed.

Lemma split_token (w : jsstring) :
  Forall (fun c => is_space c = false) w -> split space w = [w].
Proof.
  induction 1 as [|c w Hc Hw IH]; [reflexivity|].
  simpl. rewrite (nonspace_not_space c Hc), IH. reflexivity.
Qed.

Lemma split_app_space (w t : jsstring) :
  Forall (fun c => is_space c = false) w ->
  split space (w ++ space :: t) = w :: split space t.
Proof.
  induction 1 as [|c w Hc Hw IH]; [reflexivity|].
  simpl app. simpl split. rewrite (nonspace_not_space c Hc).
  simpl in IH. rewrite IH. reflexivity.
Qed.

Lemma split_join (ws : list jsstring) :
  Forall token ws -> ws <> [] -> split space (join [space] ws) = ws.
Proof.
  induction 1 as [|w ws [_ Hw] Hws IH]; [congruence|]. intros _.
  destruct ws as [|w2 rest]; [exact (split_token w Hw)|].
  change (join [space] (w :: w2 :: rest))
    with (w ++ space :: join [space] (w2 :: rest)).
  rewrite split_app_space, IH; [reflexivity | discriminate | exact Hw].
Qed.

Lemma filter_nonempty_tokens (ws : list jsstring) :
  Forall token ws -> filter nonempty ws = ws.
Proof.
  induction 1 as [|w ws [Hne _] Hws IH]; [reflexivity|].
  simpl. destruct w; [congruence|]. simpl. rewrite IH. reflexivity.
Qed.

(** The tokens [buildSearchKey] splits a normalised name into are the
    words of the name. *)
Lemma tokens_of_join (ws : list jsstring) :
  Forall token ws -> filter nonempty (split space (join [space] ws)) = ws.
Proof.
  intros H. destruct ws as [|w ws']; [reflexivity|].
  rewrite split_join by (assumption || discriminate).
  apply filter_nonempty_tokens, H.
Qed.

(** ** Lower-casing *)









(** ** The search key of a list of tokens *)

Lemma trim_end_app (a b : jsstring) :
  trim_end (a ++ b) =
  if forallb is_space b then trim_end a else a ++ trim_end b.
Proof.
  unfold trim_end. rewrite rev_app_distr, trim_start_app, forallb_rev.
  destruct (forallb is_space b); [reflexivity|].
  rewrite rev_app_distr, rev_involutive. reflexivity.
Qed.

Lemma trim_end_nonspaces (w : jsstring) :
  Forall (fun c => is_space c = false) w -> trim_end w = w.
Proof.
  induction 1 as [|c w Hc Hw IH]; [reflexivity|].
  rewrite trim_end_nonspace, IH by exact Hc. reflexivity.
Qed.

Lemma token_not_all_space (w t : jsstring) :
  token w -> forallb is_space (w ++ t) = false.
Proof.
  intros [Hne Hw]. destruct w as [|c w]; [congruence|].
  inversion Hw as [|? ? Hc _]; subst. simpl. rewrite Hc. reflexivity.
Qed.

Lemma trim_start_token (w t : jsstring) :
  token w -> trim_start (w ++ t) = w ++ t.
Proof.
  intros [Hne Hw]. destruct w as [|c w]; [congruence|].
  inversion Hw as [|? ? Hc _]; subst. simpl. rewrite Hc. reflexivity.
Qed.

Lemma join_tokens_shape (ws : list jsstring) :
  Forall token ws -> ws <> [] ->
  forallb is_space (join [space] ws) = false /\
  trim_start (join [space] ws) = join [space] ws /\
  trim_end (join [space] ws) = join [space] ws.
Proof.
  induction 1 as [|w ws Hw Hws IH]; [congruence|]. intros _.
  destruct ws as [|w2 rest].
  - simpl. rewrite <- (app_nil_r w).
    rewrite token_not_all_space, trim_start_token by exact Hw.
    rewrite app_nil_r. repeat split. apply trim_end_nonspaces, Hw.
  - destruct IH as (Ha & _ & He); [discriminate|].
    change (join [space] (w :: w2 :: rest))
      with (w ++ [space] ++ join [space] (w2 :: rest)).
    rewrite token_not_all_space, trim_start_token by exact Hw.
    repeat split.
    rewrite trim_end_app.
    assert (forallb is_space ([space] ++ join [space] (w2 :: rest)) = false)
      as -> by (simpl forallb; simpl in Ha; rewrite Ha; reflexivity).
    rewrite trim_end_app, Ha, He. reflexivity.
Qed.

Lemma trim_join_tokens (ws : list jsstring) :
  Forall token ws -> trim (join [space] ws) = join [space] ws.
Proof.
  intros H. destruct ws as [|w ws']; [reflexivity|].
  destruct (join_tokens_shape (w :: ws') H) as (_ & Hs & He); [discriminate|].
  unfold trim. rewrite Hs. exact He.
Qed.

Lemma nth_last {A} (l : list A) (d : A) : nth (length l - 1) l d = last l d.
Proof.
  induction l as [|x l IH]; [reflexivity|].
  destruct l as [|y l']; [reflexivity|].
  simpl length in *. simpl last.
  replace (S (S (length l')) - 1)%nat with (S (length l')) by lia.
  replace (S (length l') - 1)%nat with (length l') in IH by lia.
  exact IH.
Qed.

Lemma firstn_removelast {A} (l : list A) :
  firstn (length l - 1) l = removelast l.
Proof.
  rewrite removelast_firstn_len. f_equal. lia.
Qed.

Lemma Forall_removelast {A} (P : A -> Prop) (l : list A) :
  Forall P l -> Forall P (removelast l).
Proof.
  induction 1 as [|x l Hx Hl IH]; [constructor|].
  destruct l; [constructor|]. constructor; assumption.
Qed.

Lemma Forall_last {A} (P : A -> Prop) (l : list A) (d : A) :
  Forall P l -> l <> [] -> P (last l d).
Proof.
  induction 1 as [|x l Hx Hl IH]; [congruence|]. intros _.
  destruct l; [exact Hx|]. apply IH. discriminate.
Qed.

Lemma join_empty_concat (parts : list jsstring) :
  join [] parts = concat parts.
Proof.
  induction parts as [|p ps IH]; [reflexivity|].
  destruct ps as [|p2 rest]; [simpl; rewrite app_nil_r; reflexivity|].
  change (join [] (p :: p2 :: rest)) with (p ++ join [] (p2 :: rest)).
  rewrite IH. reflexivity.
Qed.

(** On tokens, the body of [buildSearchKey] computes the five
    representations of the specification. *)
Lemma key_of_parts_search_key (parts : list jsstring) :
  Forall token parts -> key_of_parts parts = search_key parts.
Proof.
  intros H. unfold key_of_parts, search_key, representations.
  assert (or_empty (nth_error parts 0) = hd [] parts) as Hfirst.
  { destruct H as [|w ws [Hne _] _]; [reflexivity|].
    destruct w; [congruence | reflexivity]. }
  assert ((if (1 <? length parts)%nat
           then nth (length parts - 1) parts []
           else or_empty (nth_error parts 0)) = last parts []) as Hlast.
  { destruct (Nat.ltb_spec 1 (length parts)); [apply nth_last|].
    rewrite Hfirst. destruct parts as [|p [|p2 rest]]; simpl in *;
      (reflexivity || lia). }
  rewrite Hlast, Hfirst, firstn_removelast, join_empty_concat.
  unfold firstLast, lastFirst, compact.
  change (js " ") with [space].
  destruct parts as [|p ps]; [reflexivity|].
  rewrite trim_join_tokens; [reflexivity|].
  constructor; [apply Forall_last; [exact H | discriminate]|].
  apply Forall_removelast, H.
Qed.

(** ** [normalizeText] and [buildSearchKey] *)

Lemma normalizeText_string (s : jsstring) :
  normalizeText (VString s) = Normal (normalize_string s).
Proof.
  unfold normalizeText. simpl truthy.
  destruct s; reflexivity.
Qed.

Lemma tokens_normalize_string (s : jsstring) :
  filter nonempty (split space (normalize_string s)) = words (toLowerCase s).
Proof.
  rewrite normalize_string_normalized. apply tokens_of_join, words_tokens.
Qed.

(** C5, counterexample: [normalizeText(123)] is ["123"], a non-string
    input that does not normalise to the empty string. *)
Lemma C5_counterexample :
  normalizeText (VNumber (of_Z 123)) = Normal (js "123") /\
  normalizeText (VNumber (of_Z 123)) <> Normal [].
Proof. split; [vm_compute; reflexivity | vm_compute; discriminate]. Qed.

(** C5, amended: on a string, [normalizeText] lower-cases, replaces each
    run of white space by one space and trims, which leaves the
    lower-cased words of the input with one space between neighbours; an
    absent input ([undefined], [null]) and the other falsy values
    ([false], zero, [NaN]) give the empty string; any other input gives
    the normal form of its string conversion. *)
Theorem C5_normalizeText :
  (forall s : jsstring,
      normalizeText (VString s)
      = Normal (trim (replace_space_runs false (toLowerCase s))) /\
      normalizeText (VString s)
      = Normal (join [space] (words (toLowerCase s)))) /\
  normalizeText VUndefined = Normal [] /\
  normalizeText VNull = Normal [] /\
  normalizeText (VBoolean false) = Normal [] /\
  (forall sg, normalizeText (VNumber (S754_zero sg)) = Normal []) /\
  normalizeText (VNumber S754_nan) = Normal [] /\
  (forall v, truthy v = true ->
     normalizeText v = str <- ToString v ;; Normal (normalized str)).
Proof.
  repeat split; try reflexivity.
  - apply normalizeText_string.
  - rewrite normalizeText_string, normalize_string_normalized. reflexivity.
  - intros v Hv. unfold normalizeText. rewrite Hv.
    destruct (ToString v); simpl; [|reflexivity].
    rewrite normalize_string_normalized. reflexivity.
Qed.


(** C2: [buildSearchKey] normalises the name, gives the empty key for an
    empty normal form, and otherwise joins with [" | "] the five
    representations of the tokens between the single spaces: firstLast,
    lastFirst, last, first, compact. *)
Theorem C2_buildSearchKey :
  (forall fullName : value,
      buildSearchKey fullName =
      n <- normalizeText fullName ;;
      Normal (if nonempty n
              then join (js " | ")
                     (let tokens := filter nonempty (split space n) in
                      [firstLast tokens; lastFirst tokens; last tokens [];
                       hd [] tokens; compact tokens])
              else [])) /\
  buildSearchKey (VString (js "RG Sharma"))
  = Normal (js "rg sharma | sharma rg | sharma | rg | rgsharma") /\
  buildSearchKey (VString (js "Kohli"))
  = Normal (js "kohli | kohli | kohli | kohli | kohli").
Proof.
  split; [|split; vm_compute; reflexivity].
  intros fullName. unfold buildSearchKey.
  destruct (normalizeText fullName) as [n|e] eqn:Hn; simpl; [|reflexivity].
  destruct (nonempty n); simpl; [|reflexivity].
  f_equal. unfold normalizeText in Hn.
  destruct (ToString (if truthy fullName then fullName else VString []))
    as [str|]; simpl in Hn; [|discriminate].
  injection Hn as <-.
  rewrite key_of_parts_search_key; [reflexivity|].
  rewrite tokens_normalize_string. apply words_tokens.
Qed.

(** ** String conversion of values *)

Lemma value_induction (P : value -> Prop) :
  P VUndefined -> P VNull -> (forall b, P (VBoolean b)) ->
  (forall x, P (VNumber x)) -> (forall s, P (VString s)) ->
  (forall items, Forall P items -> P (VArray items)) ->
  (forall props, P (VObject props)) ->
  forall v, P v.
Proof.
  intros Hu Hn Hb Hx Hs Ha Ho.
  fix IH 1. intros [| |b|x|s|items|props].
  - exact Hu.
  - exact Hn.
  - apply Hb.
  - apply Hx.
  - apply Hs.
  - apply Ha. induction items as [|i items IHitems]; constructor.
    + apply IH.
    + exact IHitems.
  - apply Ho.
Qed.

Lemma ToString_array_cons (x : value) (rest : list value) :
  ToString (VArray (x :: rest)) =
  s <- match x with
       | VUndefined | VNull => Normal []
       | _ => ToString x
       end ;;
  match rest with
  | [] => Normal s
  | _ :: _ => r <- ToString (VArray rest) ;; Normal (s ++ js "," ++ r)
  end.
Proof. reflexivity. Qed.

(** The conversion is defined exactly on the convertible values. *)
Lemma ToString_convertible (v : value) :
  if convertible v then exists s, ToString v = Normal s
  else ToString v = Throw TypeError.
Proof.
  induction v as [| |b|x|s|items IH|props] using value_induction;
    try (simpl; eexists; reflexivity).
  - induction IH as [|i items Hi _ IHitems]; [exists []; reflexivity|].
    rewrite ToString_array_cons.
    change (convertible (VArray (i :: items)))
      with (convertible i && convertible (VArray items)).
    assert (items = [] /\ convertible (VArray items) = true \/
            exists i2 rest, items = i2 :: rest) as Hitems
      by (destruct items; [left; split; reflexivity | right; eauto]).
    remember (ToString (VArray items)) as A eqn:HA.
    remember (convertible (VArray items)) as B eqn:HB.
    clear HA HB.
    destruct (convertible i).
    + destruct Hi as [s Hs].
      assert ((match i with
               | VUndefined | VNull => Normal []
               | _ => ToString i
               end) = Normal (match i with
                              | VUndefined | VNull => []
                              | _ => s
                              end)) as ->
          by (destruct i; (reflexivity || exact Hs)).
      cbn [bind andb].
      destruct B.
      * destruct IHitems as [r ->]. destruct items; eexists; reflexivity.
      * rewrite IHitems. destruct Hitems as [[_ H]|(i2 & rest & ->)];
          [discriminate H | reflexivity].
    + assert ((match i with
               | VUndefined | VNull => Normal []
               | _ => ToString i
               end) = Throw TypeError) as ->
          by (destruct i; (discriminate || exact Hi)).
      reflexivity.
  - simpl. destruct (has_own_property props (js "toString")); simpl;
      [reflexivity | eexists; reflexivity].
Qed.

Lemma ToString_total (v : value) :
  convertible v = true -> exists s, ToString v = Normal s.
Proof. intros H. pose proof (ToString_convertible v) as C. rewrite H in C. exact C. Qed.


(** ** The option list of [SearchSelect] *)

Lemma normalizeText_total (v : value) :
  convertible v = true -> exists s, normalizeText v = Normal s.
Proof.
  intros H. unfold normalizeText.
  destruct (truthy v).
  - destruct (ToString_total v H) as [s ->]. eexists. reflexivity.
  - eexists. reflexivity.
Qed.

Lemma buildSearchKey_total (v : value) :
  convertible v = true -> exists k, buildSearchKey v = Normal k.
Proof.
  intros H. unfold buildSearchKey.
  destruct (normalizeText_total v H) as [n ->]. simpl.
  destruct (nonempty n); eexists; reflexivity.
Qed.

Lemma entries_total (options : list value) :
  forallb convertible options = true -> exists l, entries options = Normal l.
Proof.
  induction options as [|n rest IH]; simpl; [eexists; reflexivity|].
  intros H. apply andb_true_iff in H as [Hn Hrest].
  destruct (buildSearchKey_total n Hn) as [k ->].
  destruct (IH Hrest) as [l ->]. eexists. reflexivity.
Qed.

Lemma entries_names (options : list value) (l : list entry) :
  entries options = Normal l -> List.map name l = options.
Proof.
  revert l. induction options as [|n rest IH]; simpl; intros l H.
  - injection H as <-. reflexivity.
  - destruct (buildSearchKey n); simpl in H; [|discriminate].
    destruct (entries rest); simpl in H; [|discriminate].
    injection H as <-. simpl. rewrite IH; reflexivity.
Qed.

Lemma entries_filter (qq : jsstring) (options : list value) (l : list entry) :
  entries options = Normal l ->
  List.map name (filter (fun o => includes (key o) qq) l)
  = filter (matches qq) options.
Proof.
  revert l. induction options as [|n rest IH]; simpl; intros l H.
  - injection H as <-. reflexivity.
  - unfold matches at 1.
    destruct (buildSearchKey n) as [k|]; simpl in H; [|discriminate].
    destruct (entries rest) as [l'|]; simpl in H; [|discriminate].
    injection H as <-. simpl.
    destruct (includes k qq); simpl; rewrite (IH l'); reflexivity.
Qed.

Lemma matches_empty (options : list value) (l : list entry) :
  entries options = Normal l -> filter (matches []) options = options.
Proof.
  revert l. induction options as [|n rest IH]; simpl; intros l H;
    [reflexivity|].
  unfold matches at 1.
  destruct (buildSearchKey n) as [k|]; simpl in H; [|discriminate].
  destruct (entries rest) as [l'|]; simpl in H; [|discriminate].
  rewrite includes_empty, (IH l'); reflexivity.
Qed.

Lemma Normal_inj {A} (a b : A) : Normal a = Normal b -> a = b.
Proof. intros H. congruence. Qed.

(** What [search] returns, when it returns. *)
Lemma search_result (candidates : list value) (query : jsstring)
  (r : list value) :
  search candidates query = Normal r ->
  r = firstn limit
        (if nonempty (normalize_string query)
         then filter (matches (normalize_string query)) candidates
         else candidates).
Proof.
  unfold search, opts. rewrite normalizeText_string.
  destruct (entries candidates) as [l|] eqn:Hl; cbn [bind]; [|discriminate].
  destruct (nonempty (normalize_string query)); cbn [bind negb];
    intros H; apply Normal_inj in H; subst r.
  - rewrite <- firstn_map, (entries_filter _ _ _ Hl). reflexivity.
  - rewrite <- firstn_map, (entries_names _ _ Hl). reflexivity.
Qed.

Lemma search_total (candidates : list value) (query : jsstring) :
  forallb convertible candidates = true ->
  exists r, search candidates query = Normal r.
Proof.
  intros H. unfold search, opts. rewrite normalizeText_string.
  destruct (entries_total candidates H) as [l ->]. cbn [bind].
  destruct (nonempty (normalize_string query)); eexists; reflexivity.
Qed.

(** C4: [search] returns at most 150 results: the first 150 candidates in
    their order when the normalised query is empty, the first 150
    matching candidates in their order otherwise; it returns for every
    list of convertible candidates, strings in particular. *)
Theorem C4_search_limit (candidates : list value) (query : jsstring) :
  (forallb convertible candidates = true ->
   exists r, search candidates query = Normal r) /\
  (forall r, search candidates query = Normal r ->
     (length r <= 150)%nat /\
     (normalize_string query = [] -> r = firstn 150 candidates) /\
     (normalize_string query <> [] ->
      r = firstn 150
            (filter (matches (normalize_string query)) candidates))).
Proof.
  split; [apply search_total|].
  intros r Hr. apply search_result in Hr.
  split; [rewrite Hr; apply firstn_le_length|].
  split; intros Hq.
  - rewrite Hq in Hr. exact Hr.
  - destruct (normalize_string query); [congruence | exact Hr].
Qed.

Lemma C4_search_limit_witness :
  let candidates := [VString (js "RG Sharma"); VString (js "V Kohli")] in
  let query := js "Sharma" in
  forallb convertible candidates = true /\
  search candidates query = Normal [VString (js "RG Sharma")] /\
  normalize_string query <> [] /\
  [VString (js "RG Sharma")]
  = firstn 150 (filter (matches (normalize_string query)) candidates).
Proof.
  intros candidates query.
  assert (search candidates query = Normal [VString (js "RG Sharma")]) as H
    by (vm_compute; reflexivity).
  assert (normalize_string query <> []) as Hq by (vm_compute; discriminate).
  split; [vm_compute; reflexivity|].
  split; [exact H|]. split; [exact Hq|].
  exact (proj2 (proj2 (proj2 (C4_search_limit candidates query) _ H)) Hq).
Defined.

Lemma matches_substring (qq : jsstring) (c : value) :
  matches qq c = true <->
  exists k, buildSearchKey c = Normal k /\ substring qq k.
Proof.
  unfold matches. destruct (buildSearchKey c) as [k|e].
  - rewrite includes_substring. split.
    + intros H. exists k. split; [reflexivity | exact H].
    + intros (k' & Hk & H). apply Normal_inj in Hk. subst k'. exact H.
  - split; [discriminate | intros (k & Hk & _); discriminate].
Qed.

(** C3, counterexample: of 151 candidates that all match the query ["a"],
    the last one, ["ab"], is not in the result. *)
Lemma C3_counterexample :
  let candidates := repeat (VString (js "a")) 150 ++ [VString (js "ab")] in
  let q := js "a" in
  q <> [] /\
  In (VString (js "ab")) candidates /\
  (exists k, buildSearchKey (VString (js "ab")) = Normal k /\
             substring (normalize_string q) k) /\
  exists r, search candidates q = Normal r /\ ~ In (VString (js "ab")) r.
Proof.
  intros candidates q. split; [discriminate|]. split.
  - apply in_or_app. right. left. reflexivity.
  - split.
    + apply matches_substring. vm_compute. reflexivity.
    + exists (repeat (VString (js "a")) 150). split.
      * vm_compute. reflexivity.
      * intros H. apply repeat_spec in H. discriminate H.
Qed.

(** C3, amended: a candidate whose derived search key contains the
    normalised query as a substring appears in the result of [search]
    whenever it is among the first 150 such candidates, and so whenever at
    most 150 candidates match. *)
Theorem C3_search_complete (candidates : list value) (q : jsstring)
  (r : list value) (c : value) (k : jsstring) :
  search candidates q = Normal r ->
  In c candidates ->
  buildSearchKey c = Normal k ->
  substring (normalize_string q) k ->
  (In c (firstn 150 (filter (matches (normalize_string q)) candidates)) ->
   In c r) /\
  ((length (filter (matches (normalize_string q)) candidates) <= 150)%nat ->
   In c r).
Proof.
  intros Hr Hc Hk Hsub.
  assert (matches (normalize_string q) c = true) as Hm
    by (apply matches_substring; exists k; split; assumption).
  assert (r = firstn 150 (filter (matches (normalize_string q)) candidates))
    as ->.
  { pose proof (search_result _ _ _ Hr) as H.
    destruct (nonempty (normalize_string q)) eqn:Hq; [exact H|].
    destruct (normalize_string q); [|discriminate Hq].
    unfold search in Hr.
    destruct (opts candidates []) eqn:Ho.
    - unfold opts in Ho. destruct (entries candidates) as [l|] eqn:Hl.
      + rewrite (matches_empty candidates l Hl). exact H.
      + discriminate Ho.
    - unfold opts in Hr.
      destruct (entries candidates) as [l|] eqn:Hl.
      + rewrite (matches_empty candidates l Hl). exact H.
      + discriminate Hr. }
  split; [tauto|].
  intros Hlen. rewrite firstn_all2 by exact Hlen.
  apply filter_In. split; assumption.
Qed.

Lemma C3_search_complete_witness :
  let candidates := [VString (js "RG Sharma"); VString (js "V Kohli")] in
  let key := js "v kohli | kohli v | kohli | v | vkohli" in
  search candidates (js "KOHLI") = Normal [VString (js "V Kohli")] /\
  In (VString (js "V Kohli")) candidates /\
  buildSearchKey (VString (js "V Kohli")) = Normal key /\
  substring (normalize_string (js "KOHLI")) key /\
  In (VString (js "V Kohli")) [VString (js "V Kohli")].
Proof.
  intros candidates key.
  assert (search candidates (js "KOHLI") = Normal [VString (js "V Kohli")])
    as Hr by (vm_compute; reflexivity).
  assert (In (VString (js "V Kohli")) candidates) as Hc
    by (right; left; reflexivity).
  assert (buildSearchKey (VString (js "V Kohli")) = Normal key) as Hk
    by (vm_compute; reflexivity).
  assert (substring (normalize_string (js "KOHLI")) key) as Hs
    by (apply includes_substring; vm_compute; reflexivity).
  split; [exact Hr|]. split; [exact Hc|]. split; [exact Hk|].
  split; [exact Hs|].
  apply (proj2 (C3_search_complete candidates (js "KOHLI") _ _ key
                  Hr Hc Hk Hs)).
  vm_compute. lia.
Defined.


(** ** Decimal digits *)

Lemma digit_is_digit (n : Z) : is_digit (digit (n mod 10)) = true.
Proof.
  pose proof (Z.mod_pos_bound n 10 ltac:(lia)) as H.
  unfold is_digit, digit. apply andb_true_iff.
  split; apply N.leb_le; lia.
Qed.

Lemma digits_loop_app (fuel : nat) (n : Z) (acc : jsstring) :
  digits_loop fuel n acc = digits_loop fuel n [] ++ acc.
Proof.
  revert n acc. induction fuel as [|fuel IH]; intros n acc; [reflexivity|].
  simpl. destruct (n <? 10); [reflexivity|].
  rewrite IH, (IH _ [_]), <- app_assoc. reflexivity.
Qed.

Lemma digits_loop_succ (fuel : nat) (n : Z) :
  digits_loop (S fuel) n [] =
  if n <? 10 then [digit (n mod 10)]
  else digits_loop fuel (n / 10) [] ++ [digit (n mod 10)].
Proof.
  simpl. destruct (n <? 10); [reflexivity|]. apply digits_loop_app.
Qed.

Lemma digits_loop_digits (fuel : nat) (n : Z) :
  forallb is_digit (digits_loop fuel n []) = true.
Proof.
  revert n. induction fuel as [|fuel IH]; intros n.
  - simpl. rewrite digit_is_digit. reflexivity.
  - rewrite digits_loop_succ. destruct (n <? 10).
    + simpl. rewrite digit_is_digit. reflexivity.
    + rewrite forallb_app, IH. simpl. rewrite digit_is_digit. reflexivity.
Qed.

Lemma digits_loop_nonempty (fuel : nat) (n : Z) :
  digits_loop fuel n [] <> [].
Proof.
  destruct fuel; [discriminate|]. rewrite digits_loop_succ.
  destruct (n <? 10); [discriminate|].
  intros H. apply app_eq_nil in H as [_ H]. discriminate.
Qed.

(** A number below [10^p] has at most [p] digits. *)
Lemma digits_loop_length_le (fuel : nat) (n : Z) (p : nat) :
  (1 <= p)%nat -> n < 10 ^ Z.of_nat p ->
  (length (digits_loop fuel n []) <= p)%nat.
Proof.
  revert n p. induction fuel as [|fuel IH]; intros n p Hp Hn; [simpl; lia|].
  rewrite digits_loop_succ. destruct (Z.ltb_spec n 10); [simpl; lia|].
  rewrite length_app. simpl.
  destruct p as [|[|p]]; [lia | simpl in Hn; lia |].
  enough (length (digits_loop fuel (n / 10) []) <= S p)%nat by lia.
  apply IH; [lia|].
  apply Z.div_lt_upper_bound; [lia|].
  replace (Z.of_nat (S (S p))) with (Z.succ (Z.of_nat (S p))) in Hn by lia.
  rewrite Z.pow_succ_r in Hn by lia. exact Hn.
Qed.

(** With enough fuel, a number is below [10^k] for its [k] digits. *)
Lemma digits_loop_length_gt (fuel : nat) (n : Z) :
  n < 2 ^ (Z.of_nat fuel + 1) ->
  n < 10 ^ Z.of_nat (length (digits_loop fuel n [])).
Proof.
  revert n. induction fuel as [|fuel IH]; intros n Hn.
  - simpl in *. lia.
  - rewrite digits_loop_succ. destruct (Z.ltb_spec n 10); [simpl; lia|].
    rewrite length_app. simpl length.
    replace (Z.of_nat (length (digits_loop fuel (n / 10) []) + 1))
      with (Z.succ (Z.of_nat (length (digits_loop fuel (n / 10) []))))
      by lia.
    rewrite Z.pow_succ_r by lia.
    assert (n / 10 < 10 ^ Z.of_nat (length (digits_loop fuel (n / 10) [])))
      as Hq.
    { apply IH. apply Z.div_lt_upper_bound; [lia|].
      replace (Z.of_nat (S fuel) + 1) with (Z.succ (Z.of_nat fuel + 1)) in Hn
        by lia.
      rewrite Z.pow_succ_r in Hn by lia. lia. }
    pose proof (Z.mul_div_le n 10 ltac:(lia)).
    pose proof (Z.mod_pos_bound n 10 ltac:(lia)).
    pose proof (Z.div_mod n 10 ltac:(lia)). lia.
Qed.

Lemma decimal_digits_digits (n : Z) :
  forallb is_digit (decimal_digits n) = true.
Proof. apply digits_loop_digits. Qed.

Lemma decimal_digits_nonempty (n : Z) : decimal_digits n <> [].
Proof. apply digits_loop_nonempty. Qed.

Lemma decimal_digits_length_le (n : Z) (p : nat) :
  (1 <= p)%nat -> n < 10 ^ Z.of_nat p ->
  (length (decimal_digits n) <= p)%nat.
Proof. apply digits_loop_length_le. Qed.

Lemma decimal_digits_length_gt (n : Z) :
  n < 10 ^ Z.of_nat (length (decimal_digits n)).
Proof.
  apply digits_loop_length_gt.
  destruct (Z.ltb_spec 0 n) as [Hn|Hn].
  - rewrite Z2Nat.id by apply Z.log2_nonneg.
    apply Z.log2_spec in Hn. replace (Z.log2 n + 1) with (Z.succ (Z.log2 n)) by lia.
    lia.
  - pose proof (Z.pow_pos_nonneg 2 (Z.of_nat (Z.to_nat (Z.log2 n)) + 1)
                  ltac:(lia) ltac:(lia)).
    lia.
Qed.

Lemma zeros_digits (n : Z) : forallb is_digit (zeros n) = true.
Proof.
  unfold zeros. induction (Z.to_nat n) as [|k IH]; [reflexivity|].
  simpl. exact IH.
Qed.

Lemma zeros_length (n : Z) : length (zeros n) = Z.to_nat n.
Proof. apply repeat_length. Qed.

(** ** [toFixed] *)

Lemma forallb_firstn {A} (f : A -> bool) (n : nat) (l : list A) :
  forallb f l = true -> forallb f (firstn n l) = true.
Proof.
  intros H. rewrite <- (firstn_skipn n l), forallb_app in H.
  apply andb_true_iff in H. tauto.
Qed.

Lemma forallb_skipn {A} (f : A -> bool) (n : nat) (l : list A) :
  forallb f l = true -> forallb f (skipn n l) = true.
Proof.
  intros H. rewrite <- (firstn_skipn n l), forallb_app in H.
  apply andb_true_iff in H. tauto.
Qed.

(** Splitting digits [f] places from the end gives fixed-point notation. *)
Lemma split_digits_fixed (sg m : jsstring) (f : Z) :
  sign sg -> forallb is_digit m = true -> 0 < f ->
  (Z.to_nat f + 1 <= length m)%nat ->
  fixed_notation f
    (sg ++ firstn (length m - Z.to_nat f) m ++ js "." ++
     skipn (length m - Z.to_nat f) m).
Proof.
  intros Hsg Hm Hf Hlen.
  exists sg, (firstn (length m - Z.to_nat f) m),
    (skipn (length m - Z.to_nat f) m).
  split; [reflexivity|]. split; [exact Hsg|]. split.
  - intros H. apply (f_equal (@length _)) in H.
    rewrite length_firstn in H. simpl in H. lia.
  - split; [apply forallb_firstn, Hm|].
    split; [apply forallb_skipn, Hm|].
    rewrite length_skipn. lia.
Qed.

(** Below [10^21] a finite number prints with exactly [f] digits after
    the point. *)
Lemma toFixed_fixed_notation (x : number) (f : Z) :
  is_finite x = true -> below_1e21 x = true -> 0 < f ->
  fixed_notation f (toFixed x f).
Proof.
  intros Hfin Hlt Hf.
  assert (toFixed x f =
          let s := if num x <? 0 then js "-" else [] in
          let n := (2 * Z.abs (num x) * 10 ^ f + den x) / (2 * den x) in
          let m := decimal_digits n in
          let k := Z.of_nat (length m) in
          let m := if k <=? f then zeros (f + 1 - k) ++ m else m in
          s ++ firstn (length m - Z.to_nat f) m ++ js "." ++
          skipn (length m - Z.to_nat f) m) as ->.
  { unfold toFixed. destruct x; try discriminate Hfin;
      rewrite Hlt; destruct (Z.eqb_spec f 0); (lia || reflexivity). }
  cbv zeta. apply split_digits_fixed.
  - destruct (num x <? 0); [right | left]; reflexivity.
  - destruct (_ <=? f); [|apply decimal_digits_digits].
    rewrite forallb_app, zeros_digits, decimal_digits_digits. reflexivity.
  - exact Hf.
  - destruct (Z.leb_spec (Z.of_nat (length (decimal_digits
        ((2 * Z.abs (num x) * 10 ^ f + den x) / (2 * den x))))) f); [|lia].
    rewrite length_app, zeros_length. lia.
Qed.

(** ** [formatCell], [fmt] and [fmtPct] *)

Lemma includes_prefix (k p t : jsstring) :
  includes k (p ++ t) = true -> includes k p = true.
Proof.
  rewrite !includes_substring. intros (a & b & ->).
  exists a, (t ++ b). rewrite <- app_assoc. reflexivity.
Qed.

Lemma includes_wicket_pct (k : jsstring) :
  includes k (js "wicket_pct") || includes k (js "wicket_pct_per_start")
  = includes k (js "wicket_pct").
Proof.
  destruct (includes k (js "wicket_pct")) eqn:H; [reflexivity|].
  destruct (includes k (js "wicket_pct_per_start")) eqn:H2; [|reflexivity].
  change (js "wicket_pct_per_start")
    with (js "wicket_pct" ++ js "_per_start") in H2.
  apply includes_prefix in H2. congruence.
Qed.

(** The five naming rules, as [formatCell] tests them on a string key. *)
Lemma formatCell_number (x : number) (key : jsstring) :
  formatCell (VNumber x) (VString key) =
  let k := toLowerCase key in
  if includes k (js "econ") then Normal (toFixed x 2)
  else if str_eqb k (js "sr") || includes k (js "sr_")
          || includes k (js "_sr") || includes k (js "strike")
  then Normal (toFixed x 1)
  else if includes k (js "dismiss") then Normal (toFixed x 1)
  else if includes k (js "wicket_pct") then Normal (toFixed x 1)
  else if includes k (js "share") then Normal (toFixed x 1)
  else if isInteger x then Normal (toString x)
  else Normal (toString (div (round (mul x ten_thousand)) ten_thousand)).
Proof.
  unfold formatCell. cbn [ToString bind]. cbv zeta.
  rewrite includes_wicket_pct. reflexivity.
Qed.




(** C6: for every key, [formatCell] gives the empty string for [null]
    and [undefined]; [fmt] gives the em dash for them and [formatCell]
    otherwise; [fmtPct] gives the em dash alone for them and [formatCell]
    followed by ["%"] otherwise. *)
Theorem C6_missing_values (key : value) :
  formatCell VNull key = Normal [] /\
  formatCell VUndefined key = Normal [] /\
  fmt VNull key = Normal em_dash /\
  fmt VUndefined key = Normal em_dash /\
  fmtPct VNull key = Normal em_dash /\
  fmtPct VUndefined key = Normal em_dash /\
  ~ In 37%N em_dash /\
  (forall v, v <> VNull -> v <> VUndefined ->
     fmt v key = formatCell v key /\
     fmtPct v key = (s <- formatCell v key ;; Normal (s ++ js "%"))) /\
  fmt VNull (VString (js "sr")) = Normal [8212%N] /\
  fmt VUndefined (VString (js "econ")) = Normal [8212%N] /\
  formatCell (VNumber (of_Z 6)) (VString (js "econ")) = Normal (js "6.00") /\
  formatCell (VNumber (decimal 75 1)) (VString (js "econ"))
  = Normal (js "7.50") /\
  formatCell (VNumber (decimal 133333 3)) (VString (js "sr"))
  = Normal (js "133.3") /\
  fmtPct (VNumber (decimal 1234 2)) (VString (js "wicket_pct_per_start"))
  = Normal (js "12.3%") /\
  fmtPct (VNumber (of_Z 50)) (VString (js "wicket_pct_per_start"))
  = Normal (js "50.0%").
Proof.
  repeat (split; [reflexivity|]).
  split; [intros [H|[]]; discriminate H|].
  split; [intros v Hn Hu; destruct v; (congruence || split; reflexivity)|].
  repeat split; vm_compute; reflexivity.
Qed.

Lemma C6_missing_values_witness :
  let v := VNumber (decimal 1234 2) in
  let key := VString (js "wicket_pct_per_start") in
  v <> VNull /\ v <> VUndefined /\
  fmt v key = formatCell v key /\
  fmtPct v key = (s <- formatCell v key ;; Normal (s ++ js "%")).
Proof.
  intros v key.
  assert (v <> VNull) as Hn by discriminate.
  assert (v <> VUndefined) as Hu by discriminate.
  split; [exact Hn|]. split; [exact Hu|].
  exact (proj1 (proj2 (proj2 (proj2 (proj2 (proj2 (proj2 (proj2
           (C6_missing_values key)))))))) v Hn Hu).
Defined.

(** ** Exceptions *)

Lemma formatCell_total (v key : value) :
  convertible v = true -> convertible key = true ->
  exists s, formatCell v key = Normal s.
Proof.
  intros Hv Hk.
  destruct v as [| |b|x|s|items|props];
    try (exists []; reflexivity);
    try (apply (ToString_total _ Hv)).
  assert (exists ks, ToString (match key with
                               | VUndefined => VString []
                               | _ => key
                               end) = Normal ks) as [ks Hks].
  { destruct key; try (eexists; reflexivity); apply (ToString_total _ Hk). }
  unfold formatCell. rewrite Hks. cbn [bind]. cbv zeta.
  repeat match goal with
         | |- context [if ?c then _ else _] => destruct c
         end; eexists; reflexivity.
Qed.

(** C9, counterexample: a parsed object with a property named [toString]
    (JSON [{"toString": 1}]) makes each of the five functions throw, as a
    value and as a field key. *)
Lemma C9_counterexample :
  let o := VObject [(js "toString", VNumber (of_Z 1))] in
  normalizeText o = Throw TypeError /\
  buildSearchKey o = Throw TypeError /\
  formatCell o (VString (js "runs")) = Throw TypeError /\
  fmt o (VString (js "runs")) = Throw TypeError /\
  fmtPct o (VString (js "runs")) = Throw TypeError /\
  formatCell (VNumber (of_Z 1)) o = Throw TypeError.
Proof. repeat split; vm_compute; reflexivity. Qed.

(** C9, amended: on every input whose conversion to a string is defined
    (every [undefined], [null], boolean, number and string, and every
    array or object that holds no object with a property named
    [toString]), [normalizeText], [buildSearchKey], [formatCell], [fmt]
    and [fmtPct] return without throwing. A falsy search-key input gives
    the empty string, a value that is no number, [null] or [undefined] is
    formatted as its string conversion, and a number under a key that
    matches no naming rule takes the final rule. *)
Theorem C9_no_exception (v key : value) :
  (convertible v = true ->
   (exists s, normalizeText v = Normal s) /\
   (exists k, buildSearchKey v = Normal k)) /\
  (truthy v = false ->
   normalizeText v = Normal [] /\ buildSearchKey v = Normal []) /\
  (convertible v = true -> convertible key = true ->
   (exists s, formatCell v key = Normal s) /\
   (exists s, fmt v key = Normal s) /\
   (exists s, fmtPct v key = Normal s)) /\
  (v <> VNull -> v <> VUndefined -> (forall x, v <> VNumber x) ->
   formatCell v key = ToString v) /\
  (forall (x : number) (name : jsstring),
     let k := toLowerCase name in
     includes k (js "econ") = false ->
     str_eqb k (js "sr") || includes k (js "sr_")
     || includes k (js "_sr") || includes k (js "strike") = false ->
     includes k (js "dismiss") = false ->
     includes k (js "wicket_pct") = false ->
     includes k (js "share") = false ->
     formatCell (VNumber x) (VString name) =
     Normal (if isInteger x then toString x
             else toString (div (round (mul x ten_thousand)) ten_thousand))).
Proof.
  split; [|split; [|split; [|split]]].
  - intros Hv. split; [apply normalizeText_total | apply buildSearchKey_total];
      exact Hv.
  - intros Hv. unfold buildSearchKey, normalizeText. rewrite Hv.
    split; reflexivity.
  - intros Hv Hk. destruct (formatCell_total v key Hv Hk) as [s Hs].
    repeat split.
    + exists s. exact Hs.
    + destruct v; try (exists s; exact Hs); exists em_dash; reflexivity.
    + destruct v; try (exists em_dash; reflexivity);
        unfold fmtPct; rewrite Hs; eexists; reflexivity.
  - intros Hn Hu Hx. destruct v; try reflexivity; congruence.
  - intros x name k H1 H2 H3 H4 H5. rewrite formatCell_number. fold k.
    cbv zeta. rewrite H1, H2, H3, H4, H5. destruct (isInteger x); reflexivity.
Qed.

Lemma C9_no_exception_witness :
  let v := VArray [VNumber (of_Z 1); VNull; VString (js "x")] in
  let key := VString (js "runs") in
  convertible v = true /\ convertible key = true /\
  (exists s, formatCell v key = Normal s) /\
  (exists s, fmt v key = Normal s) /\
  (exists s, fmtPct v key = Normal s).
Proof.
  intros v key.
  assert (convertible v = true) as Hv by reflexivity.
  assert (convertible key = true) as Hk by reflexivity.
  split; [exact Hv|]. split; [exact Hk|].
  exact (proj1 (proj2 (proj2 (C9_no_exception v key))) Hv Hk).
Defined.

(** ** Binary64 values *)

Lemma digits2_pos_size (m : positive) : digits2_pos m = Pos.size m.
Proof. induction m; simpl; congruence. Qed.

Lemma digits2_pos_bounds (m : positive) :
  2 ^ (Zpos (digits2_pos m) - 1) <= Zpos m < 2 ^ Zpos (digits2_pos m).
Proof.
  rewrite digits2_pos_size.
  pose proof (Pos.size_gt m) as Hgt. pose proof (Pos.size_le m) as Hle.
  apply Pos2Z.pos_lt_pos in Hgt. apply Pos2Z.pos_le_pos in Hle.
  rewrite Pos2Z.inj_pow in Hgt, Hle.
  change (Zpos m~0) with (2 * Zpos m) in Hle.
  replace (Zpos (Pos.size m)) with (Z.succ (Zpos (Pos.size m) - 1)) in Hle
    by lia.
  rewrite Z.pow_succ_r in Hle by lia. lia.
Qed.

(** A valid finite binary64 value has a mantissa below [2^53], of 53 bits
    unless the exponent is the least one. *)
Lemma valid_binary_bounds (s : bool) (m : positive) (e : Z) :
  valid_binary prec emax (S754_finite s m e) = true ->
  Zpos m < 2 ^ 53 /\ -1074 <= e <= 971 /\ (-1074 < e -> 2 ^ 52 <= Zpos m).
Proof.
  unfold valid_binary, bounded, canonical_mantissa, fexp, SpecFloat.emin,
    prec, emax.
  intros H. apply andb_true_iff in H as [Hc He].
  apply Z.eqb_eq in Hc. apply Z.leb_le in He.
  pose proof (digits2_pos_bounds m) as [Hlo Hhi].
  set (d := Zpos (digits2_pos m)) in *.
  assert (d <= 53) as Hd by lia.
  split.
  - apply Z.lt_le_trans with (1 := Hhi).
    apply Z.pow_le_mono_r; lia.
  - split; [lia|]. intros Hmin.
    assert (d = 53) as Hd53 by lia.
    rewrite Hd53 in Hlo. exact Hlo.
Qed.

(** ** The shortest digits *)

Lemma quarter_num_lt (a b e : Z) : a < b -> quarter_num a e < quarter_num b e.
Proof.
  intros H. unfold quarter_num. destruct (Z.leb_spec 2 e); [|exact H].
  apply Z.mul_lt_mono_pos_r; [apply Z.pow_pos_nonneg; lia | exact H].
Qed.

Lemma lower_lt_value (m e : Z) : lower m e < scaled m e.
Proof.
  unfold lower, scaled. destruct (_ && _); apply quarter_num_lt; lia.
Qed.

Lemma value_lt_upper (m e : Z) : scaled m e < upper m e.
Proof. unfold upper, scaled. apply quarter_num_lt. lia. Qed.

Lemma scale_pos (e : Z) : 0 < scale e.
Proof.
  unfold scale. destruct (Z.leb_spec 2 e); [lia | apply Z.pow_pos_nonneg; lia].
Qed.

(** The number itself rounds to itself. *)
Lemma rounds_to_self (m e v : Z) :
  scaled m e = v * scale e -> rounds_to m e v 0 = true.
Proof.
  intros Hv. unfold rounds_to. cbn [pow10_num pow10_den Z.leb Z.compare].
  change (10 ^ 0) with 1. rewrite !Z.mul_1_r, <- Hv.
  pose proof (lower_lt_value m e). pose proof (value_lt_upper m e).
  destruct (Z.even m); apply andb_true_iff; split;
    (apply Z.leb_le || apply Z.ltb_lt); lia.
Qed.

(** What a candidate is: a neighbour [s] of the number on the grid of
    step [10^(n0 - k)] that rounds to it, written as [1 * 10^n0] when it
    is [10^k]. *)
Lemma candidate_some (m e n0 k s q : Z) :
  candidate m e n0 k = Some (s, q) ->
  let s_lo := (scaled m e * pow10_den (n0 - k))
              / (scale e * pow10_num (n0 - k)) in
  exists s', (s' = s_lo \/ s' = s_lo + 1) /\
             rounds_to m e s' (n0 - k) = true /\
             ((s' <> 10 ^ k /\ s = s' /\ q = n0 - k) \/
              (s' = 10 ^ k /\ s = 1 /\ q = n0)).
Proof.
  unfold candidate. cbv zeta.
  set (s_lo := (scaled m e * pow10_den (n0 - k))
               / (scale e * pow10_num (n0 - k))).
  assert (forall s', (s' = s_lo \/ s' = s_lo + 1) ->
            rounds_to m e s' (n0 - k) = true ->
            (if s' =? 10 ^ k then Some (1, n0) else Some (s', n0 - k))
            = Some (s, q) ->
            exists s', (s' = s_lo \/ s' = s_lo + 1) /\
                       rounds_to m e s' (n0 - k) = true /\
                       ((s' <> 10 ^ k /\ s = s' /\ q = n0 - k) \/
                        (s' = 10 ^ k /\ s = 1 /\ q = n0))) as Hpick.
  { intros s' Hs' Hr H. exists s'. split; [exact Hs'|]. split; [exact Hr|].
    destruct (Z.eqb_spec s' (10 ^ k)); injection H as <- <-; auto. }
  destruct (rounds_to m e s_lo (n0 - k)) eqn:Hlo;
    destruct (rounds_to m e (s_lo + 1) (n0 - k)) eqn:Hhi;
    try discriminate.
  - destruct (_ ?= _); [destruct (Z.even s_lo)| |]; intros H;
      first [apply (Hpick s_lo); (auto || assumption)
            | apply (Hpick (s_lo + 1)); (auto || assumption)].
  - apply Hpick; auto.
  - apply Hpick; auto.
Qed.

(** The loop returns the candidate of the least [k] that has one. *)
Lemma shortest_first (fuel : nat) (m e n0 k k1 : Z) :
  k <= k1 <= k + Z.of_nat fuel ->
  candidate m e n0 k1 <> None ->
  exists k', k <= k' <= k1 /\
             candidate m e n0 k' = Some (shortest fuel m e n0 k).
Proof.
  revert k. induction fuel as [|fuel IH]; intros k Hk Hc.
  - assert (k1 = k) as -> by lia. simpl.
    destruct (candidate m e n0 k) as [r|] eqn:Hck; [|congruence].
    exists k. split; [lia | exact Hck].
  - simpl. destruct (candidate m e n0 k) as [r|] eqn:Hck.
    + exists k. split; [lia | exact Hck].
    + assert (k1 <> k) by congruence.
      destruct (IH (k + 1)) as (k' & Hk' & H'); [lia | exact Hc |].
      exists k'. split; [lia | exact H'].
Qed.

Lemma rounds_to_le_upper (m e s q : Z) :
  rounds_to m e s q = true ->
  s * pow10_num q * scale e <= upper m e * pow10_den q.
Proof.
  unfold rounds_to. cbv zeta.
  destruct (Z.even m); intros H; apply andb_true_iff in H as [_ H];
    [apply Z.leb_le in H | apply Z.ltb_lt in H]; lia.
Qed.

(** No valid binary64 value below [10^21] has [10^21] among the reals
    that round to it. *)
Lemma not_rounds_to_1e21 (m e v k : Z) :
  0 < m < 2 ^ 53 -> (-1074 < e -> 2 ^ 52 <= m) ->
  scaled m e = v * scale e -> v < 10 ^ 21 -> 0 <= k <= 21 ->
  rounds_to m e (10 ^ k) (21 - k) = false.
Proof.
  intros Hm Hnorm Hv Hlt Hk.
  destruct (rounds_to m e (10 ^ k) (21 - k)) eqn:Hr; [exfalso|reflexivity].
  apply rounds_to_le_upper in Hr.
  unfold pow10_num, pow10_den in Hr.
  destruct (Z.leb_spec 0 (21 - k)); [|lia].
  rewrite <- Z.pow_add_r in Hr by lia.
  replace (k + (21 - k)) with 21 in Hr by lia. rewrite Z.mul_1_r in Hr.
  unfold scaled, upper, quarter_num, scale in *.
  destruct (Z.leb_spec 2 e) as [He|He].
  - rewrite Z.mul_1_r in *.
    assert (0 < 2 ^ (e - 2)) as Hp by (apply Z.pow_pos_nonneg; lia).
    assert (2 ^ 52 <= m) as Hm52 by (apply Hnorm; lia).
    destruct (Z.le_gt_cases (e - 2) 14) as [H14|H14].
    + assert (2 ^ (e - 2) <= 2 ^ 14) by (apply Z.pow_le_mono_r; lia).
      change (2 ^ 14) with 16384 in *. change (2 ^ 53) with 9007199254740992 in *.
      change (10 ^ 21) with 1000000000000000000000 in *. nia.
    + destruct (Z.le_gt_cases 16 (e - 2)) as [H16|H16].
      * assert (2 ^ 16 <= 2 ^ (e - 2)) by (apply Z.pow_le_mono_r; lia).
        change (2 ^ 16) with 65536 in *.
        change (2 ^ 52) with 4503599627370496 in *.
        change (10 ^ 21) with 1000000000000000000000 in *. nia.
      * assert (e - 2 = 15) as He15 by lia. rewrite He15 in *.
        change (2 ^ 15) with 32768 in *.
        change (10 ^ 21) with 1000000000000000000000 in *. lia.
  - assert (1 <= 2 ^ (2 - e)) as Hp
        by (pose proof (Z.pow_pos_nonneg 2 (2 - e)); lia).
    change (2 ^ 53) with 9007199254740992 in *.
    change (10 ^ 21) with 1000000000000000000000 in *. nia.
Qed.

Lemma candidate_self (m e v n0 : Z) :
  scaled m e = v * scale e -> candidate m e n0 n0 <> None.
Proof.
  intros Hv. unfold candidate. cbv zeta. rewrite Z.sub_diag.
  cbn [pow10_num pow10_den Z.leb Z.compare]. change (10 ^ 0) with 1.
  rewrite !Z.mul_1_r, Hv, Z.div_mul by (pose proof (scale_pos e); lia).
  rewrite (rounds_to_self m e v Hv).
  repeat match goal with
         | |- context [if ?c then _ else _] => destruct c
         | |- context [match ?c with Eq => _ | Lt => _ | Gt => _ end] =>
             destruct c
         end; discriminate.
Qed.

(** ** The value of printed digits *)

Lemma fold_digits_app (a b : jsstring) (z : Z) :
  fold_left (fun a c => 10 * a + (Z.of_N c - 48)) (a ++ b) z
  = fold_left (fun a c => 10 * a + (Z.of_N c - 48)) b
      (fold_left (fun a c => 10 * a + (Z.of_N c - 48)) a z).
Proof. apply fold_left_app. Qed.

Lemma fold_digits_shift (b : jsstring) (z : Z) :
  fold_left (fun a c => 10 * a + (Z.of_N c - 48)) b z
  = z * 10 ^ Z.of_nat (length b) + digits_value b.
Proof.
  unfold digits_value. revert z. induction b as [|c b IH]; intros z.
  - simpl. lia.
  - cbn [fold_left length]. rewrite IH, (IH (10 * 0 + _)).
    rewrite Nat2Z.inj_succ, Z.pow_succ_r by lia. lia.
Qed.

Lemma digits_value_app (a b : jsstring) :
  digits_value (a ++ b)
  = digits_value a * 10 ^ Z.of_nat (length b) + digits_value b.
Proof.
  unfold digits_value at 1. rewrite fold_digits_app, fold_digits_shift.
  reflexivity.
Qed.

Lemma digits_value_zeros (q : Z) : digits_value (zeros q) = 0.
Proof.
  unfold zeros. induction (Z.to_nat q) as [|n IH]; [reflexivity|].
  change (repeat (digit 0) (S n)) with ([digit 0] ++ repeat (digit 0) n).
  rewrite digits_value_app, IH. reflexivity.
Qed.

Lemma digits_value_digit (n : Z) :
  0 <= n < 10 -> digits_value [digit n] = n.
Proof. intros H. unfold digits_value, digit. cbn [fold_left]. lia. Qed.

Lemma digits_loop_value (fuel : nat) (n : Z) :
  0 <= n < 2 ^ (Z.of_nat fuel + 1) ->
  digits_value (digits_loop fuel n []) = n.
Proof.
  revert n. induction fuel as [|fuel IH]; intros n Hn.
  - simpl in Hn. simpl digits_loop.
    rewrite Z.mod_small by lia. apply digits_value_digit. lia.
  - rewrite digits_loop_succ. destruct (Z.ltb_spec n 10).
    + rewrite Z.mod_small by lia. apply digits_value_digit. lia.
    + pose proof (Z.mod_pos_bound n 10 ltac:(lia)).
      rewrite digits_value_app, digits_value_digit by lia.
      rewrite IH.
      * simpl length. change (10 ^ Z.of_nat 1) with 10.
        pose proof (Z.div_mod n 10 ltac:(lia)). lia.
      * split; [apply Z.div_pos; lia|].
        apply Z.div_lt_upper_bound; [lia|].
        replace (Z.of_nat (S fuel) + 1) with (Z.succ (Z.of_nat fuel + 1))
          in Hn by lia.
        rewrite Z.pow_succ_r in Hn by lia. lia.
Qed.

(** The digits of a number denote it. *)
Lemma decimal_digits_value (n : Z) :
  0 <= n -> digits_value (decimal_digits n) = n.
Proof.
  intros Hn. apply digits_loop_value. split; [exact Hn|].
  destruct (Z.eq_dec n 0) as [->|Hnz]; [reflexivity|].
  rewrite Z2Nat.id by apply Z.log2_nonneg.
  pose proof (Z.log2_spec n ltac:(lia)).
  replace (Z.log2 n + 1) with (Z.succ (Z.log2 n)) by lia. lia.
Qed.

Lemma rounds_to_scale (m e s q : Z) :
  0 <= q -> rounds_to m e s q = rounds_to m e (s * 10 ^ q) 0.
Proof.
  intros Hq. unfold rounds_to, pow10_num, pow10_den.
  destruct (Z.leb_spec 0 q); [|lia]. cbn [Z.leb Z.compare].
  change (10 ^ 0) with 1. rewrite !Z.mul_1_r. reflexivity.
Qed.


(** The digits of an integer below [10^21]: at most as many as the
    exponent, which is at most 21; followed by zeros up to the exponent,
    they denote an integer that rounds to the number. *)
Lemma shortest_digits_integer (m e v : Z) :
  0 < m < 2 ^ 53 -> (-1074 < e -> 2 ^ 52 <= m) ->
  scaled m e = v * scale e -> 1 <= v < 10 ^ 21 ->
  let ds := fst (shortest_digits m e) in
  let n := snd (shortest_digits m e) in
  forallb is_digit ds = true /\ ds <> [] /\
  Z.of_nat (length ds) <= n <= 21 /\
  rounds_to m e
    (digits_value (ds ++ zeros (n - Z.of_nat (length ds)))) 0 = true.
Proof.
  intros Hm Hnorm Hv Hrange. unfold shortest_digits.
  assert (decimal_exponent (scaled m e) (scale e)
          = Z.of_nat (length (decimal_digits v))) as ->.
  { unfold decimal_exponent. rewrite Hv. pose proof (scale_pos e).
    destruct (Z.leb_spec (scale e) (v * scale e)); [|nia].
    rewrite Z.div_mul by lia. reflexivity. }
  set (n0 := length (decimal_digits v)).
  assert (1 <= n0 <= 21)%nat as Hn0.
  { split.
    - pose proof (decimal_digits_nonempty v). unfold n0.
      destruct (decimal_digits v); [congruence | simpl; lia].
    - apply decimal_digits_length_le; [lia | apply Hrange]. }
  pose proof (decimal_digits_length_gt v) as Hgt. fold n0 in Hgt.
  destruct (shortest_first 20 m e (Z.of_nat n0) 1 (Z.of_nat n0))
    as (k & Hk & Hc); [lia | apply (candidate_self m e v), Hv |].
  destruct (shortest 20 m e (Z.of_nat n0) 1) as [s q].
  apply candidate_some in Hc. cbv zeta in Hc.
  destruct Hc as (s' & Hs' & Hr & Hcase). cbn [fst snd].
  split; [apply decimal_digits_digits|].
  split; [apply decimal_digits_nonempty|].
  unfold pow10_den, pow10_num in Hs'.
  destruct (Z.leb_spec 0 (Z.of_nat n0 - k)); [|lia].
  rewrite Z.mul_1_r, Hv in Hs'.
  rewrite (Z.mul_comm v), Z.div_mul_cancel_l in Hs'
    by (pose proof (scale_pos e);
        pose proof (Z.pow_pos_nonneg 10 (Z.of_nat n0 - k)); lia).
  assert (0 <= v / 10 ^ (Z.of_nat n0 - k) < 10 ^ k) as Hlo.
  { split.
    - apply Z.div_pos; [lia | apply Z.pow_pos_nonneg; lia].
    - apply Z.div_lt_upper_bound; [apply Z.pow_pos_nonneg; lia|].
      rewrite <- Z.pow_add_r by lia.
      replace (Z.of_nat n0 - k + k) with (Z.of_nat n0) by lia. exact Hgt. }
  rewrite rounds_to_scale in Hr by lia.
  rewrite digits_value_app, digits_value_zeros, zeros_length, Z.add_0_r.
  destruct Hcase as [(Hne & -> & ->) | (Heq & -> & ->)].
  - assert (length (decimal_digits s') <= Z.to_nat k)%nat.
    { apply decimal_digits_length_le; [lia|].
      rewrite Z2Nat.id by lia. lia. }
    split; [lia|].
    rewrite decimal_digits_value by lia.
    replace (Z.of_nat (length (decimal_digits s')) + (Z.of_nat n0 - k)
             - Z.of_nat (length (decimal_digits s')))
      with (Z.of_nat n0 - k) by lia.
    rewrite Z2Nat.id by lia. exact Hr.
  - change (decimal_digits 1) with [49%N]. cbn [length].
    change (digits_value [49%N]) with 1.
    replace (Z.of_nat 1 + Z.of_nat n0 - Z.of_nat 1) with (Z.of_nat n0) by lia.
    rewrite Nat2Z.id.
    rewrite Heq, <- Z.pow_add_r in Hr by lia.
    replace (k + (Z.of_nat n0 - k)) with (Z.of_nat n0) in Hr by lia.
    rewrite Z.mul_1_l. split; [|exact Hr].
    destruct (Nat.eq_dec n0 21) as [H21|H21]; [exfalso | lia].
    rewrite H21 in Hr. change (Z.of_nat 21) with 21 in Hr.
    assert (rounds_to m e (10 ^ 0) (21 - 0) = false) as Hn
      by (apply (not_rounds_to_1e21 m e v 0); (assumption || lia)).
    rewrite rounds_to_scale in Hn by lia.
    change (10 ^ 0 * 10 ^ (21 - 0)) with (10 ^ 21) in Hn. congruence.
Qed.

Lemma scaled_integer (m : positive) (e : Z) (s : bool) :
  isInteger (S754_finite s m e) = true ->
  exists v, scaled (Zpos m) e = v * scale e /\ 1 <= v /\
            Z.abs (num (S754_finite s m e)) = v * den (S754_finite s m e).
Proof.
  unfold isInteger, num, den, scaled, scale, quarter_num.
  cbn [is_finite andb]. intros H. apply Z.eqb_eq in H.
  destruct (Z.leb_spec 0 e) as [He|He].
  - exists (Zpos m * 2 ^ e).
    assert (0 < 2 ^ e) by (apply Z.pow_pos_nonneg; lia).
    split; [|split; [nia | destruct s; lia]].
    destruct (Z.leb_spec 2 e).
    + replace e with (2 + (e - 2)) at 2 by lia.
      rewrite Z.pow_add_r by lia. lia.
    + assert (e = 0 \/ e = 1) as [-> | ->] by lia;
        [change (2 ^ 0) with 1; change (2 ^ (2 - 0)) with 4
        | change (2 ^ 1) with 2; change (2 ^ (2 - 1)) with 2]; lia.
  - destruct (Z.leb_spec 2 e); [lia|].
    assert (0 < 2 ^ (- e)) as Hp by (apply Z.pow_pos_nonneg; lia).
    assert (Zpos m mod 2 ^ (- e) = 0) as Hmod.
    { destruct s; [|exact H].
      apply Z.mod_divide in H; [|lia]. apply Z.mod_divide; [lia|].
      apply Z.divide_opp_r. exact H. }
    apply Z.mod_divide in Hmod; [|lia]. destruct Hmod as [v Hv].
    exists v. replace (2 - e) with (2 + - e) by lia.
    rewrite Z.pow_add_r by lia.
    split; [rewrite Hv; change (2 ^ 2) with 4; lia|].
    split; [nia | destruct s; lia].
Qed.

Lemma format_digits_integer (ds : jsstring) (n : Z) :
  Z.of_nat (length ds) <= n <= 21 ->
  format_digits ds n = ds ++ zeros (n - Z.of_nat (length ds)).
Proof.
  intros H. unfold format_digits. cbv zeta.
  destruct (Z.leb_spec (Z.of_nat (length ds)) n); [|lia].
  destruct (Z.leb_spec n 21); [reflexivity | lia].
Qed.

Lemma toString_integer_finite (s : bool) (m : positive) (e : Z) :
  valid_binary prec emax (S754_finite s m e) = true ->
  isInteger (S754_finite s m e) = true ->
  below_1e21 (S754_finite s m e) = true ->
  exists int,
    toString (S754_finite s m e) = (if s then js "-" else []) ++ int /\
    int <> [] /\ forallb is_digit int = true /\
    rounds_to (Zpos m) e (digits_value int) 0 = true.
Proof.
  intros Hvalid Hint Hlt.
  apply valid_binary_bounds in Hvalid as (Hm & He & Hnorm).
  destruct (scaled_integer m e s Hint) as (v & Hv & Hv1 & Habs).
  unfold below_1e21 in Hlt. apply Z.ltb_lt in Hlt. rewrite Habs in Hlt.
  assert (0 < den (S754_finite s m e)) as Hden.
  { unfold den. destruct (Z.leb_spec 0 e); [lia|].
    apply Z.pow_pos_nonneg; lia. }
  assert (v < 10 ^ 21) as Hv21 by nia.
  destruct (shortest_digits_integer (Zpos m) e v) as (Hd & Hne & Hn & Hr);
    [lia | exact Hnorm | exact Hv | lia |].
  unfold toString. destruct (shortest_digits (Zpos m) e) as [ds n].
  cbn [fst snd] in *. rewrite (format_digits_integer ds n Hn).
  exists (ds ++ zeros (n - Z.of_nat (length ds))).
  split; [reflexivity|].
  split; [destruct ds; [congruence | discriminate]|].
  split; [|exact Hr].
  rewrite forallb_app, Hd, zeros_digits. reflexivity.
Qed.

(** [String(x)] of an integer below [10^21] in absolute value is a plain
    integer. *)
Lemma toString_integer (x : number) :
  valid_binary prec emax x = true -> isInteger x = true ->
  below_1e21 x = true -> integer_notation (toString x).
Proof.
  intros Hvalid Hint Hlt.
  destruct x as [s|s| |s m e]; try discriminate Hint.
  - exists [], (js "0"). repeat split; (left; reflexivity) || discriminate.
  - destruct (toString_integer_finite s m e Hvalid Hint Hlt)
      as (int & -> & Hne & Hd & _).
    exists (if s then js "-" else []), int.
    split; [reflexivity|].
    split; [destruct s; [right | left]; reflexivity|].
    split; assumption.
Qed.



(** ** Rounding to binary64 *)

Lemma shr_1_inbetween (A B : Z) (mrs : shr_record) :
  0 < B -> 0 <= shr_m mrs ->
  inbetween A B (shr_m mrs) (loc_of_shr_record mrs) ->
  inbetween A (2 * B) (shr_m (shr_1 mrs)) (loc_of_shr_record (shr_1 mrs)) /\
  shr_m (shr_1 mrs) = shr_m mrs / 2 /\ 0 <= shr_m (shr_1 mrs).
Proof.
  intros HB Hm H. destruct mrs as [m r s]. cbn [shr_m] in *.
  destruct m as [|p|p]; [| |lia].
  - change (0 / 2) with 0.
    destruct r, s; cbn [shr_1 shr_m loc_of_shr_record inbetween orb] in *; lia.
  - destruct p as [p|p|].
    + assert (Zpos p~1 / 2 = Zpos p) as Hd
        by (symmetry; apply Z.div_unique with (r := 1); lia).
      cbn [shr_1 shr_m]. rewrite Hd.
      destruct r, s; cbn [shr_1 shr_m loc_of_shr_record inbetween orb] in *; lia.
    + assert (Zpos p~0 / 2 = Zpos p) as Hd
        by (symmetry; apply Z.div_unique with (r := 0); lia).
      cbn [shr_1 shr_m]. rewrite Hd.
      destruct r, s; cbn [shr_1 shr_m loc_of_shr_record inbetween orb] in *; lia.
    + change (1 / 2) with 0.
      destruct r, s; cbn [shr_1 shr_m loc_of_shr_record inbetween orb] in *; lia.
Qed.

Lemma iter_pos_invariant {T} (f : T -> T) (Inv : Z -> T -> Prop) :
  (forall n x, 0 <= n -> Inv n x -> Inv (n + 1) (f x)) ->
  forall p n x, 0 <= n -> Inv n x -> Inv (n + Zpos p) (iter_pos f p x).
Proof.
  intros Hstep. induction p as [p IH|p IH|]; intros n x Hn Hx; cbn [iter_pos].
  - replace (n + Zpos p~1) with (n + 1 + Zpos p + Zpos p) by lia.
    apply IH; [lia|]. apply IH; [lia|]. apply Hstep; assumption.
  - replace (n + Zpos p~0) with (n + Zpos p + Zpos p) by lia.
    apply IH; [lia|]. apply IH; assumption.
  - apply Hstep; assumption.
Qed.

Lemma shr_inbetween (A B : Z) (mrs : shr_record) (p : positive) :
  0 < B -> 0 <= shr_m mrs ->
  inbetween A B (shr_m mrs) (loc_of_shr_record mrs) ->
  let mrs' := iter_pos shr_1 p mrs in
  inbetween A (B * 2 ^ Zpos p) (shr_m mrs') (loc_of_shr_record mrs') /\
  shr_m mrs' = shr_m mrs / 2 ^ Zpos p.
Proof.
  intros HB Hm H.
  pose (Inv := fun n x =>
    0 <= shr_m x /\
    inbetween A (B * 2 ^ n) (shr_m x) (loc_of_shr_record x) /\
    shr_m x = shr_m mrs / 2 ^ n).
  assert (Inv (0 + Zpos p) (iter_pos shr_1 p mrs)) as (_ & H1 & H2).
  { apply iter_pos_invariant; [|lia|].
    - intros n x Hn (Hx0 & Hx1 & Hx2).
      assert (0 < B * 2 ^ n) as HBn
        by (apply Z.mul_pos_pos; [lia | apply Z.pow_pos_nonneg; lia]).
      destruct (shr_1_inbetween A (B * 2 ^ n) x HBn Hx0 Hx1)
        as (Ha & Hb & Hc).
      unfold Inv. rewrite Z.pow_add_r, Z.pow_1_r by lia.
      split; [exact Hc|]. split.
      + replace (B * (2 ^ n * 2)) with (2 * (B * 2 ^ n)) by lia. exact Ha.
      + rewrite Hb, Hx2, Z.div_div by (try apply Z.pow_pos_nonneg; lia).
        reflexivity.
    - unfold Inv. rewrite Z.mul_1_r, Z.div_1_r. auto. }
  split; assumption.
Qed.

Lemma shr_record_of_loc_spec (m : Z) (l : location) :
  shr_m (shr_record_of_loc m l) = m /\
  loc_of_shr_record (shr_record_of_loc m l) = l.
Proof. destruct l as [|[| |]]; split; reflexivity. Qed.

Lemma fexp_unfold (z : Z) : fexp prec emax z = Z.max (z - 53) (-1074).
Proof. reflexivity. Qed.

Lemma Zdigits2_bounds (m : Z) :
  0 < m -> 2 ^ (Zdigits2 m - 1) <= m < 2 ^ Zdigits2 m.
Proof.
  destruct m as [|p|p]; try lia. intros _. apply digits2_pos_bounds.
Qed.

Lemma Zdigits2_nonneg (m : Z) : 0 <= Zdigits2 m.
Proof. destruct m; simpl; lia. Qed.

(** The first shift of [binary_round_aux] brings the mantissa to the
    exponent of the format and keeps track of what it drops. *)
Lemma shr_fexp_spec (mx ex : Z) (lx : location) (A B : Z) :
  0 < B -> 0 <= mx -> inbetween A B mx lx ->
  ex <= fexp prec emax (Zdigits2 mx + ex) ->
  let e1 := fexp prec emax (Zdigits2 mx + ex) in
  exists mrs,
    shr_fexp prec emax mx ex lx = (mrs, e1) /\
    shr_m mrs = mx / 2 ^ (e1 - ex) /\
    inbetween A (B * 2 ^ (e1 - ex)) (shr_m mrs) (loc_of_shr_record mrs).
Proof.
  intros HB Hm H Hp e1. unfold shr_fexp, shr. fold e1.
  destruct (shr_record_of_loc_spec mx lx) as [Hsm Hsl].
  destruct (e1 - ex) as [|p|p] eqn:Hn; [| |lia].
  - exists (shr_record_of_loc mx lx).
    split; [f_equal; lia|].
    rewrite Hsm, Hsl, Z.mul_1_r, Z.div_1_r. auto.
  - exists (iter_pos shr_1 p (shr_record_of_loc mx lx)).
    split; [f_equal; lia|].
    destruct (shr_inbetween A B (shr_record_of_loc mx lx) p HB)
      as [H1 H2]; [rewrite Hsm; exact Hm | rewrite Hsm, Hsl; exact H |].
    rewrite Hsm in H2. split; assumption.
Qed.

(** Rounding to nearest, ties to even, of a located mantissa. *)
Lemma round_nearest_even_spec (A B m : Z) (l : location) :
  0 < B -> inbetween A B m l ->
  let r := round_nearest_even m l in
  m <= r <= m + 1 /\ m * B <= A /\
  (2 * r - 1) * B <= 2 * A <= (2 * r + 1) * B /\
  (Z.even r = false -> (2 * r - 1) * B < 2 * A < (2 * r + 1) * B).
Proof.
  intros HB H r. subst r.
  destruct l as [|[| |]]; cbn [inbetween round_nearest_even] in *.
  - subst A. repeat split; intros; try split; nia.
  - destruct (Z.even m) eqn:He.
    + repeat split; try nia. intros; congruence.
    + assert (Z.even (m + 1) = true) as He1
        by (rewrite Z.even_add, He; reflexivity).
      repeat split; try nia. intros; congruence.
  - repeat split; intros; try split; nia.
  - repeat split; intros; try split; nia.
Qed.

Lemma shr_nonpos (mrs : shr_record) (e n : Z) :
  n <= 0 -> shr mrs e n = (mrs, e).
Proof. intros H. destruct n; (reflexivity || lia). Qed.

Lemma Zdigits2_le (m d : Z) : 0 <= d -> 0 <= m < 2 ^ d -> Zdigits2 m <= d.
Proof.
  intros Hd Hm. destruct (Z.eq_dec m 0) as [->|Hnz]; [exact Hd|].
  pose proof (Zdigits2_bounds m ltac:(lia)) as [Hlo _].
  destruct (Z.le_gt_cases (Zdigits2 m) d) as [|Hgt]; [assumption|].
  assert (2 ^ d <= 2 ^ (Zdigits2 m - 1)) by (apply Z.pow_le_mono_r; lia).
  lia.
Qed.

Lemma shr_carry (e : Z) :
  shr (shr_record_of_loc (2 ^ 53) loc_Exact) e 1
  = ({| shr_m := Zpos (2 ^ 52)%positive; shr_r := false; shr_s := false |},
     e + 1).
Proof. reflexivity. Qed.

(** What [binary_round_aux] returns for a located mantissa that is at
    least as precise as the format: a valid mantissa and exponent, with
    the located real among those that round to them. *)
Lemma binary_round_aux_spec (sx : bool) (mx ex : Z) (lx : location)
  (A B : Z) :
  0 < B -> 0 <= mx -> inbetween A B mx lx ->
  ex <= fexp prec emax (Zdigits2 mx + ex) ->
  let e1 := fexp prec emax (Zdigits2 mx + ex) in
  match binary_round_aux prec emax sx mx ex lx with
  | S754_nan => False
  | S754_zero _ => True
  | S754_infinity _ => 971 < e1 + 1
  | S754_finite s m e =>
      s = sx /\ e1 <= e <= e1 + 1 /\ e <= 971 /\
      Zpos m < 2 ^ 53 /\ (-1074 < e -> 2 ^ 52 <= Zpos m) /\
      near A (B * 2 ^ (e - ex)) (Zpos m) e
  end.
Proof.
  intros HB Hmx Hin Hp e1. unfold binary_round_aux.
  destruct (shr_fexp_spec mx ex lx A B HB Hmx Hin Hp)
    as (mrs & -> & Hm1 & Hin1).
  fold e1 in Hm1, Hin1.
  set (n := e1 - ex) in *. assert (0 <= n) as Hn by (unfold n; lia).
  set (B1 := B * 2 ^ n) in *.
  assert (0 < B1) as HB1
    by (apply Z.mul_pos_pos; [lia | apply Z.pow_pos_nonneg; lia]).
  set (m1 := shr_m mrs) in *.
  assert (-1074 <= e1) as Hemin by (unfold e1; rewrite fexp_unfold; lia).
  assert (0 <= m1 < 2 ^ 53) as Hm1b.
  { rewrite Hm1. split; [apply Z.div_pos; [lia | apply Z.pow_pos_nonneg; lia]|].
    apply Z.div_lt_upper_bound; [apply Z.pow_pos_nonneg; lia|].
    destruct (Z.eq_dec mx 0) as [->|Hnz].
    - apply Z.mul_pos_pos; apply Z.pow_pos_nonneg; lia.
    - pose proof (Zdigits2_bounds mx ltac:(lia)) as [_ Hhi].
      rewrite <- Z.pow_add_r by lia.
      apply Z.lt_le_trans with (1 := Hhi). apply Z.pow_le_mono_r; [lia|].
      unfold n, e1. rewrite fexp_unfold. lia. }
  assert (-1074 < e1 -> 2 ^ 52 <= m1) as Hnorm.
  { intros He1. unfold e1 in He1. rewrite fexp_unfold in He1.
    assert (mx <> 0) as Hnz.
    { intros ->. unfold e1 in Hp. rewrite fexp_unfold in Hp.
      cbn [Zdigits2] in *. lia. }
    pose proof (Zdigits2_bounds mx ltac:(lia)) as [Hlo _].
    assert (n = Zdigits2 mx - 53) as Hn53
      by (unfold n, e1; rewrite fexp_unfold; lia).
    rewrite Hm1. apply Z.div_le_lower_bound; [apply Z.pow_pos_nonneg; lia|].
    rewrite <- Z.pow_add_r by lia.
    replace (n + 52) with (Zdigits2 mx - 1) by lia. exact Hlo. }
  destruct (round_nearest_even_spec A B1 m1 (loc_of_shr_record mrs) HB1 Hin1)
    as (Hr & HmA & Hnear & Hodd).
  set (r := round_nearest_even m1 (loc_of_shr_record mrs)) in *.
  unfold shr_fexp. fold e1.
  destruct (Z.eq_dec r (2 ^ 53)) as [Hr53|Hr53].
  - rewrite Hr53.
    assert (fexp prec emax (Zdigits2 (2 ^ 53) + e1) - e1 = 1) as ->
      by (rewrite fexp_unfold; change (Zdigits2 (2 ^ 53)) with 54; lia).
    rewrite shr_carry. cbn [shr_m]. cbv iota beta.
    change emax with 1024. change prec with 53.
    destruct (Z.leb_spec (e1 + 1) (1024 - 53)); [|lia].
    split; [reflexivity|]. split; [lia|]. split; [lia|].
    split; [reflexivity|]. split; [intros _; reflexivity|].
    unfold near.
    change (Zpos (2 ^ 52)%positive =? 2 ^ (prec - 1)) with true.
    change (Z.even (Zpos (2 ^ 52)%positive)) with true.
    destruct (Z.ltb_spec (3 - emax - prec) (e1 + 1)) as [_|Hbad];
      [|change (3 - emax - prec) with (-1074) in Hbad; lia].
    cbn [andb].
    replace (e1 + 1 - ex) with (n + 1) by (unfold n; lia).
    rewrite Z.pow_add_r, Z.pow_1_r by lia.
    fold B1. rewrite Hr53 in Hnear.
    change (Zpos (2 ^ 52)%positive) with 4503599627370496.
    change (2 ^ 53) with 9007199254740992 in Hnear. nia.
  - assert (fexp prec emax (Zdigits2 r + e1) - e1 <= 0) as Hn2.
    { rewrite fexp_unfold.
      pose proof (Zdigits2_le r 53 ltac:(lia) ltac:(lia)). lia. }
    rewrite (shr_nonpos _ _ _ Hn2). cbn [shr_record_of_loc shr_m].
    destruct r as [|p|p] eqn:Hrp; [exact I | | lia].
    change emax with 1024. change prec with 53.
    destruct (Z.leb_spec e1 (1024 - 53)); [|lia].
    split; [reflexivity|]. split; [lia|]. split; [lia|].
    split; [lia|]. split; [intros He; specialize (Hnorm He); lia|].
    unfold near. fold n. fold B1.
    destruct ((Zpos p =? 2 ^ (prec - 1)) && (3 - emax - prec <? e1)) eqn:Hc.
    + apply andb_true_iff in Hc as [Hc1 Hc2].
      apply Z.eqb_eq in Hc1. apply Z.ltb_lt in Hc2.
      change (2 ^ (prec - 1)) with (2 ^ 52) in Hc1.
      change (3 - emax - prec) with (-1074) in Hc2.
      specialize (Hnorm Hc2). assert (m1 = Zpos p) as Hm1p by lia.
      rewrite Hc1. change (Z.even (2 ^ 52)) with true. cbv iota.
      rewrite Hm1p, Hc1 in HmA. rewrite Hc1 in Hnear.
      change (2 ^ 52) with 4503599627370496 in *. nia.
    + destruct (Z.even (Zpos p)) eqn:Hev; [nia|].
      specialize (Hodd eq_refl). nia.
Qed.

Lemma rounds_to_in_interval (m e s q : Z) :
  rounds_to m e s q = in_interval m e (s * pow10_num q) (pow10_den q).
Proof. reflexivity. Qed.

Lemma near_cross (A B A' B' m e : Z) :
  0 < B -> 0 < B' -> A * B' = A' * B -> near A B m e -> near A' B' m e.
Proof.
  intros HB HB' Hx. unfold near. cbv zeta.
  set (c := if _ && _ then 1 else 2). clearbody c.
  assert (forall K, K * B <= 4 * A -> K * B' <= 4 * A') as Hle1.
  { intros K H. apply (Z.mul_le_mono_pos_r _ _ B HB).
    replace (K * B' * B) with (K * B * B') by lia.
    replace (4 * A' * B) with (4 * A * B') by lia.
    apply Z.mul_le_mono_nonneg_r; lia. }
  assert (forall K, 4 * A <= K * B -> 4 * A' <= K * B') as Hle2.
  { intros K H. apply (Z.mul_le_mono_pos_r _ _ B HB).
    replace (K * B' * B) with (K * B * B') by lia.
    replace (4 * A' * B) with (4 * A * B') by lia.
    apply Z.mul_le_mono_nonneg_r; lia. }
  assert (forall K, K * B < 4 * A -> K * B' < 4 * A') as Hlt1.
  { intros K H. apply (Z.mul_lt_mono_pos_r B _ _ HB).
    replace (K * B' * B) with (K * B * B') by lia.
    replace (4 * A' * B) with (4 * A * B') by lia.
    apply Z.mul_lt_mono_pos_r; lia. }
  assert (forall K, 4 * A < K * B -> 4 * A' < K * B') as Hlt2.
  { intros K H. apply (Z.mul_lt_mono_pos_r B _ _ HB).
    replace (K * B' * B) with (K * B * B') by lia.
    replace (4 * A' * B) with (4 * A * B') by lia.
    apply Z.mul_lt_mono_pos_r; lia. }
  destruct (Z.even m); intros [H1 H2]; split; auto.
Qed.

(** [near] at the fraction of [N / D] in units of [2^e] is membership in
    the rounding interval. *)
Lemma near_in_interval (m e N D : Z) :
  0 < D -> near (rep_num N e) (rep_den D e) m e -> in_interval m e N D = true.
Proof.
  intros HD. unfold near, in_interval, lower, upper, quarter_num, scale,
    rep_num, rep_den. cbv zeta.
  set (c := if _ && _ then 1 else 2).
  assert (quarter_c :
    (if (m =? 2 ^ (prec - 1)) && (3 - emax - prec <? e)
     then if 2 <=? e then (4 * m - 1) * 2 ^ (e - 2) else 4 * m - 1
     else if 2 <=? e then (4 * m - 2) * 2 ^ (e - 2) else 4 * m - 2)
    = if 2 <=? e then (4 * m - c) * 2 ^ (e - 2) else 4 * m - c).
  { unfold c. destruct (_ && _); reflexivity. }
  rewrite quarter_c. clearbody c. clear quarter_c.
  destruct (Z.leb_spec 2 e) as [He2|He2].
  - destruct (Z.leb_spec 0 e); [|lia].
    assert (0 < 2 ^ (e - 2)) as Hp by (apply Z.pow_pos_nonneg; lia).
    replace (2 ^ e) with (4 * 2 ^ (e - 2))
      by (change 4 with (2 ^ 2); rewrite <- Z.pow_add_r by lia;
          f_equal; lia).
    set (P := 2 ^ (e - 2)) in *. rewrite Z.mul_1_r.
    destruct (Z.even m); intros [H1 H2]; apply andb_true_iff; split;
      (apply Z.leb_le || apply Z.ltb_lt); nia.
  - destruct (Z.leb_spec 0 e) as [He0|He0].
    + assert (e = 0 \/ e = 1) as [-> | ->] by lia;
        [change (2 ^ (2 - 0)) with 4; change (2 ^ 0) with 1
        | change (2 ^ (2 - 1)) with 2; change (2 ^ 1) with 2];
        destruct (Z.even m); intros [H1 H2]; apply andb_true_iff; split;
          (apply Z.leb_le || apply Z.ltb_lt); nia.
    + assert (0 < 2 ^ (- e)) as Hp by (apply Z.pow_pos_nonneg; lia).
      replace (2 ^ (2 - e)) with (4 * 2 ^ (- e))
        by (change 4 with (2 ^ 2); rewrite <- Z.pow_add_r by lia;
            f_equal; lia).
      set (P := 2 ^ (- e)) in *.
      destruct (Z.even m); intros [H1 H2]; apply andb_true_iff; split;
        (apply Z.leb_le || apply Z.ltb_lt); nia.
Qed.

Lemma Zdigits2_unique (m d : Z) :
  2 ^ (d - 1) <= m < 2 ^ d -> 0 < d -> Zdigits2 m = d.
Proof.
  intros [Hlo Hhi] Hd.
  assert (0 < m) as Hm
    by (pose proof (Z.pow_pos_nonneg 2 (d - 1)); lia).
  pose proof (Zdigits2_bounds m Hm) as [Hlo' Hhi'].
  pose proof (Zdigits2_nonneg m).
  destruct (Z.lt_trichotomy (Zdigits2 m) d) as [Hlt|[Heq|Hgt]];
    [exfalso | exact Heq | exfalso].
  - assert (2 ^ Zdigits2 m <= 2 ^ (d - 1)) by (apply Z.pow_le_mono_r; lia).
    lia.
  - assert (2 ^ d <= 2 ^ (Zdigits2 m - 1)) by (apply Z.pow_le_mono_r; lia).
    lia.
Qed.

Lemma ten_thousand_eq :
  ten_thousand = S754_finite false 5497558138880000 (-39).
Proof. reflexivity. Qed.

(** The product of a valid number that is no integer with 10000 is zero
    or finite, below [2^67]. *)
Lemma mul_ten_thousand (s : bool) (m : positive) (e : Z) :
  valid_binary prec emax (S754_finite s m e) = true -> e < 0 ->
  match mul (S754_finite s m e) ten_thousand with
  | S754_zero _ => True
  | S754_finite sw mw ew =>
      sw = s /\ Zpos mw < 2 ^ 53 /\ -1074 <= ew <= 14
  | _ => False
  end.
Proof.
  intros Hvalid He. apply valid_binary_bounds in Hvalid as (Hm & Hrange & _).
  rewrite ten_thousand_eq. unfold mul, SFmul.
  set (mt := 5497558138880000%positive).
  assert (2 ^ 52 <= Zpos (m * mt) < 2 ^ 106) as Hprod.
  { rewrite Pos2Z.inj_mul. unfold mt.
    change (2 ^ 52) with 4503599627370496.
    change (2 ^ 106) with (9007199254740992 * 9007199254740992).
    change (2 ^ 53) with 9007199254740992 in Hm. nia. }
  pose proof (Zdigits2_bounds (Zpos (m * mt)) ltac:(lia)) as [Hdlo Hdhi].
  assert (53 <= Zdigits2 (Zpos (m * mt)) <= 106) as Hd.
  { split.
    - destruct (Z.le_gt_cases 53 (Zdigits2 (Zpos (m * mt)))); [assumption|].
      assert (2 ^ Zdigits2 (Zpos (m * mt)) <= 2 ^ 52)
        by (apply Z.pow_le_mono_r; lia).
      lia.
    - apply Zdigits2_le; lia. }
  pose proof (binary_round_aux_spec (xorb s false) (Zpos (m * mt)) (e + -39)
                loc_Exact (Zpos (m * mt)) 1 ltac:(lia) ltac:(lia)
                ltac:(cbn [inbetween]; lia)) as Hspec.
  rewrite fexp_unfold in Hspec. cbv zeta in Hspec.
  specialize (Hspec ltac:(lia)).
  destruct (binary_round_aux prec emax (xorb s false) (Zpos (m * mt)) (e + -39)
              loc_Exact) as [sw|sw| |sw mw ew].
  - exact I.
  - lia.
  - exact Hspec.
  - destruct Hspec as (-> & He1 & _ & Hmw & _).
    split; [destruct s; reflexivity|]. split; [exact Hmw | lia].
Qed.

Lemma pos_iter_xO (p n : positive) :
  Zpos (Pos.iter xO p n) = Zpos p * 2 ^ Zpos n.
Proof.
  induction n as [|n IH] using Pos.peano_ind.
  - cbn [Pos.iter]. lia.
  - rewrite Pos.iter_succ, Pos2Z.inj_succ, Z.pow_succ_r by lia.
    rewrite Pos2Z.inj_xO, IH. lia.
Qed.

Lemma binary_round_aux_canonical (s : bool) (m : positive) (e : Z) :
  Zdigits2 (Zpos m) = 53 -> -1074 <= e <= 971 ->
  binary_round_aux prec emax s (Zpos m) e loc_Exact = S754_finite s m e.
Proof.
  intros Hd He. unfold binary_round_aux, shr_fexp.
  assert (fexp prec emax (Zdigits2 (Zpos m) + e) - e = 0) as Hz
    by (rewrite fexp_unfold, Hd; lia).
  rewrite Hz. cbn [shr shr_record_of_loc shr_m loc_of_shr_record
                     round_nearest_even].
  rewrite Hz. cbn [shr shr_m].
  change emax with 1024. change prec with 53.
  destruct (Z.leb_spec e (1024 - 53)); [reflexivity | lia].
Qed.

(** A positive integer below [2^53] is a binary64 value. *)
Lemma binary_round_exact (s : bool) (p : positive) :
  Zpos p < 2 ^ 53 ->
  exists mk ek,
    binary_round prec emax s p 0 = S754_finite s mk ek /\
    -52 <= ek <= 0 /\ Zpos mk = Zpos p * 2 ^ (- ek) /\
    2 ^ 52 <= Zpos mk < 2 ^ 53.
Proof.
  intros Hp. unfold binary_round.
  pose proof (digits2_pos_bounds p) as [Hlo Hhi].
  set (dp := Zpos (digits2_pos p)) in *.
  assert (1 <= dp <= 53) as Hdp.
  { split; [unfold dp; lia|].
    change dp with (Zdigits2 (Zpos p)). apply Zdigits2_le; lia. }
  assert (fexp prec emax (dp + 0) = dp - 53) as ->
    by (rewrite fexp_unfold; lia).
  unfold shl_align.
  destruct (dp - 53 - 0) as [|d|d] eqn:Hsub; [| lia |].
  - exists p, 0. rewrite binary_round_aux_canonical;
      [|change (Zdigits2 (Zpos p)) with dp; lia | lia].
    split; [reflexivity|]. split; [lia|].
    split; [change (2 ^ (- 0)) with 1; lia|].
    split; [|exact Hp]. replace (dp - 1) with 52 in Hlo by lia. exact Hlo.
  - assert (Zpos d = 53 - dp) as Hd by lia.
    assert (Zpos (Pos.iter xO p d) = Zpos p * 2 ^ (53 - dp)) as Hmz
      by (rewrite pos_iter_xO, Hd; reflexivity).
    assert (2 ^ 52 <= Zpos (Pos.iter xO p d) < 2 ^ 53) as Hb.
    { rewrite Hmz.
      replace (2 ^ 52) with (2 ^ (dp - 1) * 2 ^ (53 - dp))
        by (rewrite <- Z.pow_add_r by lia; f_equal; lia).
      replace (2 ^ 53) with (2 ^ dp * 2 ^ (53 - dp))
        by (rewrite <- Z.pow_add_r by lia; f_equal; lia).
      assert (0 < 2 ^ (53 - dp)) by (apply Z.pow_pos_nonneg; lia).
      split; [apply Z.mul_le_mono_nonneg_r | apply Z.mul_lt_mono_pos_r];
        lia. }
    exists (Pos.iter xO p d), (dp - 53).
    rewrite binary_round_aux_canonical;
      [| apply Zdigits2_unique; [exact Hb | lia] | lia].
    split; [reflexivity|]. split; [lia|].
    split; [rewrite Hmz; f_equal; f_equal; lia | exact Hb].
Qed.

(** [Math.round] of a finite number below [2^67] with a 53-bit mantissa
    is zero or a finite integer [r]: its mantissa and exponent satisfy
    [mk * 2^ek = r]. *)
Lemma round_integer (s : bool) (m : positive) (e : Z) :
  Zpos m < 2 ^ 53 -> e <= 14 ->
  match round (S754_finite s m e) with
  | S754_zero _ => True
  | S754_finite sk mk ek =>
      exists r, 1 <= r < 2 ^ 67 /\ -52 <= ek <= 14 /\
                Zpos mk * 2 ^ (ek + 52) = r * 2 ^ 52 /\ Zpos mk < 2 ^ 53
  | _ => False
  end.
Proof.
  intros Hm He. unfold round.
  destruct (Z.leb_spec 0 e) as [He0|He0].
  - exists (Zpos m * 2 ^ e).
    assert (0 < 2 ^ e <= 2 ^ 14) as Hp
      by (split; [apply Z.pow_pos_nonneg | apply Z.pow_le_mono_r]; lia).
    split.
    + change (2 ^ 67) with (2 ^ 53 * 2 ^ 14).
      change (2 ^ 14) with 16384 in *.
      change (2 ^ 53) with 9007199254740992 in *. nia.
    + split; [lia|]. split; [|exact Hm].
      rewrite Z.pow_add_r by lia. lia.
  - set (d := den (S754_finite s m e)).
    set (n := num (S754_finite s m e)).
    assert (2 <= d) as Hd.
    { unfold d, den. destruct (Z.leb_spec 0 e); [lia|].
      change 2 with (2 ^ 1). apply Z.pow_le_mono_r; lia. }
    assert (Z.abs n = Zpos m) as Hn.
    { unfold n, num. destruct (Z.leb_spec 0 e); [lia|]. destruct s; lia. }
    set (z := (2 * n + d) / (2 * d)).
    assert (Z.abs z < 2 ^ 53) as Hz.
    { change (2 ^ 53) with 9007199254740992 in *.
      assert (- 9007199254740992 < z < 9007199254740992); [|lia].
      unfold z. split.
      - apply Z.lt_le_trans with (m := - 9007199254740992 + 1); [lia|].
        apply Z.div_le_lower_bound; lia.
      - apply Z.div_lt_upper_bound; lia. }
    destruct (Z.eqb_spec z 0) as [Hz0|Hz0]; [exact I|].
    unfold binary_normalize.
    destruct z as [|p|p]; [congruence | |].
    + destruct (binary_round_exact false p) as (mk & ek & -> & Hek & Hmk & Hb);
        [lia|].
      exists (Zpos p). split; [change (2 ^ 67) with (2 ^ 53 * 2 ^ 14);
                               change (2 ^ 53) with 9007199254740992 in *;
                               lia|].
      split; [lia|]. split; [|lia].
      rewrite Hmk, <- Z.mul_assoc, <- Z.pow_add_r by lia.
      f_equal. f_equal. lia.
    + destruct (binary_round_exact true p) as (mk & ek & -> & Hek & Hmk & Hb);
        [change (Z.abs (Zneg p)) with (Zpos p) in Hz; lia|].
      exists (Zpos p). split; [change (Z.abs (Zneg p)) with (Zpos p) in Hz;
                               change (2 ^ 67) with (2 ^ 53 * 2 ^ 14);
                               change (2 ^ 53) with 9007199254740992 in *;
                               lia|].
      split; [lia|]. split; [|lia].
      rewrite Hmk, <- Z.mul_assoc, <- Z.pow_add_r by lia.
      f_equal. f_equal. lia.
Qed.

Lemma new_location_inbetween (A q rem : Z) :
  let mt := 5497558138880000 in
  A = mt * q + rem -> 0 <= rem < mt ->
  inbetween A mt q (new_location mt rem).
Proof.
  intros mt HA Hrem. unfold new_location.
  change (Z.even mt) with true. cbv iota. unfold new_location_even.
  destruct (Z.eqb_spec rem 0) as [->|Hnz]; [cbn [inbetween]; lia|].
  destruct (Z.compare_spec (2 * rem) mt); cbn [inbetween]; lia.
Qed.

(** The quotient of a finite integer [r] below [2^67] by 10000 is zero or
    a valid finite number that [r / 10^4] rounds to. *)
Lemma div_ten_thousand (sk : bool) (mk : positive) (ek r : Z) :
  1 <= r < 2 ^ 67 -> -52 <= ek <= 14 ->
  Zpos mk * 2 ^ (ek + 52) = r * 2 ^ 52 -> Zpos mk < 2 ^ 53 ->
  match div (S754_finite sk mk ek) ten_thousand with
  | S754_zero _ => True
  | S754_finite sd md ed =>
      Zpos md < 2 ^ 53 /\ (-1074 < ed -> 2 ^ 52 <= Zpos md) /\
      -1074 <= ed <= 3 /\ in_interval (Zpos md) ed r (10 ^ 4) = true
  | _ => False
  end.
Proof.
  intros Hr Hek Hval Hmk. rewrite ten_thousand_eq.
  unfold div, SFdiv, SFdiv_core_binary.
  set (mt := 5497558138880000).
  change (Zdigits2 mt) with 53.
  set (d1 := Zdigits2 (Zpos mk)).
  pose proof (Zdigits2_bounds (Zpos mk) ltac:(lia)) as [Hdlo Hdhi].
  fold d1 in Hdlo, Hdhi.
  assert (1 <= d1 <= 53) as Hd1.
  { split; [unfold d1; cbn [Zdigits2]; lia | apply Zdigits2_le; lia]. }
  assert (1 <= d1 + ek <= 67) as Hmag.
  { assert (0 < 2 ^ (ek + 52)) by (apply Z.pow_pos_nonneg; lia).
    split.
    - destruct (Z.le_gt_cases 1 (d1 + ek)); [assumption | exfalso].
      assert (2 ^ (d1 + (ek + 52)) <= 2 ^ 52)
        by (apply Z.pow_le_mono_r; lia).
      rewrite Z.pow_add_r in * by lia. nia.
    - destruct (Z.le_gt_cases (d1 + ek) 67); [assumption | exfalso].
      assert (2 ^ 119 <= 2 ^ ((d1 - 1) + (ek + 52)))
        by (apply Z.pow_le_mono_r; lia).
      rewrite Z.pow_add_r in * by lia.
      change (2 ^ 119) with (2 ^ 67 * 2 ^ 52) in *.
      assert (0 < 2 ^ 52) by reflexivity. nia. }
  assert (Z.min (fexp prec emax (d1 + ek - (53 + -39))) (ek - -39)
          = d1 + ek - 67) as ->
    by (rewrite fexp_unfold; lia).
  set (e' := d1 + ek - 67).
  assert (ek - -39 - e' = 106 - d1) as -> by (unfold e'; lia).
  set (s := 106 - d1).
  assert (match s with
          | 0 => Zpos mk
          | Zpos _ => Z.shiftl (Zpos mk) s
          | Zneg _ => 0
          end = Zpos mk * 2 ^ s) as ->.
  { destruct s eqn:Hs; [unfold s in Hs; lia | | unfold s in Hs; lia].
    rewrite Z.shiftl_mul_pow2 by lia. reflexivity. }
  set (m' := Zpos mk * 2 ^ s).
  assert (2 ^ 105 <= m' < 2 ^ 106) as Hm'.
  { unfold m'.
    replace (2 ^ 105) with (2 ^ (d1 - 1) * 2 ^ s)
      by (rewrite <- Z.pow_add_r by (unfold s; lia); f_equal; unfold s; lia).
    replace (2 ^ 106) with (2 ^ d1 * 2 ^ s)
      by (rewrite <- Z.pow_add_r by (unfold s; lia); f_equal; unfold s; lia).
    assert (0 < 2 ^ s) by (apply Z.pow_pos_nonneg; unfold s; lia).
    split; [apply Z.mul_le_mono_nonneg_r | apply Z.mul_lt_mono_pos_r]; lia. }
  pose proof (Z_div_mod m' mt ltac:(reflexivity)) as Hdm.
  destruct (Z.div_eucl m' mt) as [q rem]. destruct Hdm as [Hq Hrem].
  assert (2 ^ 52 <= q < 2 ^ 54) as Hqb.
  { unfold mt in *. change (2 ^ 105) with (2 ^ 52 * 2 ^ 53) in Hm'.
    change (2 ^ 106) with (2 ^ 54 * 2 ^ 52) in Hm'.
    change (2 ^ 52) with 4503599627370496 in *.
    change (2 ^ 53) with 9007199254740992 in *.
    change (2 ^ 54) with 18014398509481984 in *. nia. }
  assert (53 <= Zdigits2 q <= 54) as Hdq.
  { split.
    - pose proof (Zdigits2_bounds q ltac:(lia)) as [_ Hhi].
      destruct (Z.le_gt_cases 53 (Zdigits2 q)); [assumption|].
      assert (2 ^ Zdigits2 q <= 2 ^ 52) by (apply Z.pow_le_mono_r; lia).
      lia.
    - apply Zdigits2_le; lia. }
  pose proof (binary_round_aux_spec (xorb sk false) q e'
                (new_location mt rem) m' mt ltac:(reflexivity) ltac:(lia)
                (new_location_inbetween m' q rem Hq ltac:(lia))) as Hspec.
  rewrite fexp_unfold in Hspec. cbv zeta in Hspec.
  specialize (Hspec ltac:(unfold e'; lia)).
  destruct (binary_round_aux prec emax (xorb sk false) q e'
              (new_location mt rem)) as [sd|sd| |sd md ed].
  - exact I.
  - unfold e' in Hspec. lia.
  - exact Hspec.
  - destruct Hspec as (_ & He1 & _ & Hmd & Hnorm & Hnear).
    split; [exact Hmd|]. split; [exact Hnorm|].
    split; [unfold e' in He1; lia|].
    apply near_in_interval; [reflexivity|].
    assert (0 <= ed - e') as Hde by (unfold e' in *; lia).
    assert (0 < 2 ^ (ed - e')) by (apply Z.pow_pos_nonneg; lia).
    apply (near_cross m' (mt * 2 ^ (ed - e'))); [nia | | | exact Hnear].
    + unfold rep_den. destruct (Z.leb_spec 0 ed); [|reflexivity].
      apply Z.mul_pos_pos; [reflexivity | apply Z.pow_pos_nonneg; lia].
    + apply (Z.mul_cancel_r _ _ (2 ^ 52)); [discriminate|].
      assert (2 ^ s * 2 ^ 52 = 2 ^ (ek + 52) * 2 ^ (39 - e')) as Hs.
      { rewrite <- !Z.pow_add_r by (unfold s, e'; lia).
        f_equal. unfold s, e'. lia. }
      assert (m' * 2 ^ 52 = r * 2 ^ 52 * 2 ^ (39 - e')) as Hm'r.
      { unfold m'. rewrite <- Hval, <- !Z.mul_assoc, Hs. reflexivity. }
      unfold rep_num, rep_den. change mt with (10 ^ 4 * 2 ^ 39).
      destruct (Z.leb_spec 0 ed).
      * assert (2 ^ (39 - e') * 2 ^ ed = 2 ^ 39 * 2 ^ (ed - e')) as Hp.
        { rewrite <- !Z.pow_add_r by (unfold e' in *; lia). f_equal. lia. }
        transitivity (m' * 2 ^ 52 * (10 ^ 4 * 2 ^ ed)); [ring|].
        rewrite Hm'r.
        transitivity (r * 2 ^ 52 * 10 ^ 4 * (2 ^ (39 - e') * 2 ^ ed)); [ring|].
        rewrite Hp. ring.
      * assert (2 ^ (39 - e') = 2 ^ (- ed) * (2 ^ 39 * 2 ^ (ed - e'))) as Hp.
        { rewrite <- !Z.pow_add_r by (unfold e' in *; lia). f_equal. lia. }
        transitivity (m' * 2 ^ 52 * 10 ^ 4); [ring|].
        rewrite Hm'r, Hp. ring.
Qed.

(** ** The decimal exponent *)

Lemma digits_loop_length_ge (fuel : nat) (n : Z) :
  1 <= n -> 10 ^ (Z.of_nat (length (digits_loop fuel n [])) - 1) <= n.
Proof.
  revert n. induction fuel as [|fuel IH]; intros n Hn; [simpl; lia|].
  rewrite digits_loop_succ. destruct (Z.ltb_spec n 10); [simpl; lia|].
  rewrite length_app. simpl length.
  replace (Z.of_nat (length (digits_loop fuel (n / 10) []) + 1) - 1)
    with (Z.succ (Z.of_nat (length (digits_loop fuel (n / 10) [])) - 1))
    by lia.
  assert (1 <= n / 10) as Hq by (apply Z.div_le_lower_bound; lia).
  pose proof (digits_loop_nonempty fuel (n / 10)) as Hne.
  rewrite Z.pow_succ_r
    by (destruct (digits_loop fuel (n / 10) []); [congruence | cbn [length]; lia]).
  specialize (IH (n / 10) Hq).
  pose proof (Z.mul_div_le n 10 ltac:(lia)). lia.
Qed.

Lemma decimal_digits_length_ge (n : Z) :
  1 <= n -> 10 ^ (Z.of_nat (length (decimal_digits n)) - 1) <= n.
Proof. apply digits_loop_length_ge. Qed.

Lemma pow10_pos (q : Z) : 0 < pow10_num q /\ 0 < pow10_den q.
Proof.
  unfold pow10_num, pow10_den.
  destruct (Z.leb_spec 0 q); split; try lia; apply Z.pow_pos_nonneg; lia.
Qed.

(** [a / b < 10^n] for the decimal exponent [n] of [a / b]. *)
Lemma decimal_exponent_upper (a b : Z) :
  0 < a -> 0 < b ->
  a * pow10_den (decimal_exponent a b) < b * pow10_num (decimal_exponent a b).
Proof.
  intros Ha Hb. unfold decimal_exponent.
  destruct (Z.leb_spec b a) as [Hba|Hba].
  - set (n := length (decimal_digits (a / b))).
    pose proof (decimal_digits_length_gt (a / b)) as Hgt. fold n in Hgt.
    unfold pow10_den, pow10_num. destruct (Z.leb_spec 0 (Z.of_nat n)); [|lia].
    pose proof (Z.mul_succ_div_gt a b Hb). nia.
  - assert (1 <= (b - 1) / a) as Hq by (apply Z.div_le_lower_bound; lia).
    pose proof (decimal_digits_length_ge ((b - 1) / a) Hq) as Hge.
    set (t := Z.of_nat (length (decimal_digits ((b - 1) / a)))) in *.
    assert (1 <= t).
    { pose proof (decimal_digits_nonempty ((b - 1) / a)). unfold t.
      destruct (decimal_digits ((b - 1) / a)); [congruence | cbn [length]; lia]. }
    unfold pow10_den, pow10_num.
    destruct (Z.leb_spec 0 (1 - t)).
    + assert (t = 1) as Ht by lia. rewrite Ht. change (10 ^ (1 - 1)) with 1. lia.
    + replace (- (1 - t)) with (t - 1) by lia.
      pose proof (Z.mul_div_le (b - 1) a Ha).
      assert (0 < 10 ^ (t - 1)) by (apply Z.pow_pos_nonneg; lia). nia.
Qed.

Lemma decimal_exponent_range (a b : Z) :
  0 < a -> 0 < b -> b <= 10 ^ 4 * a -> a < 10 ^ 17 * b ->
  -3 <= decimal_exponent a b <= 17.
Proof.
  intros Ha Hb Hlo Hhi. unfold decimal_exponent.
  destruct (Z.leb_spec b a) as [Hba|Hba].
  - assert (length (decimal_digits (a / b)) <= 17)%nat.
    { apply decimal_digits_length_le; [lia|].
      apply Z.div_lt_upper_bound; [lia|]. change (Z.of_nat 17) with 17. lia. }
    lia.
  - assert (length (decimal_digits ((b - 1) / a)) <= 4)%nat.
    { apply decimal_digits_length_le; [lia|].
      apply Z.div_lt_upper_bound; [lia|]. change (Z.of_nat 4) with 4. lia. }
    pose proof (decimal_digits_nonempty ((b - 1) / a)).
    destruct (decimal_digits ((b - 1) / a)); [congruence | cbn [length] in *; lia].
Qed.

(** ** Shortest digits of a number next to the grid of step [10^-4] *)

Lemma pow10_shift (q k : Z) :
  0 <= k ->
  pow10_num (q + k) * pow10_den q = 10 ^ k * pow10_num q * pow10_den (q + k).
Proof.
  intros Hk. unfold pow10_num, pow10_den.
  destruct (Z.leb_spec 0 q), (Z.leb_spec 0 (q + k)); try lia.
  - rewrite Z.pow_add_r by lia. ring.
  - rewrite <- Z.pow_add_r by lia. replace (q + k + - q) with k by lia. ring.
  - replace (- q) with (k + - (q + k)) by lia.
    rewrite Z.pow_add_r by lia. ring.
Qed.

(** When some multiple of [10^-4] rounds to the number, one of its two
    neighbours on that grid does. *)
Lemma candidate_grid (m e r n0 : Z) :
  rounds_to m e r (-4) = true -> candidate m e n0 (n0 + 4) <> None.
Proof.
  intros Hr. unfold candidate. cbv zeta.
  replace (n0 - (n0 + 4)) with (-4) by lia.
  set (s_lo := scaled m e * pow10_den (-4) / (scale e * pow10_num (-4))).
  assert (rounds_to m e s_lo (-4) = true \/
          rounds_to m e (s_lo + 1) (-4) = true) as Hnear.
  { pose proof (scale_pos e) as Hs.
    pose proof (lower_lt_value m e) as Hl.
    pose proof (value_lt_upper m e) as Hu.
    assert (s_lo * scale e <= scaled m e * 10 ^ 4 < (s_lo + 1) * scale e)
      as Hdiv.
    { unfold s_lo. change (pow10_den (-4)) with (10 ^ 4).
      change (pow10_num (-4)) with 1. rewrite Z.mul_1_r.
      pose proof (Z.mul_div_le (scaled m e * 10 ^ 4) (scale e) Hs).
      pose proof (Z.mul_succ_div_gt (scaled m e * 10 ^ 4) (scale e) Hs).
      lia. }
    revert Hr. unfold rounds_to. cbv zeta.
    change (pow10_den (-4)) with (10 ^ 4). change (pow10_num (-4)) with 1.
    rewrite !Z.mul_1_r. change (10 ^ 4) with 10000 in *.
    destruct (Z.le_gt_cases r s_lo) as [Hle|Hgt].
    - intros Hr. left.
      assert (r * scale e <= s_lo * scale e) by nia.
      destruct (Z.even m); apply andb_true_iff in Hr as [H1 H2];
        apply andb_true_iff; split;
        rewrite ?Z.leb_le, ?Z.ltb_lt in *; lia.
    - intros Hr. right.
      assert ((s_lo + 1) * scale e <= r * scale e) by nia.
      destruct (Z.even m); apply andb_true_iff in Hr as [H1 H2];
        apply andb_true_iff; split;
        rewrite ?Z.leb_le, ?Z.ltb_lt in *; lia. }
  destruct Hnear as [-> | ->];
    repeat match goal with
           | |- context [if ?c then _ else _] => destruct c
           | |- context [match ?c with Eq => _ | Lt => _ | Gt => _ end] =>
               destruct c
           end; discriminate.
Qed.

(** No valid binary64 value below [10^-4] has a positive multiple of
    [10^-4] among the reals that round to it. *)
Lemma rounds_to_grid_ge (m e r : Z) :
  0 < m < 2 ^ 53 -> (-1074 < e -> 2 ^ 52 <= m) -> -1074 <= e ->
  1 <= r -> rounds_to m e r (-4) = true ->
  scale e <= 10 ^ 4 * scaled m e.
Proof.
  intros Hm Hnorm He Hr Hround.
  apply rounds_to_le_upper in Hround.
  change (pow10_den (-4)) with (10 ^ 4) in Hround.
  change (pow10_num (-4)) with 1 in Hround. rewrite Z.mul_1_r in Hround.
  pose proof (scale_pos e) as Hs.
  assert (scale e <= upper m e * 10 ^ 4) as Hup by nia. clear Hround.
  unfold scaled, upper, quarter_num, scale in *.
  change (10 ^ 4) with 10000 in *.
  destruct (Z.leb_spec 2 e) as [He2|He2].
  - assert (0 < 2 ^ (e - 2)) by (apply Z.pow_pos_nonneg; lia). nia.
  - destruct (Z.eq_dec e (-1074)) as [->|Hne].
    + exfalso. change (2 ^ (2 - -1074)) with (2 ^ 1022 * 2 ^ 54) in Hup.
      change (2 ^ 53) with 9007199254740992 in *.
      change (2 ^ 54) with 18014398509481984 in *.
      assert (0 < 2 ^ 1022) by (apply Z.pow_pos_nonneg; lia). nia.
    + assert (2 ^ 52 <= m) as Hm52 by (apply Hnorm; lia).
      destruct (Z.le_gt_cases (2 - e) 67) as [H67|H67].
      * assert (2 ^ (2 - e) <= 2 ^ 67) by (apply Z.pow_le_mono_r; lia).
        change (2 ^ 67) with 147573952589676412928 in *.
        change (2 ^ 52) with 4503599627370496 in *. lia.
      * destruct (Z.le_gt_cases 69 (2 - e)) as [H69|H69].
        -- assert (2 ^ 69 <= 2 ^ (2 - e)) by (apply Z.pow_le_mono_r; lia).
           change (2 ^ 69) with 590295810358705651712 in *.
           change (2 ^ 53) with 9007199254740992 in *. lia.
        -- assert (2 - e = 68) as H68 by lia. rewrite H68 in *.
           change (2 ^ 68) with 295147905179352825856 in *. lia.
Qed.

Lemma scaled_lt_1e17 (m e : Z) :
  0 < m < 2 ^ 53 -> e <= 3 -> scaled m e < 10 ^ 17 * scale e.
Proof.
  intros Hm He. unfold scaled, quarter_num, scale.
  change (2 ^ 53) with 9007199254740992 in *.
  change (10 ^ 17) with 100000000000000000.
  destruct (Z.leb_spec 2 e) as [He2|He2].
  - assert (e - 2 = 0 \/ e - 2 = 1) as [-> | ->] by lia;
      [change (2 ^ 0) with 1 | change (2 ^ 1) with 2]; lia.
  - assert (1 <= 2 ^ (2 - e))
      by (pose proof (Z.pow_pos_nonneg 2 (2 - e)); lia).
    nia.
Qed.

Lemma scaled_pos (m e : Z) : 0 < m -> 0 < scaled m e.
Proof.
  intros Hm. unfold scaled, quarter_num.
  destruct (Z.leb_spec 2 e); [|lia].
  assert (0 < 2 ^ (e - 2)) by (apply Z.pow_pos_nonneg; lia). nia.
Qed.

Lemma shortest_digits_decimal (m e r : Z) :
  0 < m < 2 ^ 53 -> (-1074 < e -> 2 ^ 52 <= m) -> -1074 <= e <= 3 ->
  1 <= r -> rounds_to m e r (-4) = true ->
  let ds := fst (shortest_digits m e) in
  let n := snd (shortest_digits m e) in
  forallb is_digit ds = true /\ ds <> [] /\
  -4 <= n - Z.of_nat (length ds) /\ n <= 21.
Proof.
  intros Hm Hnorm He Hr Hround. unfold shortest_digits.
  pose proof (scaled_pos m e ltac:(lia)) as Ha.
  pose proof (scale_pos e) as Hb.
  pose proof (rounds_to_grid_ge m e r Hm Hnorm ltac:(lia) Hr Hround) as Hlo.
  pose proof (scaled_lt_1e17 m e Hm ltac:(lia)) as Hhi.
  pose proof (decimal_exponent_range _ _ Ha Hb Hlo Hhi) as Hn0.
  pose proof (decimal_exponent_upper _ _ Ha Hb) as Hup.
  set (n0 := decimal_exponent (scaled m e) (scale e)) in *.
  destruct (shortest_first 20 m e n0 1 (n0 + 4))
    as (k & Hk & Hc); [lia | apply (candidate_grid m e r), Hround |].
  destruct (shortest 20 m e n0 1) as [s q].
  apply candidate_some in Hc. cbv zeta in Hc.
  destruct Hc as (s' & Hs' & _ & Hcase). cbn [fst snd].
  split; [apply decimal_digits_digits|].
  split; [apply decimal_digits_nonempty|].
  destruct Hcase as [(Hne & -> & ->) | (_ & -> & ->)].
  - assert (s' < 10 ^ k) as Hlt.
    { enough (scaled m e * pow10_den (n0 - k)
              / (scale e * pow10_num (n0 - k)) < 10 ^ k) by lia.
      pose proof (pow10_pos (n0 - k)) as [Hpn Hpd].
      pose proof (pow10_pos n0) as [Hpn0 Hpd0].
      apply Z.div_lt_upper_bound; [nia|].
      pose proof (pow10_shift (n0 - k) k ltac:(lia)) as Hshift.
      replace (n0 - k + k) with n0 in Hshift by lia.
      apply (Z.mul_lt_mono_pos_r (pow10_den n0)); [lia|].
      replace (scale e * pow10_num (n0 - k) * 10 ^ k * pow10_den n0)
        with (scale e * (10 ^ k * pow10_num (n0 - k) * pow10_den n0))
        by ring.
      rewrite <- Hshift.
      replace (scaled m e * pow10_den (n0 - k) * pow10_den n0)
        with (scaled m e * pow10_den n0 * pow10_den (n0 - k)) by ring.
      replace (scale e * (pow10_num n0 * pow10_den (n0 - k)))
        with (scale e * pow10_num n0 * pow10_den (n0 - k)) by ring.
      apply Z.mul_lt_mono_pos_r; [lia | exact Hup]. }
    assert (length (decimal_digits s') <= Z.to_nat k)%nat.
    { apply decimal_digits_length_le; [lia|].
      rewrite Z2Nat.id by lia. exact Hlt. }
    lia.
  - change (decimal_digits 1) with [49%N]. cbn [length]. lia.
Qed.

Lemma format_digits_decimal (ds : jsstring) (n : Z) :
  forallb is_digit ds = true -> ds <> [] ->
  -4 <= n - Z.of_nat (length ds) -> n <= 21 ->
  (forallb is_digit (format_digits ds n) = true /\ format_digits ds n <> []) \/
  exists int frac,
    format_digits ds n = int ++ js "." ++ frac /\ int <> [] /\
    forallb is_digit int = true /\ forallb is_digit frac = true /\
    1 <= Z.of_nat (length frac) <= 4.
Proof.
  intros Hds Hne Hq Hn. unfold format_digits. cbv zeta.
  destruct (Z.leb_spec (Z.of_nat (length ds)) n) as [Hk|Hk].
  - replace (n <=? 21) with true by (symmetry; apply Z.leb_le; lia).
    cbn [andb]. left. split.
    + rewrite forallb_app, Hds, zeros_digits. reflexivity.
    + destruct ds; [congruence | discriminate].
  - cbn [andb]. right.
    destruct (Z.ltb_spec 0 n) as [Hn0|Hn0].
    + replace (n <=? 21) with true by (symmetry; apply Z.leb_le; lia).
      cbn [andb].
      exists (firstn (Z.to_nat n) ds), (skipn (Z.to_nat n) ds).
      split; [reflexivity|].
      split.
      { intros Hnil. apply (f_equal (@length _)) in Hnil.
        rewrite length_firstn in Hnil. cbn [length] in Hnil. lia. }
      split; [apply forallb_firstn, Hds|].
      split; [apply forallb_skipn, Hds|].
      rewrite length_skipn. lia.
    + cbn [andb].
      replace (-6 <? n) with true by (symmetry; apply Z.ltb_lt; lia).
      replace (n <=? 0) with true by (symmetry; apply Z.leb_le; lia).
      cbn [andb].
      exists [48%N], (zeros (- n) ++ ds).
      split; [reflexivity|].
      split; [discriminate|].
      split; [reflexivity|].
      split; [rewrite forallb_app, Hds, zeros_digits; reflexivity|].
      rewrite length_app, zeros_length. lia.
Qed.

Lemma toString_decimal (s : bool) (m : positive) (e r : Z) :
  Zpos m < 2 ^ 53 -> (-1074 < e -> 2 ^ 52 <= Zpos m) -> -1074 <= e <= 3 ->
  1 <= r -> in_interval (Zpos m) e r (10 ^ 4) = true ->
  decimal_notation 4 (toString (S754_finite s m e)).
Proof.
  intros Hm Hnorm He Hr Hin.
  assert (rounds_to (Zpos m) e r (-4) = true) as Hround.
  { rewrite rounds_to_in_interval.
    change (pow10_num (-4)) with 1. change (pow10_den (-4)) with (10 ^ 4).
    rewrite Z.mul_1_r. exact Hin. }
  pose proof (shortest_digits_decimal (Zpos m) e r ltac:(lia) Hnorm He Hr
                Hround) as Hsd.
  cbv zeta in Hsd. unfold toString.
  destruct (shortest_digits (Zpos m) e) as [ds n]. cbn [fst snd] in Hsd.
  destruct Hsd as (Hds & Hne & Hq & Hn).
  assert (sign (if s then js "-" else [])) as Hsg
    by (destruct s; [right | left]; reflexivity).
  destruct (format_digits_decimal ds n Hds Hne Hq Hn)
    as [[Hd Hn0] | (int & frac & -> & Hint & Hdi & Hdf & Hlen)].
  - left. exists (if s then js "-" else []), (format_digits ds n).
    repeat (split; [solve [auto]|]). exact Hd.
  - right. exists (Z.of_nat (length frac)). split; [exact Hlen|].
    exists (if s then js "-" else []), int, frac.
    repeat (split; [solve [auto]|]). reflexivity.
Qed.

Lemma isInteger_nonneg_exponent (s : bool) (m : positive) (e : Z) :
  0 <= e -> isInteger (S754_finite s m e) = true.
Proof.
  intros He. unfold isInteger, den. cbn [is_finite andb].
  destruct (Z.leb_spec 0 e); [|lia]. rewrite Z.mod_1_r. reflexivity.
Qed.

Lemma round_isInteger (s : bool) (m : positive) (e : Z) :
  Zpos m < 2 ^ 53 -> e <= 14 ->
  isInteger (round (S754_finite s m e)) = true.
Proof.
  intros Hm He. pose proof (round_integer s m e Hm He) as H.
  destruct (round (S754_finite s m e)) as [sk| | |sk mk ek];
    [reflexivity | contradiction | contradiction |].
  destruct H as (r & Hr & Hek & Hval & _).
  destruct (Z.leb_spec 0 ek) as [H0|H0];
    [apply isInteger_nonneg_exponent, H0|].
  unfold isInteger, num, den. cbn [is_finite andb].
  destruct (Z.leb_spec 0 ek); [lia|].
  assert (Zpos mk = r * 2 ^ (- ek)) as ->.
  { apply (Z.mul_cancel_r _ _ (2 ^ (ek + 52)));
      [apply Z.pow_nonzero; lia|].
    rewrite Hval, <- Z.mul_assoc, <- Z.pow_add_r by lia.
    replace (- ek + (ek + 52)) with 52 by lia. reflexivity. }
  assert (2 ^ (- ek) <> 0) by (apply Z.pow_nonzero; lia).
  apply Z.eqb_eq. destruct sk.
  - rewrite <- Z.mul_opp_l. apply Z.mod_mul; assumption.
  - apply Z.mod_mul; assumption.
Qed.

(** A number that is not an integer, multiplied by ten thousand, rounded
    to the nearest integer and divided by ten thousand, prints with at
    most four digits after the point. *)
Lemma toString_rounded (x : number) :
  valid_binary prec emax x = true -> is_finite x = true ->
  isInteger x = false ->
  isInteger (round (mul x ten_thousand)) = true /\
  decimal_notation 4 (toString (div (round (mul x ten_thousand)) ten_thousand)).
Proof.
  intros Hvalid Hfin Hint.
  destruct x as [s| | |s m e]; try discriminate.
  assert (e < 0) as He.
  { destruct (Z.ltb_spec e 0) as [H|H]; [exact H|].
    rewrite isInteger_nonneg_exponent in Hint by exact H. discriminate. }
  pose proof (mul_ten_thousand s m e Hvalid He) as Hmul.
  destruct (mul (S754_finite s m e) ten_thousand) as [sw| | |sw mw ew];
    try contradiction.
  - split; [reflexivity|]. left. exists [], (js "0").
    split; [destruct sw; reflexivity|].
    split; [left; reflexivity|]. split; [discriminate | reflexivity].
  - destruct Hmul as (_ & Hmw & Hew).
    split; [apply round_isInteger; lia|].
    pose proof (round_integer sw mw ew Hmw ltac:(lia)) as Hround.
    destruct (round (S754_finite sw mw ew)) as [sk| | |sk mk ek];
      try contradiction.
    + left. exists [], (js "0").
      split; [destruct sk; reflexivity|].
      split; [left; reflexivity|]. split; [discriminate | reflexivity].
    + destruct Hround as (r & Hr & Hek & Hval & Hmk).
      pose proof (div_ten_thousand sk mk ek r Hr Hek Hval Hmk) as Hdiv.
      destruct (div (S754_finite sk mk ek) ten_thousand) as [sd| | |sd md ed];
        try contradiction.
      * left. exists [], (js "0").
        split; [reflexivity|].
        split; [left; reflexivity|]. split; [discriminate | reflexivity].
      * destruct Hdiv as (Hmd & Hnorm & Hed & Hin).
        apply (toString_decimal sd md ed r); try assumption. lia.
Qed.

(** ** The final rule of [formatCell] *)




(** * Properties of the further functions *)

(** ** Team colours *)





Lemma own_property_in (map : list (jsstring * jsstring)) (t c : jsstring) :
  own_property map t = Some c -> In (t, c) map.
Proof.
  unfold own_property. intros H.
  destruct (find (fun p => str_eqb (fst p) t) map) as [[k v]|] eqn:Hf;
    [|discriminate].
  apply find_some in Hf as [Hin Hk]. apply str_eqb_eq in Hk.
  cbn in *. injection H as <-. subst k. exact Hin.
Qed.








(** ** The palettes of the dashboard and of the charts *)

Lemma get_or_fallback_undefined (map : list (jsstring * jsstring))
  (t default : jsstring) (fallback : value) :
  fallback <> VUndefined ->
  match fallback with VUndefined => VString default | _ => fallback end
  = fallback.
Proof. destruct fallback; congruence. Qed.

Lemma own_property_charts (t : jsstring) :
  t <> js "new zealand" -> t <> js "nepal" ->
  t <> js "united arab emirates" ->
  own_property RadialChart.team_colors t = own_property team_colors t.
Proof.
  intros H1 H2 H3. unfold own_property, RadialChart.team_colors, team_colors.
  cbn [find fst].
  repeat match goal with
         | |- context [str_eqb ?k t] =>
             let E := fresh "E" in
             destruct (str_eqb k t) eqn:E;
             [apply str_eqb_eq in E;
              first [reflexivity | congruence]|]
         end.
  reflexivity.
Qed.

(** X3: The charts colour a team as the dashboard does, except New Zealand,
    Nepal and the United Arab Emirates, whatever the default colour of
    the chart, when a fallback is given. *)
Theorem teamColor_charts_agree (default : jsstring) (team fallback : value) :
  fallback <> VUndefined ->
  (forall s, ToString team = Normal s ->
     toLowerCase s <> js "new zealand" /\ toLowerCase s <> js "nepal" /\
     toLowerCase s <> js "united arab emirates") ->
  RadialChart.teamColor default team fallback = teamColor team fallback.
Proof.
  intros Hfb Hname. unfold RadialChart.teamColor, teamColor. cbv zeta.
  rewrite (get_or_fallback_undefined team_colors [] default fallback Hfb).
  destruct (truthy team); [|reflexivity]. cbn [negb].
  destruct (ToString team) as [s|e]; [|reflexivity]. cbn [bind].
  destruct (Hname s eq_refl) as (H1 & H2 & H3).
  unfold get_or. rewrite (own_property_charts _ H1 H2 H3). reflexivity.
Qed.

Lemma teamColor_charts_agree_witness :
  let team := VString (js "INDIA") in
  let fallback := VString (js "#16a34a") in
  fallback <> VUndefined /\
  ToString team = Normal (js "INDIA") /\
  RadialChart.teamColor (js "#f59e0b") team fallback
  = teamColor team fallback /\
  teamColor team fallback = Normal (Value (VString (js "#0ea5e9"))).
Proof.
  intros team fallback.
  assert (fallback <> VUndefined) as Hfb by discriminate.
  split; [exact Hfb|]. split; [reflexivity|].
  split; [|reflexivity].
  apply (teamColor_charts_agree (js "#f59e0b") team fallback Hfb).
  intros s [= <-]. repeat split; discriminate.
Defined.

(** ** Team codes *)

Lemma trim_start_idem (s : jsstring) : trim_start (trim_start s) = trim_start s.
Proof.
  induction s as [|c s IH]; [reflexivity|]. cbn [trim_start].
  destruct (is_space c) eqn:Hc; [exact IH|].
  cbn [trim_start]. rewrite Hc. reflexivity.
Qed.

Lemma trim_start_all_space (s : jsstring) :
  forallb is_space s = true -> trim_start s = [].
Proof.
  induction s as [|c s IH]; [reflexivity|]. cbn [forallb trim_start].
  intros H. apply andb_true_iff in H as [-> H]. exact (IH H).
Qed.

Lemma trim_end_idem (s : jsstring) : trim_end (trim_end s) = trim_end s.
Proof. unfold trim_end. rewrite rev_involutive, trim_start_idem. reflexivity. Qed.

Lemma trim_start_trim_end (s : jsstring) :
  trim_start (trim_end (trim_start s)) = trim_end (trim_start s).
Proof.
  induction s as [|c s IH]; [reflexivity|]. cbn [trim_start].
  destruct (is_space c) eqn:Hc; [exact IH|].
  rewrite trim_end_nonspace by exact Hc. cbn [trim_start]. rewrite Hc.
  reflexivity.
Qed.

Lemma trim_idem (s : jsstring) : trim (trim s) = trim s.
Proof.
  unfold trim. rewrite trim_start_trim_end, trim_end_idem. reflexivity.
Qed.

Lemma team_codes_fixed (t c : jsstring) :
  In (t, c) RadialChart.team_codes ->
  nonempty c = true /\
  RadialChart.shortTeam (VString c) = Normal (Value (VString c)).
Proof.
  cbv [RadialChart.team_codes In]. intros H.
  repeat (destruct H as [[= <- <-] | H]; [split; reflexivity|]).
  contradiction.
Qed.

(** X4: [shortTeam] abbreviates once: applied to a label it has produced,
    unless that label is empty, it returns the label. A team of white
    space only gets the empty label, no team gets "Overall". *)
Theorem shortTeam_idempotent (team : value) :
  (forall label, RadialChart.shortTeam team = Normal (Value (VString label)) ->
     label <> [] ->
     RadialChart.shortTeam (VString label) = Normal (Value (VString label))) /\
  (truthy team = false ->
   RadialChart.shortTeam team = Normal (Value (VString (js "Overall")))) /\
  (forall s, team = VString s -> s <> [] -> forallb is_space s = true ->
     RadialChart.shortTeam team = Normal (Value (VString []))).
Proof.
  split; [|split].
  - intros label H Hne. unfold RadialChart.shortTeam in H.
    destruct (truthy team).
    + cbn [negb] in H. destruct (ToString team) as [s|e]; [|discriminate].
      cbn [bind] in H. cbv zeta in H. unfold get_or in H.
      destruct (own_property RadialChart.team_codes (trim s)) as [c|] eqn:Hc.
      * apply own_property_in, team_codes_fixed in Hc as [Hn Hfix].
        rewrite Hn in H. injection H as <-. exact Hfix.
      * destruct (existsb (str_eqb (trim s)) object_prototype_names) eqn:Hp;
          [discriminate|].
        injection H as <-.
        unfold RadialChart.shortTeam. cbn [truthy ToString bind]. cbv zeta.
        assert (nonempty (trim s) = true) as Hn
          by (destruct (trim s); [congruence | reflexivity]).
        rewrite Hn. cbn [negb]. rewrite trim_idem. unfold get_or.
        rewrite Hc, Hp. reflexivity.
    + cbn [negb] in H. injection H as <-. reflexivity.
  - intros Hf. unfold RadialChart.shortTeam. rewrite Hf. reflexivity.
  - intros s -> Hne Hsp. unfold RadialChart.shortTeam.
    cbn [truthy ToString bind]. destruct s as [|c s]; [congruence|].
    cbn [nonempty negb]. cbv zeta. unfold trim.
    rewrite (trim_start_all_space _ Hsp). reflexivity.
Qed.

Lemma shortTeam_idempotent_witness :
  let team := VString (js " New Zealand ") in
  RadialChart.shortTeam team = Normal (Value (VString (js "NZ"))) /\
  js "NZ" <> [] /\
  RadialChart.shortTeam (VString (js "NZ"))
  = Normal (Value (VString (js "NZ"))).
Proof.
  intros team.
  assert (RadialChart.shortTeam team = Normal (Value (VString (js "NZ"))))
    as H by reflexivity.
  assert (js "NZ" <> []) as Hne by discriminate.
  split; [exact H|]. split; [exact Hne|].
  exact (proj1 (shortTeam_idempotent team) (js "NZ") H Hne).
Defined.

(** ** Finding a player by a part of the name *)

Lemma substring_refl (s : jsstring) : substring s s.
Proof. exists [], []. rewrite app_nil_r. reflexivity. Qed.

Lemma substring_trans (a b c : jsstring) :
  substring a b -> substring b c -> substring a c.
Proof.
  intros (x & y & ->) (u & v & ->). exists (u ++ x), (y ++ v).
  rewrite <- !app_assoc. reflexivity.
Qed.

Lemma substring_join (sep x : jsstring) (l : list jsstring) :
  In x l -> substring x (join sep l).
Proof.
  induction l as [|p l IH]; [contradiction|]. intros [-> | Hin].
  - destruct l as [|p' l]; [apply substring_refl|].
    exists [], (sep ++ join sep (p' :: l)). reflexivity.
  - destruct l as [|p' l]; [contradiction|].
    destruct (IH Hin) as (a & b & Hab).
    exists (p ++ sep ++ a), b. change (join sep (p :: p' :: l))
      with (p ++ sep ++ join sep (p' :: l)).
    rewrite Hab, <- !app_assoc. reflexivity.
Qed.

Lemma substring_nil (p : jsstring) : substring p [] -> p = [].
Proof.
  intros (a & b & H). symmetry in H.
  apply app_eq_nil in H as [_ H]. apply app_eq_nil in H as [H _]. exact H.
Qed.

Lemma normalize_string_nonempty (s : jsstring) :
  nonempty (normalize_string s) = true <-> words (toLowerCase s) <> [].
Proof.
  rewrite normalize_string_normalized. unfold normalized.
  pose proof (words_tokens (toLowerCase s)) as Htok.
  destruct (words (toLowerCase s)) as [|w ws]; [split; [discriminate | congruence]|].
  split; [discriminate|]. intros _.
  apply Forall_inv in Htok. destruct Htok as [Hne _].
  destruct w as [|c w]; [congruence|].
  rewrite join_cons_cons. reflexivity.
Qed.

Lemma buildSearchKey_string (s : jsstring) :
  buildSearchKey (VString s) =
  Normal (if nonempty (normalize_string s)
          then search_key (words (toLowerCase s)) else []).
Proof.
  unfold buildSearchKey. rewrite normalizeText_string. cbn [bind].
  destruct (nonempty (normalize_string s)); [|reflexivity]. cbn [negb].
  rewrite tokens_normalize_string, key_of_parts_search_key
    by apply words_tokens.
  reflexivity.
Qed.

Lemma matches_string (qq s : jsstring) :
  matches qq (VString s) =
  includes (if nonempty (normalize_string s)
            then search_key (words (toLowerCase s)) else []) qq.
Proof. unfold matches. rewrite buildSearchKey_string. reflexivity. Qed.

Lemma representations_nil (rep : jsstring) :
  In rep (representations []) -> rep = [].
Proof. cbv [representations In]. intros H. repeat destruct H as [<- | H]; try reflexivity. contradiction. Qed.

Lemma matches_representation (qq name rep : jsstring) :
  qq <> [] -> In rep (representations (words (toLowerCase name))) ->
  substring qq rep -> matches qq (VString name) = true.
Proof.
  intros Hqq Hin Hsub. rewrite matches_string.
  destruct (nonempty (normalize_string name)) eqn:Hn.
  - apply includes_substring. apply (substring_trans _ rep); [exact Hsub|].
    apply substring_join, Hin.
  - exfalso. destruct (words (toLowerCase name)) as [|w ws] eqn:Hw.
    + apply representations_nil in Hin. subst rep.
      apply substring_nil in Hsub. contradiction.
    + assert (nonempty (normalize_string name) = true)
        by (apply normalize_string_nonempty; congruence).
      congruence.
Qed.

Lemma search_untruncated (candidates : list value) (q : jsstring)
  (r : list value) :
  search candidates q = Normal r -> normalize_string q <> [] ->
  (length (filter (matches (normalize_string q)) candidates) <= 150)%nat ->
  r = filter (matches (normalize_string q)) candidates.
Proof.
  intros Hr Hq Hlen. apply search_result in Hr.
  destruct (normalize_string q) as [|c qq] eqn:Hqq; [congruence|].
  cbn [nonempty] in Hr. rewrite Hr. apply firstn_all2. exact Hlen.
Qed.

(** X5: A player is found by any part of the normalised name, of the name
    with the last word first, or of the name without spaces, typed in
    any letter case: the candidate is listed unless more than 150
    candidates match. *)
Theorem search_finds_name (candidates : list value) (q name : jsstring)
  (r : list value) :
  let tokens := words (toLowerCase name) in
  let qq := normalize_string q in
  search candidates q = Normal r ->
  In (VString name) candidates ->
  qq <> [] ->
  substring qq (normalize_string name) \/
  substring qq (lastFirst tokens) \/
  substring qq (compact tokens) ->
  matches qq (VString name) = true /\
  ((length (filter (matches qq) candidates) <= 150)%nat ->
   In (VString name) r).
Proof.
  intros tokens qq Hr Hin Hqq Hsub.
  assert (matches qq (VString name) = true) as Hm.
  { rewrite normalize_string_normalized in Hsub.
    destruct Hsub as [H | [H | H]];
      [apply (matches_representation qq name (firstLast tokens))
      |apply (matches_representation qq name (lastFirst tokens))
      |apply (matches_representation qq name (compact tokens))];
      try assumption; cbv [representations In]; tauto. }
  split; [exact Hm|]. intros Hlen.
  rewrite (search_untruncated candidates q r Hr Hqq Hlen).
  apply filter_In. split; assumption.
Qed.

Lemma search_finds_name_witness :
  let candidates := [VString (js "V Kohli"); VString (js "RG  Sharma")] in
  let tokens := words (toLowerCase (js "RG  Sharma")) in
  let qq := normalize_string (js " Sharma R") in
  search candidates (js " Sharma R") = Normal [VString (js "RG  Sharma")] /\
  In (VString (js "RG  Sharma")) candidates /\
  qq <> [] /\
  substring qq (lastFirst tokens) /\
  matches qq (VString (js "RG  Sharma")) = true /\
  In (VString (js "RG  Sharma")) [VString (js "RG  Sharma")].
Proof.
  intros candidates tokens qq.
  assert (search candidates (js " Sharma R")
          = Normal [VString (js "RG  Sharma")]) as Hr
    by (vm_compute; reflexivity).
  assert (In (VString (js "RG  Sharma")) candidates) as Hin
    by (right; left; reflexivity).
  assert (qq <> []) as Hqq by (vm_compute; discriminate).
  assert (substring qq (lastFirst tokens)) as Hsub
    by (exists [], (js "g"); vm_compute; reflexivity).
  split; [exact Hr|]. split; [exact Hin|]. split; [exact Hqq|].
  split; [exact Hsub|].
  destruct (search_finds_name candidates (js " Sharma R") (js "RG  Sharma")
              [VString (js "RG  Sharma")] Hr Hin Hqq
              (or_intror (or_introl Hsub))) as [Hm Hl].
  split; [exact Hm|]. apply Hl. vm_compute. lia.
Defined.

(** ** Typing more of the query *)






Lemma filter_incl_impl {A} (f g : A -> bool) (l : list A) :
  (forall x, f x = true -> g x = true) ->
  forall x, In x (filter f l) -> In x (filter g l).
Proof.
  intros H x Hin. apply filter_In in Hin as [Hin Hf].
  apply filter_In. split; [exact Hin | apply H, Hf].
Qed.





(** ** The delimiter as a query *)

Lemma includes_bar (a b : jsstring) :
  includes (a ++ js " | " ++ b) (js "|") = true.
Proof.
  apply includes_substring. exists (a ++ js " "), (js " " ++ b).
  rewrite <- !app_assoc. reflexivity.
Qed.

(** X7: The query ["|"], alone or within white space, matches every name
    that is not blank, and no blank one: the key of a name that is not
    blank holds the delimiter of its five representations. *)
Theorem search_delimiter (name q : jsstring) :
  normalize_string q = js "|" ->
  matches (normalize_string q) (VString name)
  = nonempty (normalize_string name).
Proof.
  intros ->. rewrite matches_string.
  destruct (nonempty (normalize_string name)); [|reflexivity].
  unfold search_key, representations.
  change (join (js " | ") (?a :: ?l)) with (a ++ js " | " ++ join (js " | ") l).
  apply includes_bar.
Qed.

Lemma search_delimiter_witness :
  normalize_string (js " | ") = js "|" /\
  matches (normalize_string (js " | ")) (VString (js "RG Sharma"))
  = nonempty (normalize_string (js "RG Sharma")) /\
  nonempty (normalize_string (js "RG Sharma")) = true.
Proof.
  assert (normalize_string (js " | ") = js "|") as Hq by reflexivity.
  split; [exact Hq|].
  split; [exact (search_delimiter (js "RG Sharma") (js " | ") Hq)|].
  reflexivity.
Defined.

(** ** The ball of the over *)

Lemma digits2_pos_iter_xO (p n : positive) :
  Zpos (digits2_pos (Pos.iter xO p n)) = Zpos (digits2_pos p) + Zpos n.
Proof.
  induction n as [|n IH] using Pos.peano_ind.
  - cbn [Pos.iter digits2_pos]. lia.
  - rewrite Pos.iter_succ. cbn [digits2_pos]. lia.
Qed.

(** Rounding a mantissa and an exponent to binary64 gives a number. *)
Lemma binary_round_not_nan (s : bool) (p : positive) (e : Z) :
  binary_round prec emax s p e <> S754_nan.
Proof.
  unfold binary_round, shl_align.
  set (e' := fexp prec emax (Zpos (digits2_pos p) + e)).
  assert (forall mz ez,
             ez <= fexp prec emax (Zdigits2 (Zpos mz) + ez) ->
             binary_round_aux prec emax s (Zpos mz) ez loc_Exact
             <> S754_nan) as Haux.
  { intros mz ez Hez.
    pose proof (binary_round_aux_spec s (Zpos mz) ez loc_Exact (Zpos mz) 1
                  ltac:(lia) ltac:(lia) ltac:(cbn [inbetween]; lia) Hez) as H.
    cbv zeta in H. intros Hnan. rewrite Hnan in H. exact H. }
  destruct (e' - e) as [|d|d] eqn:Hd; apply Haux; cbn [Zdigits2]; fold e';
    try lia.
  rewrite digits2_pos_iter_xO.
  replace (Zpos (digits2_pos p) + Zpos d + e') with (Zpos (digits2_pos p) + e)
    by lia.
  fold e'. lia.
Qed.

Lemma binary_normalize_not_nan (z e : Z) :
  binary_normalize prec emax z e false <> S754_nan.
Proof.
  destruct z; cbn [binary_normalize];
    [discriminate | apply binary_round_not_nan | apply binary_round_not_nan].
Qed.

Lemma sub_one_not_nan (x : number) :
  x <> S754_nan -> sub x (of_Z 1) <> S754_nan.
Proof.
  intros Hx. change (of_Z 1) with (S754_finite false 4503599627370496 (-52)).
  destruct x as [s|s| |s m e]; try discriminate; [congruence|].
  unfold sub, SFsub. apply binary_normalize_not_nan.
Qed.

(** X8: [startBall0] lies between 0 and 5 whatever the ball is, unless the
    ball is [NaN]: it is [+0], [5], or [ball1to6 - 1] when that is above
    0 and below 5. The balls 1 to 6 give 0 to 5. *)
Theorem startBall0_range (ball1to6 : number) :
  let y := sub ball1to6 (of_Z 1) in
  let r := startBall0 ball1to6 in
  (ball1to6 = S754_nan -> r = S754_nan) /\
  (ball1to6 <> S754_nan ->
   r = of_Z 0 \/ r = of_Z 5 \/
   (r = y /\ SFltb (of_Z 0) r = true /\ SFltb r (of_Z 5) = true)) /\
  (forall b, 1 <= b <= 6 -> startBall0 (of_Z b) = of_Z (b - 1)).
Proof.
  intros y r. split; [intros ->; reflexivity|]. split.
  - intros Hx.
    assert (y <> S754_nan) as Hy by (apply sub_one_not_nan, Hx).
    subst r. unfold startBall0. fold y. clearbody y.
    change (of_Z 0) with (S754_zero false).
    change (of_Z 5) with (S754_finite false 5629499534213120 (-50)).
    set (five := S754_finite false 5629499534213120 (-50)).
    assert (Math.min five y = if SFltb y five then y else five) as ->
      by (destruct y; try reflexivity; congruence).
    destruct (SFltb y five) eqn:H5.
    + assert (Math.max (S754_zero false) y
              = if SFltb (S754_zero false) y then y else S754_zero false)
        as -> by (destruct y as [[|]| | |]; try reflexivity; congruence).
      destruct (SFltb (S754_zero false) y) eqn:H0; auto.
    + right. left. reflexivity.
  - intros b Hb.
    assert (b = 1 \/ b = 2 \/ b = 3 \/ b = 4 \/ b = 5 \/ b = 6)
      as [-> | [-> | [-> | [-> | [-> | ->]]]]] by lia;
      vm_compute; reflexivity.
Qed.

Lemma startBall0_range_witness :
  let ball := decimal 25 1 in
  ball <> S754_nan /\
  startBall0 ball = sub ball (of_Z 1) /\
  SFltb (of_Z 0) (startBall0 ball) = true /\
  SFltb (startBall0 ball) (of_Z 5) = true /\
  toString (startBall0 ball) = js "1.5".
Proof.
  intros ball.
  assert (ball <> S754_nan) as Hx by (vm_compute; discriminate).
  split; [exact Hx|].
  destruct (proj1 (proj2 (startBall0_range ball)) Hx) as [H | [H | H]];
    [vm_compute in H; discriminate H | vm_compute in H; discriminate H |].
  destruct H as (Hr & H0 & H5).
  split; [exact Hr|]. split; [exact H0|]. split; [exact H5|].
  vm_compute. reflexivity.
Defined.

(** ** Table cells *)

Lemma formatCell_rule (x : number) (key : jsstring) :
  formatCell (VNumber x) (VString key) =
  Normal match rule_of key with
         | Some d => toFixed x d
         | None =>
             if isInteger x then toString x
             else toString (div (round (mul x ten_thousand)) ten_thousand)
         end.
Proof.
  rewrite formatCell_number. unfold rule_of. cbv zeta.
  destruct (includes (toLowerCase key) (js "econ")); [reflexivity|].
  destruct (str_eqb (toLowerCase key) (js "sr")
            || includes (toLowerCase key) (js "sr_")
            || includes (toLowerCase key) (js "_sr")
            || includes (toLowerCase key) (js "strike")); [reflexivity|].
  cbn [orb].
  destruct (includes (toLowerCase key) (js "dismiss")); [reflexivity|].
  cbn [orb].
  destruct (includes (toLowerCase key) (js "wicket_pct")); [reflexivity|].
  cbn [orb].
  destruct (includes (toLowerCase key) (js "share")); [reflexivity|].
  destruct (isInteger x); reflexivity.
Qed.

Lemma rule_of_digits (key : jsstring) (d : Z) :
  rule_of key = Some d -> 0 < d.
Proof.
  unfold rule_of. cbv zeta.
  repeat match goal with
         | |- context [if ?c then _ else _] => destruct c
         end; intros [= <-]; lia.
Qed.

(** The text of a number under a key: fixed-point notation with the
    decimals of the rule, or at most four decimals under no rule. *)
Lemma formatCell_shape (x : number) (key : jsstring) :
  valid_binary prec emax x = true -> is_finite x = true ->
  below_1e21 x = true ->
  exists text,
    formatCell (VNumber x) (VString key) = Normal text /\
    match rule_of key with
    | Some d => text = toFixed x d /\ fixed_notation d text
    | None => decimal_notation 4 text
    end.
Proof.
  intros Hvalid Hfin Hlt. rewrite formatCell_rule.
  eexists. split; [reflexivity|].
  destruct (rule_of key) as [d|] eqn:Hrule.
  - split; [reflexivity|].
    apply toFixed_fixed_notation; try assumption.
    apply (rule_of_digits key), Hrule.
  - destruct (isInteger x) eqn:Hint.
    + left. apply toString_integer; assumption.
    + apply toString_rounded; assumption.
Qed.

Lemma columns_rules :
  forallb (fun c =>
             match rule_of (Table.key c), decimals (Table.label c) with
             | Some a, Some b => a =? b
             | None, None => true
             | _, _ => false
             end
             && negb (existsb (str_eqb (Table.key c)) object_prototype_names))
    Table.columns = true.
Proof. vm_compute. reflexivity. Qed.

(** X9: In the six tables of the dashboard the key of a column selects the
    decimals that its label announces: a finite number below [10^21]
    shows two decimals under "Economy", one under "Strike rate",
    "Dismissal rate" and "Wickets ratio", and is an integer or has at
    most four decimals in every other column. A [null] or [undefined]
    row, a row object without the field, and a [null] field give the
    empty cell. *)
Theorem Table_cell_text (c : Table.column) (r : value) :
  In c Table.columns ->
  (forall x, get r (Table.key c) = Some (VNumber x) ->
     valid_binary prec emax x = true -> is_finite x = true ->
     below_1e21 x = true ->
     exists text,
       Table.cell r c = Some (Normal text) /\
       match decimals (Table.label c) with
       | Some d => text = toFixed x d /\ fixed_notation d text
       | None => decimal_notation 4 text
       end) /\
  (r = VNull \/ r = VUndefined \/
   (exists props, r = VObject props /\
      (own_value props (Table.key c) = None \/
       own_value props (Table.key c) = Some VNull)) ->
   Table.cell r c = Some (Normal [])).
Proof.
  intros Hin.
  pose proof columns_rules as Hall. rewrite forallb_forall in Hall.
  specialize (Hall c Hin). apply andb_true_iff in Hall as [Hrule Hproto].
  apply negb_true_iff in Hproto. split.
  - intros x Hget Hvalid Hfin Hlt. unfold Table.cell. rewrite Hget.
    cbn [option_map].
    destruct (formatCell_shape x (Table.key c) Hvalid Hfin Hlt)
      as (text & Htext & Hshape).
    exists text. split; [rewrite Htext; reflexivity|].
    destruct (rule_of (Table.key c)) as [a|],
      (decimals (Table.label c)) as [b|]; try discriminate.
    + apply Z.eqb_eq in Hrule. subst b. exact Hshape.
    + exact Hshape.
  - unfold Table.cell.
    intros [-> | [-> | (props & -> & [Hown | Hown])]]; cbn [get];
      rewrite ?Hown, ?Hproto; reflexivity.
Qed.

Lemma Table_cell_text_witness :
  let c := Table.col "econ_vs_batter" "Economy" in
  let x := decimal 7125 3 in
  let r := VObject [(js "bowler", VString (js "JJ Bumrah"));
                    (js "econ_vs_batter", VNumber x)] in
  In c Table.columns /\
  get r (Table.key c) = Some (VNumber x) /\
  valid_binary prec emax x = true /\ is_finite x = true /\
  below_1e21 x = true /\
  exists text,
    Table.cell r c = Some (Normal text) /\
    text = toFixed x 2 /\ fixed_notation 2 text /\ text = js "7.13".
Proof.
  intros c x r.
  assert (In c Table.columns) as Hin
    by (cbv [Table.columns Table.batter_team Table.bowler_team
               Table.best_batters Table.best_bowlers Table.top5_bowlers
               Table.top5_batters app In]; tauto).
  assert (get r (Table.key c) = Some (VNumber x)) as Hget by reflexivity.
  assert (valid_binary prec emax x = true) as Hv by (vm_compute; reflexivity).
  assert (is_finite x = true) as Hf by (vm_compute; reflexivity).
  assert (below_1e21 x = true) as Hb by (vm_compute; reflexivity).
  split; [exact Hin|]. split; [exact Hget|]. split; [exact Hv|].
  split; [exact Hf|]. split; [exact Hb|].
  destruct (proj1 (Table_cell_text c r Hin) x Hget Hv Hf Hb)
    as (text & Hcell & Htext & Hshape).
  exists text. split; [exact Hcell|]. split; [exact Htext|].
  split; [exact Hshape|]. rewrite Htext. vm_compute. reflexivity.
Defined.

(** ** Indicators *)

Lemma indicators_rules :
  forallb (fun i =>
             match rule_of (Kpi.key i) with
             | Some d =>
                 d =? (if includes (Kpi.label i) (js "Economy") then 2 else 1)
             | None => false
             end)
    Kpi.indicators = true.
Proof. vm_compute. reflexivity. Qed.

(** X10: Each of the nine indicators of the dashboard shows the em dash when
    there is no response yet, and when its part of the response or its
    field is missing or [null]; it shows a finite number below [10^21]
    with two decimals when its label names the economy and with one
    decimal otherwise, followed by ["%"] when it is formatted by
    [fmtPct]. *)
Theorem Kpi_text (i : Kpi.indicator) (data : value) :
  In i Kpi.indicators ->
  (data = VNull \/ data = VUndefined ->
   Kpi.text i data = Some (Normal em_dash)) /\
  (Kpi.reading i data = Some VUndefined \/ Kpi.reading i data = Some VNull ->
   Kpi.text i data = Some (Normal em_dash)) /\
  (forall x, Kpi.reading i data = Some (VNumber x) ->
     is_finite x = true -> below_1e21 x = true ->
     let d := if includes (Kpi.label i) (js "Economy") then 2 else 1 in
     Kpi.text i data
     = Some (Normal (toFixed x d ++ (if Kpi.percent i then js "%" else [])))
     /\ fixed_notation d (toFixed x d)).
Proof.
  intros Hin.
  pose proof indicators_rules as Hall. rewrite forallb_forall in Hall.
  specialize (Hall i Hin). unfold Kpi.text. split; [|split].
  - intros [-> | ->]; unfold Kpi.reading; cbn [get option_map];
      destruct (Kpi.percent i); reflexivity.
  - intros [-> | ->]; cbn [option_map]; destruct (Kpi.percent i); reflexivity.
  - intros x Hread Hfin Hlt. rewrite Hread. cbn [option_map].
    set (d := if includes (Kpi.label i) (js "Economy") then 2 else 1) in *.
    destruct (rule_of (Kpi.key i)) as [d'|] eqn:Hrule; [|discriminate].
    apply Z.eqb_eq in Hall. subst d'.
    split.
    + destruct (Kpi.percent i); cbn [fmt fmtPct];
        rewrite formatCell_rule, Hrule; cbn [bind];
        rewrite ?app_nil_r; reflexivity.
    + apply toFixed_fixed_notation; try assumption.
      subst d. destruct (includes (Kpi.label i) (js "Economy")); lia.
Qed.

Lemma Kpi_text_witness :
  let i := Kpi.ind true "bowler_card" "wickets_share_of_total"
             "wickets_share_of_total" "Wicket share of total" in
  let x := decimal 3125 2 in
  let data := VObject [(js "bowler_card",
                        VObject [(js "wickets_share_of_total", VNumber x)])] in
  In i Kpi.indicators /\
  Kpi.reading i data = Some (VNumber x) /\
  is_finite x = true /\ below_1e21 x = true /\
  Kpi.text i data = Some (Normal (toFixed x 1 ++ js "%")) /\
  fixed_notation 1 (toFixed x 1) /\
  toFixed x 1 ++ js "%" = js "31.3%".
Proof.
  intros i x data.
  assert (In i Kpi.indicators) as Hin
    by (cbv [Kpi.indicators In]; tauto).
  assert (Kpi.reading i data = Some (VNumber x)) as Hr by reflexivity.
  assert (is_finite x = true) as Hf by (vm_compute; reflexivity).
  assert (below_1e21 x = true) as Hb by (vm_compute; reflexivity).
  split; [exact Hin|]. split; [exact Hr|]. split; [exact Hf|].
  split; [exact Hb|].
  destruct (proj2 (proj2 (Kpi_text i data Hin)) x Hr Hf Hb) as [Ht Hs].
  split; [exact Ht|]. split; [exact Hs|]. vm_compute. reflexivity.
Defined.

(** ** The normal form of a text *)




(** ** The value that fixed decimals show *)

Lemma den_pos (x : number) : 0 < den x.
Proof.
  destruct x as [s|s| |s m e]; cbn [den]; try lia.
  destruct (Z.leb_spec 0 e); [lia | apply Z.pow_pos_nonneg; lia].
Qed.

Lemma toFixed_finite (x : number) (f : Z) :
  is_finite x = true -> below_1e21 x = true -> 0 < f ->
  toFixed x f =
  let s := if num x <? 0 then js "-" else [] in
  let n := (2 * Z.abs (num x) * 10 ^ f + den x) / (2 * den x) in
  let m := decimal_digits n in
  let k := Z.of_nat (length m) in
  let m := if k <=? f then zeros (f + 1 - k) ++ m else m in
  s ++ firstn (length m - Z.to_nat f) m ++ js "." ++
  skipn (length m - Z.to_nat f) m.
Proof.
  intros Hfin Hlt Hf. unfold toFixed. destruct x; try discriminate Hfin;
    rewrite Hlt; destruct (Z.eqb_spec f 0); (lia || reflexivity).
Qed.

Lemma half_up_bounds (a d : Z) :
  0 <= a -> 0 < d ->
  let n := (2 * a + d) / (2 * d) in
  0 <= n /\ 2 * n * d - d <= 2 * a < 2 * n * d + d.
Proof.
  intros Ha Hd n.
  pose proof (Z.mul_div_le (2 * a + d) (2 * d) ltac:(lia)) as Hlo.
  pose proof (Z.mul_succ_div_gt (2 * a + d) (2 * d) ltac:(lia)) as Hhi.
  fold n in Hlo, Hhi.
  split; [apply Z.div_pos; lia | clearbody n; nia].
Qed.

(** X12: Under a naming rule with [d] decimals, [formatCell] shows the number
    rounded to the nearest multiple of [10^-d], a tie away from zero:
    the digits shown, read without the point, are the integer [n] with
    [n - 1/2 <= |x| * 10^d < n + 1/2], after a minus sign when [x] is
    negative. *)
Theorem formatCell_fixed_value (x : number) (key : jsstring) (d : Z) :
  is_finite x = true -> below_1e21 x = true -> rule_of key = Some d ->
  exists int frac,
    formatCell (VNumber x) (VString key)
    = Normal ((if num x <? 0 then js "-" else []) ++ int ++ js "." ++ frac) /\
    Z.of_nat (length frac) = d /\ int <> [] /\
    forallb is_digit (int ++ frac) = true /\
    let n := digits_value (int ++ frac) in
    2 * n * den x - den x <= 2 * (Z.abs (num x) * 10 ^ d)
    < 2 * n * den x + den x.
Proof.
  intros Hfin Hlt Hrule. pose proof (rule_of_digits key d Hrule) as Hd.
  rewrite formatCell_rule, Hrule, (toFixed_finite x d Hfin Hlt Hd).
  cbv zeta.
  set (n := (2 * Z.abs (num x) * 10 ^ d + den x) / (2 * den x)).
  set (k := Z.of_nat (length (decimal_digits n))).
  set (m := if k <=? d then zeros (d + 1 - k) ++ decimal_digits n
            else decimal_digits n).
  assert (0 <= Z.abs (num x) * 10 ^ d) as Ha
    by (pose proof (Z.pow_pos_nonneg 10 d ltac:(lia) ltac:(lia)); nia).
  assert (n = (2 * (Z.abs (num x) * 10 ^ d) + den x) / (2 * den x)) as Hn_eq
    by (unfold n; f_equal; ring).
  pose proof (half_up_bounds (Z.abs (num x) * 10 ^ d) (den x) Ha (den_pos x))
    as Hhalf.
  cbv zeta in Hhalf. rewrite <- Hn_eq in Hhalf. destruct Hhalf as [Hn Hb].
  assert (forallb is_digit m = true) as Hm.
  { unfold m. destruct (k <=? d); [|apply decimal_digits_digits].
    rewrite forallb_app, zeros_digits, decimal_digits_digits. reflexivity. }
  assert (digits_value m = n) as Hv.
  { unfold m. destruct (k <=? d).
    - rewrite digits_value_app, digits_value_zeros, decimal_digits_value
        by exact Hn. lia.
    - apply decimal_digits_value, Hn. }
  assert (Z.to_nat d + 1 <= length m)%nat as Hlen.
  { unfold m. destruct (Z.leb_spec k d).
    - rewrite length_app, zeros_length. unfold k in *. lia.
    - unfold k in *. lia. }
  exists (firstn (length m - Z.to_nat d) m), (skipn (length m - Z.to_nat d) m).
  split; [reflexivity|].
  split; [rewrite length_skipn; lia|].
  split.
  { intros H. apply (f_equal (@length _)) in H.
    rewrite length_firstn in H. cbn [length] in H. lia. }
  rewrite firstn_skipn, Hv. split; [exact Hm | exact Hb].
Qed.

Lemma formatCell_fixed_value_witness :
  let x := decimal 7125 3 in
  is_finite x = true /\ below_1e21 x = true /\
  rule_of (js "econ_vs_batter") = Some 2 /\
  formatCell (VNumber x) (VString (js "econ_vs_batter")) = Normal (js "7.13") /\
  exists int frac,
    formatCell (VNumber x) (VString (js "econ_vs_batter"))
    = Normal ((if num x <? 0 then js "-" else []) ++ int ++ js "." ++ frac) /\
    2 * digits_value (int ++ frac) * den x - den x
    <= 2 * (Z.abs (num x) * 10 ^ 2).
Proof.
  intros x.
  assert (is_finite x = true) as Hf by (vm_compute; reflexivity).
  assert (below_1e21 x = true) as Hb by (vm_compute; reflexivity).
  assert (rule_of (js "econ_vs_batter") = Some 2) as Hr
    by (vm_compute; reflexivity).
  split; [exact Hf|]. split; [exact Hb|]. split; [exact Hr|].
  split; [vm_compute; reflexivity|].
  destruct (formatCell_fixed_value x (js "econ_vs_batter") 2 Hf Hb Hr)
    as (int & frac & Hcell & _ & _ & _ & Hn).
  exists int, frac. split; [exact Hcell | apply Hn].
Defined.

(** ** Colours and backgrounds of the cards *)




(** ** The order of the table rows *)

(** Rounding a positive mantissa at an exponent of the format keeps
    the sign and never gives a zero. *)
Lemma binary_round_aux_sign (sx : bool) (mx ex : Z) :
  0 < mx -> ex <= fexp prec emax (Zdigits2 mx + ex) -> -1074 <= ex ->
  match binary_round_aux prec emax sx mx ex loc_Exact with
  | S754_finite s _ _ | S754_infinity s => s = sx
  | _ => False
  end.
Proof.
  intros Hmx Hp Hex. unfold binary_round_aux.
  destruct (shr_fexp_spec mx ex loc_Exact mx 1 ltac:(lia) ltac:(lia)
              ltac:(cbn [inbetween]; lia) Hp) as (mrs & -> & Hm1 & Hin1).
  set (e1 := fexp prec emax (Zdigits2 mx + ex)) in *.
  set (n := e1 - ex) in *. assert (0 <= n) as Hn by (unfold n; lia).
  set (m1 := shr_m mrs) in *.
  pose proof (Zdigits2_bounds mx Hmx) as [Hlo Hhi].
  assert (1 <= Zdigits2 mx) as Hdig by (destruct mx; cbn [Zdigits2]; lia).
  assert (1 <= m1 < 2 ^ 53) as Hm1b.
  { rewrite Hm1. unfold n, e1 in *. rewrite fexp_unfold in *. split.
    - apply Z.div_le_lower_bound; [apply Z.pow_pos_nonneg; lia|].
      rewrite Z.mul_1_r.
      apply Z.le_trans with (2 := Hlo). apply Z.pow_le_mono_r; lia.
    - apply Z.div_lt_upper_bound; [apply Z.pow_pos_nonneg; lia|].
      rewrite <- Z.pow_add_r by lia.
      apply Z.lt_le_trans with (1 := Hhi). apply Z.pow_le_mono_r; lia. }
  assert (0 < 1 * 2 ^ n) as HB1
    by (apply Z.mul_pos_pos; [lia | apply Z.pow_pos_nonneg; lia]).
  destruct (round_nearest_even_spec mx (1 * 2 ^ n) m1 (loc_of_shr_record mrs)
              HB1 Hin1) as (Hr & _).
  set (r := round_nearest_even m1 (loc_of_shr_record mrs)) in *.
  unfold shr_fexp. fold e1.
  destruct (Z.eq_dec r (2 ^ 53)) as [Hr53|Hr53].
  - rewrite Hr53.
    assert (fexp prec emax (Zdigits2 (2 ^ 53) + e1) - e1 = 1) as ->
      by (rewrite fexp_unfold; change (Zdigits2 (2 ^ 53)) with 54;
          unfold e1; rewrite fexp_unfold; lia).
    rewrite shr_carry. cbn [shr_m]. cbv iota beta.
    destruct (e1 + 1 <=? emax - prec); reflexivity.
  - assert (fexp prec emax (Zdigits2 r + e1) - e1 <= 0) as Hn2.
    { rewrite fexp_unfold.
      pose proof (Zdigits2_le r 53 ltac:(lia) ltac:(lia)).
      unfold e1. rewrite fexp_unfold. lia. }
    rewrite (shr_nonpos _ _ _ Hn2). cbn [shr_record_of_loc shr_m].
    destruct r as [|p|p] eqn:Hrp; [lia | | lia].
    destruct (e1 <=? emax - prec); reflexivity.
Qed.

Lemma binary_round_sign (s : bool) (p : positive) (e : Z) :
  -1074 <= e ->
  match binary_round prec emax s p e with
  | S754_finite s' _ _ | S754_infinity s' => s' = s
  | _ => False
  end.
Proof.
  intros He. unfold binary_round, shl_align.
  set (e' := fexp prec emax (Zpos (digits2_pos p) + e)).
  assert (-1074 <= e') as He' by (unfold e'; rewrite fexp_unfold; lia).
  destruct (e' - e) as [|d|d] eqn:Hd; apply binary_round_aux_sign;
    cbn [Zdigits2]; fold e'; try lia.
  rewrite digits2_pos_iter_xO.
  replace (Zpos (digits2_pos p) + Zpos d + e') with (Zpos (digits2_pos p) + e)
    by lia.
  fold e'. lia.
Qed.

(** The sign of a number that is no [NaN], as the comparison with zero
    tells it. *)
Lemma binary_normalize_sign (z e : Z) :
  -1074 <= e ->
  let r := binary_normalize prec emax z e false in
  r <> S754_nan /\
  SFltb r (S754_zero false) = (z <? 0) /\
  SFltb (S754_zero false) r = (0 <? z) /\
  (z = 0 -> r = S754_zero false).
Proof.
  intros He r. subst r. destruct z as [|p|p]; cbn [binary_normalize].
  - repeat split; discriminate.
  - pose proof (binary_round_sign false p e He) as H.
    destruct (binary_round prec emax false p e) as [s|s| |s m e'];
      try contradiction; subst s; repeat split; discriminate.
  - pose proof (binary_round_sign true p e He) as H.
    destruct (binary_round prec emax true p e) as [s|s| |s m e'];
      try contradiction; subst s; repeat split; discriminate.
Qed.

Lemma shl_align_value (m : positive) (e ez : Z) :
  ez <= e -> Zpos (fst (shl_align m e ez)) = Zpos m * 2 ^ (e - ez).
Proof.
  intros H. unfold shl_align. destruct (ez - e) as [|d|d] eqn:Hd; [|lia|].
  - cbn [fst]. replace (e - ez) with 0 by lia. lia.
  - cbn [fst]. rewrite pos_iter_xO. f_equal. f_equal. lia.
Qed.

(** The value of a finite number as a multiple of [2^ez], for an
    exponent [ez] at most its own: [num / den = X * 2^ez]. *)
Lemma num_den_aligned (s : bool) (m : positive) (e ez : Z) :
  ez <= e ->
  let x := S754_finite s m e in
  num x * (if 0 <=? ez then 1 else 2 ^ (- ez))
  = cond_Zopp s (Zpos m * 2 ^ (e - ez)) * den x
    * (if 0 <=? ez then 2 ^ ez else 1).
Proof.
  intros H x. subst x. unfold num, den.
  remember (e - ez) as a eqn:Ha. assert (0 <= a) as Ha0 by lia.
  assert (e = a + ez) as -> by lia. clear Ha H.
  destruct (Z.leb_spec 0 (a + ez)), (Z.leb_spec 0 ez); try lia.
  - rewrite Z.pow_add_r by lia. destruct s; cbn [cond_Zopp]; ring.
  - assert (2 ^ (a + ez) * 2 ^ (- ez) = 2 ^ a) as Hp
      by (rewrite <- Z.pow_add_r by lia; f_equal; lia).
    destruct s; cbn [cond_Zopp]; rewrite <- Hp; ring.
  - assert (2 ^ a * 2 ^ (- (a + ez)) = 2 ^ (- ez)) as Hp
      by (rewrite <- Z.pow_add_r by lia; f_equal; lia).
    destruct s; cbn [cond_Zopp]; rewrite <- Hp; ring.
Qed.

Lemma cross_sign (nx dx ny dy X Y N P : Z) :
  0 < dx -> 0 < dy -> 0 < N -> 0 < P ->
  nx * P = X * dx * N -> ny * P = Y * dy * N ->
  (ny * dx <? nx * dy) = (Y - X <? 0) /\
  (nx * dy <? ny * dx) = (0 <? Y - X) /\
  (Y - X = 0 -> ny * dx = nx * dy).
Proof.
  intros Hdx Hdy HN HP Hx Hy.
  assert ((ny * dx - nx * dy) * P = (Y - X) * (dx * dy * N)) as Heq
    by (replace ((ny * dx - nx * dy) * P)
          with (ny * P * dx - nx * P * dy) by ring;
        rewrite Hx, Hy; ring).
  assert (0 < dx * dy * N) as Hpos by (repeat apply Z.mul_pos_pos; lia).
  set (K := dx * dy * N) in *. clearbody K.
  split; [|split].
  - destruct (Z.ltb_spec (ny * dx) (nx * dy)), (Z.ltb_spec (Y - X) 0);
      try reflexivity; exfalso; nia.
  - destruct (Z.ltb_spec (nx * dy) (ny * dx)), (Z.ltb_spec 0 (Y - X));
      try reflexivity; exfalso; nia.
  - intros Hz. rewrite Hz in Heq. nia.
Qed.

Lemma num_sign (s : bool) (m : positive) (e : Z) :
  (num (S754_finite s m e) <? 0) = s /\
  (0 <? num (S754_finite s m e)) = negb s.
Proof.
  unfold num.
  assert (0 < (if 0 <=? e then Zpos m * 2 ^ e else Zpos m)) as Hpos.
  { destruct (Z.leb_spec 0 e); [|lia].
    apply Z.mul_pos_pos; [lia | apply Z.pow_pos_nonneg; lia]. }
  destruct s; cbn [negb]; split;
    [apply Z.ltb_lt | apply Z.ltb_ge | apply Z.ltb_ge | apply Z.ltb_lt]; lia.
Qed.

(** The sign of the difference of two finite numbers is the order of
    their values; the difference is no [NaN], and a zero only when the
    values are equal. *)
Lemma sub_sign (x y : number) :
  valid_binary prec emax x = true -> valid_binary prec emax y = true ->
  is_finite x = true -> is_finite y = true ->
  sub y x <> S754_nan /\
  SFltb (sub y x) (S754_zero false) = (num y * den x <? num x * den y) /\
  SFltb (S754_zero false) (sub y x) = (num x * den y <? num y * den x) /\
  ((exists s, sub y x = S754_zero s) <-> num y * den x = num x * den y).
Proof.
  intros Hvx Hvy Hfx Hfy.
  destruct x as [sx| | |sx mx ex]; try discriminate Hfx;
    destruct y as [sy| | |sy my ey]; try discriminate Hfy.
  - split; [destruct sx, sy; discriminate|].
    split; [destruct sx, sy; reflexivity|].
    split; [destruct sx, sy; reflexivity|].
    split; [reflexivity|]. intros _. destruct sx, sy; eexists; reflexivity.
  - change (sub (S754_finite sy my ey) (S754_zero sx))
      with (S754_finite sy my ey).
    destruct (num_sign sy my ey) as [Hneg Hpos].
    cbn [num den] in *. rewrite Z.mul_1_r, Z.mul_0_l.
    split; [discriminate|].
    split; [rewrite Hneg; destruct sy; reflexivity|].
    split; [rewrite Hpos; destruct sy; reflexivity|].
    split; [intros [s H]; discriminate H|].
    intros H. rewrite H in Hpos, Hneg. destruct sy; discriminate.
  - change (sub (S754_zero sy) (S754_finite sx mx ex))
      with (S754_finite (negb sx) mx ex).
    destruct (num_sign sx mx ex) as [Hneg Hpos].
    cbn [num den] in *. rewrite Z.mul_1_r, Z.mul_0_l.
    split; [discriminate|].
    split; [rewrite Hpos; destruct sx; reflexivity|].
    split; [rewrite Hneg; destruct sx; reflexivity|].
    split; [intros [s H]; discriminate H|].
    intros H. rewrite <- H in Hpos, Hneg. destruct sx; discriminate.
  - apply valid_binary_bounds in Hvx as (_ & Hex & _).
    apply valid_binary_bounds in Hvy as (_ & Hey & _).
    unfold sub, SFsub. set (ez := Z.min ey ex).
    rewrite !shl_align_value by (unfold ez; lia).
    set (Y := cond_Zopp sy (Zpos my * 2 ^ (ey - ez))).
    set (X := cond_Zopp sx (Zpos mx * 2 ^ (ex - ez))).
    destruct (binary_normalize_sign (Y - X) ez ltac:(unfold ez; lia))
      as (Hnan & Hneg & Hpos & Hzero).
    pose proof (num_den_aligned sx mx ex ez ltac:(unfold ez; lia)) as Hx.
    pose proof (num_den_aligned sy my ey ez ltac:(unfold ez; lia)) as Hy.
    cbv zeta in Hx, Hy. fold X in Hx. fold Y in Hy.
    assert (0 < (if 0 <=? ez then 2 ^ ez else 1)) as HN
      by (destruct (Z.leb_spec 0 ez); [apply Z.pow_pos_nonneg|]; lia).
    assert (0 < (if 0 <=? ez then 1 else 2 ^ (- ez))) as HP
      by (destruct (Z.leb_spec 0 ez); [|apply Z.pow_pos_nonneg]; lia).
    destruct (cross_sign _ _ _ _ X Y _ _
                (den_pos (S754_finite sx mx ex))
                (den_pos (S754_finite sy my ey)) HN HP Hx Hy)
      as (H1 & H2 & H3).
    split; [exact Hnan|].
    split; [rewrite Hneg, H1; reflexivity|].
    split; [rewrite Hpos, H2; reflexivity|].
    split.
    + intros [s Hs]. rewrite Hs in Hneg, Hpos. apply H3.
      destruct (Z.ltb_spec (Y - X) 0), (Z.ltb_spec 0 (Y - X));
        try discriminate; lia.
    + intros Heq. exists false. apply Hzero.
      rewrite Heq in H1, H2. rewrite Z.ltb_irrefl in H1, H2.
      destruct (Z.ltb_spec (Y - X) 0), (Z.ltb_spec 0 (Y - X));
        try discriminate; lia.
Qed.

Lemma cross_lt_trans (nx dx ny dy nz dz : Z) :
  0 < dx -> 0 < dy -> 0 < dz ->
  ny * dx < nx * dy -> nz * dy < ny * dz -> nz * dx < nx * dz.
Proof.
  intros Hdx Hdy Hdz H1 H2.
  apply (Z.mul_lt_mono_pos_r dy); [exact Hdy|].
  apply Z.lt_trans with (ny * dz * dx).
  - replace (nz * dx * dy) with (nz * dy * dx) by ring.
    apply Z.mul_lt_mono_pos_r; assumption.
  - replace (ny * dz * dx) with (ny * dx * dz) by ring.
    replace (nx * dz * dy) with (nx * dy * dz) by ring.
    apply Z.mul_lt_mono_pos_r; assumption.
Qed.

Lemma cross_eq_trans (nx dx ny dy nz dz : Z) :
  0 < dy -> ny * dx = nx * dy -> nz * dy = ny * dz -> nz * dx = nx * dz.
Proof.
  intros Hdy H1 H2. apply (Z.mul_cancel_r _ _ dy); [lia|].
  replace (nz * dx * dy) with (nz * dy * dx) by ring.
  rewrite H2. replace (ny * dz * dx) with (ny * dx * dz) by ring.
  rewrite H1. ring.
Qed.

Lemma compare_rows_keys (field : jsstring) (a b : value) (x y : number) :
  sort_key field a = Some (Normal x) -> sort_key field b = Some (Normal y) ->
  compare_rows field a b = Some (Normal (sub y x)).
Proof. intros Ha Hb. unfold compare_rows. rewrite Ha, Hb. reflexivity. Qed.

Lemma before_keys (field : jsstring) (a b : value) (x y : number) :
  sort_key field a = Some (Normal x) -> sort_key field b = Some (Normal y) ->
  valid_binary prec emax x = true -> valid_binary prec emax y = true ->
  is_finite x = true -> is_finite y = true ->
  (before field a b <-> num y * den x < num x * den y) /\
  (tied field a b <-> num y * den x = num x * den y).
Proof.
  intros Ha Hb Hvx Hvy Hfx Hfy.
  destruct (sub_sign x y Hvx Hvy Hfx Hfy) as (_ & Hneg & _ & Hzero).
  unfold before, tied. rewrite (compare_rows_keys field a b x y Ha Hb).
  split; split.
  - intros (r & [= <-] & Hr). rewrite Hneg in Hr. apply Z.ltb_lt, Hr.
  - intros H. exists (sub y x). split; [reflexivity|].
    rewrite Hneg. apply Z.ltb_lt, H.
  - intros (s & [= Hs]). apply Hzero. exists s. exact Hs.
  - intros H. apply Hzero in H as (s & Hs). exists s. rewrite Hs.
    reflexivity.
Qed.

(** X14: the comparison function of the sorted tables is consistent on
    rows whose keys are finite: it returns a number that is no [NaN],
    negative exactly when the key of the first row is the larger one (so
    the rows go in descending order of the key) and a zero exactly when
    the keys are equal; going before is irreflexive, asymmetric and
    transitive, being tied is symmetric and transitive, and two rows
    are tied or one goes before the other. With both keys the same
    infinity it returns [NaN]. A row without a number under the field
    has the key [+0]. *)
Theorem compare_rows_consistent (field : jsstring) (a b c : value) :
  (finite_key field a -> finite_key field b -> finite_key field c ->
   (exists r, compare_rows field a b = Some (Normal r) /\ r <> S754_nan) /\
   (forall x y,
      sort_key field a = Some (Normal x) ->
      sort_key field b = Some (Normal y) ->
      (before field a b <-> num y * den x < num x * den y) /\
      (tied field a b <-> num y * den x = num x * den y)) /\
   tied field a a /\
   (before field a b -> ~ before field b a /\ ~ tied field a b) /\
   (tied field a b -> tied field b a) /\
   (before field a b \/ tied field a b \/ before field b a) /\
   (before field a b -> before field b c -> before field a c) /\
   (tied field a b -> tied field b c -> tied field a c)) /\
  (forall s,
     sort_key field a = Some (Normal (S754_infinity s)) ->
     sort_key field b = Some (Normal (S754_infinity s)) ->
     compare_rows field a b = Some (Normal S754_nan)) /\
  (a = VNull \/ a = VUndefined \/
   (exists props, a = VObject props /\
      existsb (str_eqb field) object_prototype_names = false /\
      (own_value props field = None \/
       own_value props field = Some VNull \/
       own_value props field = Some (VNumber S754_nan))) ->
   sort_key field a = Some (Normal (S754_zero false))).
Proof.
  split; [|split].
  - intros (x & Ha & Hvx & Hfx) (y & Hb & Hvy & Hfy) (z & Hc & Hvz & Hfz).
    pose proof (den_pos x) as Hdx. pose proof (den_pos y) as Hdy.
    pose proof (den_pos z) as Hdz.
    destruct (before_keys field a b x y Ha Hb Hvx Hvy Hfx Hfy) as [Bab Tab].
    destruct (before_keys field b a y x Hb Ha Hvy Hvx Hfy Hfx) as [Bba Tba].
    destruct (before_keys field b c y z Hb Hc Hvy Hvz Hfy Hfz) as [Bbc Tbc].
    destruct (before_keys field a c x z Ha Hc Hvx Hvz Hfx Hfz) as [Bac Tac].
    destruct (before_keys field a a x x Ha Ha Hvx Hvx Hfx Hfx) as [_ Taa].
    split.
    { exists (sub y x). split; [apply compare_rows_keys; assumption|].
      apply sub_sign; assumption. }
    split.
    { intros x' y' Ha' Hb'. rewrite Ha in Ha'. rewrite Hb in Hb'.
      injection Ha' as <-. injection Hb' as <-. split; assumption. }
    rewrite Bab, Bba, Bbc, Bac, Tab, Tba, Tbc, Tac, Taa.
    split; [reflexivity|].
    split; [lia|]. split; [lia|]. split; [lia|].
    split; [intros H1 H2; exact (cross_lt_trans _ _ _ _ _ _ Hdx Hdy Hdz H1 H2)|].
    intros H1 H2. exact (cross_eq_trans _ _ _ _ _ _ Hdy H1 H2).
  - intros s Ha Hb. rewrite (compare_rows_keys _ _ _ _ _ Ha Hb).
    destruct s; reflexivity.
  - unfold sort_key.
    intros [-> | [-> | (props & -> & Hp & [H | [H | H]])]]; cbn [get];
      rewrite ?H, ?Hp; reflexivity.
Qed.

Lemma compare_rows_consistent_witness :
  let field := js "sr" in
  let a := VObject [(js "batter", VString (js "V Kohli"));
                    (js "sr", VNumber (decimal 1385 1))] in
  let b := VObject [(js "batter", VString (js "RG Sharma"));
                    (js "sr", VNumber (decimal 1402 1))] in
  let c := VObject [(js "batter", VString (js "S Gill")); (js "sr", VNull)] in
  finite_key field a /\ finite_key field b /\ finite_key field c /\
  before field b a /\ before field a c /\ before field b c.
Proof.
  intros field a b c.
  assert (finite_key field a) as Ha
    by (eexists; repeat split; vm_compute; reflexivity).
  assert (finite_key field b) as Hb
    by (eexists; repeat split; vm_compute; reflexivity).
  assert (finite_key field c) as Hc
    by (eexists; repeat split; vm_compute; reflexivity).
  assert (before field b a) as Hba
    by (eexists; split; vm_compute; reflexivity).
  assert (before field a c) as Hac
    by (eexists; split; vm_compute; reflexivity).
  split; [exact Ha|]. split; [exact Hb|]. split; [exact Hc|].
  split; [exact Hba|]. split; [exact Hac|].
  destruct (proj1 (compare_rows_consistent field b a c) Hb Ha Hc)
    as (_ & _ & _ & _ & _ & _ & Htrans & _).
  exact (Htrans Hba Hac).
Defined.

(** ** Stable sorting *)

Section StableSort.

Context {A : Type} (before : A -> A -> bool) (dom : A -> Prop).

Hypothesis before_irrefl : forall a, dom a -> before a a = false.
Hypothesis before_trans :
  forall a b c, dom a -> dom b -> dom c ->
                before a b = true -> before b c = true -> before a c = true.
Hypothesis before_negtrans :
  forall a b c, dom a -> dom b -> dom c ->
                before a b = false -> before b c = false -> before a c = false.

Lemma before_asym (a b : A) :
  dom a -> dom b -> before a b = true -> before b a = false.
Proof.
  intros Ha Hb H. destruct (before b a) eqn:Hba; [|reflexivity].
  rewrite <- (before_irrefl a Ha). symmetry.
  apply (before_trans a b a); assumption.
Qed.

Lemma insert_by_perm (x : A) (l : list A) :
  Permutation.Permutation (x :: l) (insert_by before x l).
Proof.
  induction l as [|y l IH]; [apply Permutation.Permutation_refl|].
  cbn [insert_by]. destruct (before y x).
  - apply Permutation.perm_trans with (y :: x :: l);
      [apply Permutation.perm_swap | apply Permutation.perm_skip, IH].
  - apply Permutation.Permutation_refl.
Qed.

Lemma sort_by_perm (l : list A) :
  Permutation.Permutation l (sort_by before l).
Proof.
  induction l as [|x l IH]; [apply Permutation.perm_nil|].
  change (sort_by before (x :: l)) with (insert_by before x (sort_by before l)).
  apply Permutation.perm_trans with (x :: sort_by before l);
    [apply Permutation.perm_skip, IH | apply insert_by_perm].
Qed.

Lemma sort_by_dom (l : list A) : Forall dom l -> Forall dom (sort_by before l).
Proof.
  intros H. apply (Permutation.Permutation_Forall (sort_by_perm l)), H.
Qed.

Lemma insert_by_sorted (x : A) (l : list A) :
  dom x -> Forall dom l ->
  Sorted.StronglySorted (fun a b => before b a = false) l ->
  Sorted.StronglySorted (fun a b => before b a = false)
    (insert_by before x l).
Proof.
  intros Hx Hl Hs. induction Hs as [|y l Hs IH Hy]; cbn [insert_by].
  - constructor; constructor.
  - apply Forall_cons_iff in Hl as [Hdy Hdl].
    destruct (before y x) eqn:Hyx.
    + constructor; [apply IH, Hdl|].
      apply (Permutation.Permutation_Forall (insert_by_perm x l)).
      constructor; [|exact Hy].
      apply before_asym; assumption.
    + constructor; [constructor; assumption|].
      constructor; [exact Hyx|].
      rewrite Forall_forall in *. intros z Hz.
      apply (before_negtrans z y x); auto; apply Hy, Hz.
Qed.

Lemma sort_by_sorted (l : list A) :
  Forall dom l ->
  Sorted.StronglySorted (fun a b => before b a = false) (sort_by before l).
Proof.
  induction l as [|x l IH]; intros Hl; [constructor|].
  apply Forall_cons_iff in Hl as [Hx Hl].
  change (sort_by before (x :: l)) with (insert_by before x (sort_by before l)).
  apply insert_by_sorted; [exact Hx | apply sort_by_dom, Hl | apply IH, Hl].
Qed.

Lemma tie_before (t x y : A) :
  dom t -> dom x -> dom y ->
  negb (before t x) && negb (before x t) = true ->
  negb (before t y) && negb (before y t) = true -> before y x = false.
Proof.
  intros Ht Hx Hy H1 H2.
  apply andb_true_iff in H1 as [H1 _]. apply andb_true_iff in H2 as [_ H2].
  apply negb_true_iff in H1, H2.
  apply (before_negtrans y t x); assumption.
Qed.

Lemma insert_by_stable (t x : A) (l : list A) :
  dom t -> dom x -> Forall dom l ->
  filter (fun x => negb (before t x) && negb (before x t)) (insert_by before x l) = filter (fun x => negb (before t x) && negb (before x t)) (x :: l).
Proof.
  intros Ht Hx Hl. induction l as [|y l IH]; [reflexivity|].
  apply Forall_cons_iff in Hl as [Hy Hl]. cbn [insert_by].
  destruct (before y x) eqn:Hyx; [|reflexivity].
  cbn [filter] in *. rewrite (IH Hl).
  destruct (negb (before t x) && negb (before x t)) eqn:Htx; [|reflexivity].
  destruct (negb (before t y) && negb (before y t)) eqn:Hty; [|reflexivity].
  rewrite (tie_before t x y Ht Hx Hy Htx Hty) in Hyx. discriminate.
Qed.

Lemma sort_by_stable (t : A) (l : list A) :
  dom t -> Forall dom l ->
  filter (fun x => negb (before t x) && negb (before x t)) (sort_by before l) = filter (fun x => negb (before t x) && negb (before x t)) l.
Proof.
  intros Ht Hl. induction l as [|x l IH]; [reflexivity|].
  apply Forall_cons_iff in Hl as [Hx Hl].
  change (sort_by before (x :: l)) with (insert_by before x (sort_by before l)).
  rewrite insert_by_stable by (auto using sort_by_dom).
  cbn [filter]. rewrite (IH Hl). reflexivity.
Qed.

End StableSort.

Lemma StronglySorted_app {A} (R : A -> A -> Prop) (l1 l2 : list A) :
  Sorted.StronglySorted R (l1 ++ l2) ->
  forall a b, In a l1 -> In b l2 -> R a b.
Proof.
  induction l1 as [|x l1 IH]; intros Hs a b Ha Hb; [contradiction|].
  cbn [app] in Hs. inversion Hs as [|? ? Hs' Hx]; subst.
  destruct Ha as [<- | Ha].
  - rewrite Forall_forall in Hx. apply Hx, in_or_app. right. exact Hb.
  - apply (IH Hs' a b Ha Hb).
Qed.

(** ** The sorted tables *)

Lemma cross_le_trans (nx dx ny dy nz dz : Z) :
  0 < dx -> 0 < dy -> 0 < dz ->
  nx * dy <= ny * dx -> ny * dz <= nz * dy -> nx * dz <= nz * dx.
Proof.
  intros Hdx Hdy Hdz H1 H2.
  apply (Z.mul_le_mono_pos_r _ _ dy); [exact Hdy|].
  apply Z.le_trans with (ny * dx * dz).
  - replace (nx * dz * dy) with (nx * dy * dz) by ring.
    apply Z.mul_le_mono_nonneg_r; [lia | assumption].
  - replace (ny * dx * dz) with (ny * dz * dx) by ring.
    replace (nz * dx * dy) with (nz * dy * dx) by ring.
    apply Z.mul_le_mono_nonneg_r; [lia | assumption].
Qed.

Lemma goes_before_keys (field : jsstring) (a b : value) (x y : number) :
  sort_key field a = Some (Normal x) -> sort_key field b = Some (Normal y) ->
  valid_binary prec emax x = true -> valid_binary prec emax y = true ->
  is_finite x = true -> is_finite y = true ->
  goes_before field a b = (num y * den x <? num x * den y).
Proof.
  intros Ha Hb Hvx Hvy Hfx Hfy. unfold goes_before.
  rewrite (compare_rows_keys field a b x y Ha Hb).
  apply sub_sign; assumption.
Qed.

Lemma goes_before_irrefl (field : jsstring) (a : value) :
  finite_key field a -> goes_before field a a = false.
Proof.
  intros (x & Ha & Hv & Hf).
  rewrite (goes_before_keys field a a x x) by assumption.
  apply Z.ltb_irrefl.
Qed.

Lemma goes_before_trans (field : jsstring) (a b c : value) :
  finite_key field a -> finite_key field b -> finite_key field c ->
  goes_before field a b = true -> goes_before field b c = true ->
  goes_before field a c = true.
Proof.
  intros (x & Ha & Hvx & Hfx) (y & Hb & Hvy & Hfy) (z & Hc & Hvz & Hfz).
  rewrite (goes_before_keys field a b x y), (goes_before_keys field b c y z),
    (goes_before_keys field a c x z) by assumption.
  rewrite !Z.ltb_lt. intros H1 H2.
  exact (cross_lt_trans _ _ _ _ _ _ (den_pos x) (den_pos y) (den_pos z) H1 H2).
Qed.

Lemma goes_before_negtrans (field : jsstring) (a b c : value) :
  finite_key field a -> finite_key field b -> finite_key field c ->
  goes_before field a b = false -> goes_before field b c = false ->
  goes_before field a c = false.
Proof.
  intros (x & Ha & Hvx & Hfx) (y & Hb & Hvy & Hfy) (z & Hc & Hvz & Hfz).
  rewrite (goes_before_keys field a b x y), (goes_before_keys field b c y z),
    (goes_before_keys field a c x z) by assumption.
  rewrite !Z.ltb_ge. intros H1 H2.
  exact (cross_le_trans _ _ _ _ _ _ (den_pos x) (den_pos y) (den_pos z) H1 H2).
Qed.

Lemma not_after_key_ge (field : jsstring) (a b : value) :
  finite_key field a -> finite_key field b ->
  goes_before field b a = false -> key_ge field a b.
Proof.
  intros (x & Ha & Hvx & Hfx) (y & Hb & Hvy & Hfy) H x' y' Ha' Hb'.
  rewrite Ha in Ha'. rewrite Hb in Hb'.
  injection Ha' as <-. injection Hb' as <-.
  rewrite (goes_before_keys field b a y x) in H by assumption.
  apply Z.ltb_ge in H. exact H.
Qed.

Lemma StronglySorted_impl {A} (R R' : A -> A -> Prop) (dom : A -> Prop)
  (l : list A) :
  (forall a b, dom a -> dom b -> R a b -> R' a b) ->
  Forall dom l -> Sorted.StronglySorted R l -> Sorted.StronglySorted R' l.
Proof.
  intros Himpl Hl Hs. induction Hs as [|x l Hs IH Hx]; [constructor|].
  apply Forall_cons_iff in Hl as [Hdx Hdl].
  constructor; [apply IH, Hdl|].
  rewrite Forall_forall in *. intros y Hy. apply Himpl; auto.
Qed.

Lemma keys_finite (field : jsstring) (rows : list value) :
  Forall (finite_key field) rows ->
  exists ks, keys field rows = Some (Normal ks) /\
             Forall (fun k => is_finite k = true) ks.
Proof.
  induction 1 as [|r rows (x & Hr & _ & Hf) _ (ks & Hks & Hfin)].
  - exists []. split; [reflexivity | constructor].
  - exists (x :: ks). cbn [keys]. rewrite Hr, Hks.
    split; [reflexivity | constructor; assumption].
Qed.

Lemma finite_comparable (ks : list number) :
  Forall (fun k => is_finite k = true) ks -> comparable ks = true.
Proof.
  intros H. unfold comparable.
  assert (forall s, filter (is_infinity s) ks = []) as Hnone.
  { intros s. induction H as [|k ks Hk _ IH]; [reflexivity|].
    cbn [filter]. destruct k; try discriminate Hk; exact IH. }
  rewrite !Hnone. reflexivity.
Qed.

Lemma filter_defined (rows : list value) :
  ~ In VUndefined rows ->
  filter (fun v => negb (is_undefined v)) rows = rows /\
  filter is_undefined rows = [].
Proof.
  induction rows as [|r rows IH]; intros H; [split; reflexivity|].
  destruct IH as [IH1 IH2]; [intros Hin; apply H; right; exact Hin|].
  cbn [filter]. destruct r; cbn [is_undefined negb];
    rewrite ?IH1, ?IH2; try (split; reflexivity).
  exfalso. apply H. left. reflexivity.
Qed.

Lemma sort_rows_finite (field : jsstring) (rows : list value) :
  Forall (finite_key field) rows -> ~ In VUndefined rows ->
  sort_rows field rows = Some (Normal (sort_by (goes_before field) rows)).
Proof.
  intros Hfin Hdef. unfold sort_rows. cbv zeta.
  destruct (filter_defined rows Hdef) as [-> ->]. rewrite !app_nil_r.
  destruct (Nat.ltb_spec (length rows) 2) as [Hlen|Hlen].
  - destruct rows as [|a [|b rows]]; [reflexivity | reflexivity|].
    cbn [length] in Hlen. lia.
  - destruct (keys_finite field rows Hfin) as (ks & -> & Hks).
    rewrite (finite_comparable ks Hks). reflexivity.
Qed.

(** X15: each of the six sorted tables of the dashboard, for a response
    whose table is an array of rows with finite keys (a row without a
    number under the field has the key 0), holds the rows of the
    response, all of them and each once, in descending order of the key
    [Number(row?.[field]) || 0], rows of equal keys in the order of the
    response; the two tables with a limit show the first ten of these
    rows, whose keys are at least the keys of the rows left out. *)
Theorem sorted_tables_sorted (name field : jsstring) (limit : option nat)
  (table : value -> option (completion (list value)))
  (data t : value) (rows : list value) :
  In (name, field, limit, table) sorted_tables ->
  tables data = Some t -> rows_of t name = Some (Normal rows) ->
  Forall (finite_key field) rows -> ~ In VUndefined rows ->
  exists sorted,
    table data = Some (Normal match limit with
                               | Some n => firstn n sorted
                               | None => sorted
                               end) /\
    Permutation.Permutation rows sorted /\
    Sorted.StronglySorted (key_ge field) sorted /\
    (forall r, finite_key field r ->
       filter (ties field r) sorted = filter (ties field r) rows) /\
    (forall n a b, limit = Some n ->
       In a (firstn n sorted) -> In b (skipn n sorted) -> key_ge field a b).
Proof.
  intros Hin Ht Hrows Hfin Hdef.
  exists (sort_by (goes_before field) rows).
  pose proof (sort_by_perm (goes_before field) rows) as Hperm.
  assert (Forall (finite_key field) (sort_by (goes_before field) rows))
    as Hfin' by (apply (Permutation.Permutation_Forall Hperm), Hfin).
  assert (Sorted.StronglySorted (key_ge field)
            (sort_by (goes_before field) rows)) as Hsorted.
  { apply (StronglySorted_impl
             (fun a b => goes_before field b a = false) _ (finite_key field));
      [intros a b; apply not_after_key_ge | exact Hfin' |].
    apply (sort_by_sorted (goes_before field) (finite_key field)
             (goes_before_irrefl field) (goes_before_trans field)
             (goes_before_negtrans field) rows Hfin). }
  split.
  { assert (table = sorted_table name field limit) as ->.
    { cbv [sorted_tables In] in Hin.
      repeat (destruct Hin as [[= <- <- <- <-] | Hin]; [reflexivity|]).
      contradiction. }
    unfold sorted_table. rewrite Ht, Hrows.
    rewrite (sort_rows_finite field rows Hfin Hdef). reflexivity. }
  split; [exact Hperm|]. split; [exact Hsorted|]. split.
  - intros r Hr.
    apply (sort_by_stable (goes_before field) (finite_key field)
             (goes_before_negtrans field) r rows Hr Hfin).
  - intros n a b _ Ha Hb.
    rewrite <- (firstn_skipn n (sort_by (goes_before field) rows)) in Hsorted.
    apply (StronglySorted_app _ _ _ Hsorted a b Ha Hb).
Qed.

Lemma sorted_tables_sorted_witness :
  let row (n : jsstring) (sr : value) :=
    VObject [(js "batter", VString n); (js "sr", sr)] in
  let rows := [row (js "V Kohli") (VNumber (decimal 1385 1));
               row (js "S Gill") VNull;
               row (js "RG Sharma") (VNumber (decimal 1402 1))] in
  let t := VObject [(js "best_batters_overall_same_slot", VArray rows)] in
  let data := VObject [(js "tables", t)] in
  In (js "best_batters_overall_same_slot", js "sr", Some 10%nat,
      bestBattersTop10) sorted_tables /\
  tables data = Some t /\
  rows_of t (js "best_batters_overall_same_slot") = Some (Normal rows) /\
  Forall (finite_key (js "sr")) rows /\ ~ In VUndefined rows /\
  bestBattersTop10 data
  = Some (Normal [row (js "RG Sharma") (VNumber (decimal 1402 1));
                  row (js "V Kohli") (VNumber (decimal 1385 1));
                  row (js "S Gill") VNull]) /\
  exists sorted,
    bestBattersTop10 data = Some (Normal (firstn 10 sorted)) /\
    Permutation.Permutation rows sorted /\
    Sorted.StronglySorted (key_ge (js "sr")) sorted.
Proof.
  intros row rows t data.
  assert (In (js "best_batters_overall_same_slot", js "sr", Some 10%nat,
              bestBattersTop10) sorted_tables) as Hin
    by (right; right; left; reflexivity).
  assert (tables data = Some t) as Ht by reflexivity.
  assert (rows_of t (js "best_batters_overall_same_slot")
          = Some (Normal rows)) as Hrows by reflexivity.
  assert (Forall (finite_key (js "sr")) rows) as Hfin
    by (repeat constructor; eexists; repeat split; vm_compute; reflexivity).
  assert (~ In VUndefined rows) as Hdef
    by (intros H; repeat destruct H as [H | H]; try discriminate H;
        contradiction).
  split; [exact Hin|]. split; [exact Ht|]. split; [exact Hrows|].
  split; [exact Hfin|]. split; [exact Hdef|].
  split; [vm_compute; reflexivity|].
  destruct (sorted_tables_sorted _ _ _ _ data t rows Hin Ht Hrows Hfin Hdef)
    as (sorted & Htable & Hperm & Hsorted & _).
  exists sorted. split; [exact Htable|]. split; assumption.
Defined.

(** ** The bars of the bowler chart *)

Lemma traverse_Forall2 {A B} (f : A -> option (completion B)) (l : list A)
  (ys : list B) :
  traverse f l = Some (Normal ys) ->
  Forall2 (fun x y => f x = Some (Normal y)) l ys.
Proof.
  revert ys. induction l as [|x l IH]; intros ys H; cbn [traverse] in H.
  - injection H as <-. constructor.
  - destruct (f x) as [[y|e]|] eqn:Hx; try discriminate.
    destruct (traverse f l) as [[ys'|e]|]; try discriminate.
    injection H as <-. constructor; [exact Hx | apply IH; reflexivity].
Qed.

Lemma max_step_first (a : number) :
  a <> S754_nan -> Math.max_step (S754_infinity true) a = a.
Proof.
  intros H. destruct a as [s|[|]| |s m e]; try reflexivity. congruence.
Qed.

Lemma max_step_either (h a : number) :
  Math.max_step h a = h \/ Math.max_step h a = a.
Proof.
  unfold Math.max_step.
  destruct h as [[|]|s| |s m e], a as [[|]|s'| |s' m' e'];
    try (destruct (SFltb _ _)); auto.
Qed.

Lemma fold_max_step_in (l : list number) (h : number) :
  fold_left Math.max_step l h = h \/ In (fold_left Math.max_step l h) l.
Proof.
  revert h. induction l as [|a l IH]; intros h; [left; reflexivity|].
  cbn [fold_left]. destruct (IH (Math.max_step h a)) as [H | H].
  - rewrite H. destruct (max_step_either h a) as [-> | ->];
      [left; reflexivity | right; left; reflexivity].
  - right. right. exact H.
Qed.

(** The maximum of numbers that are no [NaN] is one of them. *)
Lemma max_of_in (l : list number) :
  l <> [] -> Forall (fun x => x <> S754_nan) l -> In (max_of l) l.
Proof.
  intros Hne Hl. unfold max_of.
  assert (existsb (fun x => match x with S754_nan => true | _ => false end) l
          = false) as ->.
  { clear Hne. induction Hl as [|x l Hx _ IH]; [reflexivity|].
    cbn [existsb]. destruct x; try congruence; cbn [orb]; exact IH. }
  destruct l as [|a l]; [congruence|]. cbn [fold_left].
  apply Forall_inv in Hl. rewrite (max_step_first a Hl).
  destruct (fold_max_step_in l a) as [-> | H];
    [left; reflexivity | right; exact H].
Qed.

Lemma binary_round_exponent (s : bool) (p : positive) (e : Z) :
  match binary_round prec emax s p e with
  | S754_finite _ _ e' => -1074 <= e'
  | _ => True
  end.
Proof.
  unfold binary_round, shl_align.
  set (e' := fexp prec emax (Zpos (digits2_pos p) + e)).
  assert (forall mz ez,
             ez <= fexp prec emax (Zdigits2 (Zpos mz) + ez) ->
             match binary_round_aux prec emax s (Zpos mz) ez loc_Exact with
             | S754_finite _ _ e' => -1074 <= e'
             | _ => True
             end) as Haux.
  { intros mz ez Hez.
    pose proof (binary_round_aux_spec s (Zpos mz) ez loc_Exact (Zpos mz) 1
                  ltac:(lia) ltac:(lia) ltac:(cbn [inbetween]; lia) Hez) as H.
    cbv zeta in H.
    destruct (binary_round_aux prec emax s (Zpos mz) ez loc_Exact);
      try exact I.
    destruct H as (_ & [He1 _] & _). rewrite fexp_unfold in He1. lia. }
  destruct (e' - e) as [|d|d] eqn:Hd; apply Haux; cbn [Zdigits2]; fold e';
    try lia.
  rewrite digits2_pos_iter_xO.
  replace (Zpos (digits2_pos p) + Zpos d + e') with (Zpos (digits2_pos p) + e)
    by lia.
  fold e'. lia.
Qed.

Lemma sub_exponent (x y : number) :
  valid_binary prec emax x = true -> valid_binary prec emax y = true ->
  is_finite x = true -> is_finite y = true ->
  match sub y x with
  | S754_finite _ _ e => -1074 <= e
  | _ => True
  end.
Proof.
  intros Hvx Hvy Hfx Hfy.
  destruct x as [sx| | |sx mx ex]; try discriminate Hfx;
    destruct y as [sy| | |sy my ey]; try discriminate Hfy.
  - destruct sx, sy; exact I.
  - apply valid_binary_bounds in Hvy. cbn. lia.
  - apply valid_binary_bounds in Hvx. cbn. lia.
  - unfold sub, SFsub. cbv zeta.
    destruct (_ - _) as [|p|p]; cbn [binary_normalize];
      [exact I | apply binary_round_exponent | apply binary_round_exponent].
Qed.

Lemma add_positive (m : number) :
  m = S754_zero false \/
  (SFltb (S754_zero false) m = true /\
   match m with S754_finite _ _ e => -1074 <= e | _ => True end) ->
  SFltb (S754_zero false) (add m (decimal 1 2)) = true.
Proof.
  change (decimal 1 2) with (S754_finite false 5764607523034235 (-59)).
  intros [-> | [Hpos He]]; [reflexivity|].
  destruct m as [s|s| |s mm em]; try discriminate Hpos.
  - destruct s; [discriminate Hpos | reflexivity].
  - destruct s; [discriminate Hpos|].
    unfold add, SFadd. cbv zeta. set (ez := Z.min em (-59)).
    rewrite !shl_align_value by (unfold ez; lia). cbn [cond_Zopp].
    destruct (binary_normalize_sign
                (Zpos mm * 2 ^ (em - ez)
                 + 5764607523034235 * 2 ^ (-59 - ez)) ez
                ltac:(unfold ez; lia)) as (_ & _ & Hr & _).
    rewrite Hr. apply Z.ltb_lt.
    assert (0 < 2 ^ (em - ez)) by (apply Z.pow_pos_nonneg; unfold ez; lia).
    assert (0 < 2 ^ (-59 - ez)) by (apply Z.pow_pos_nonneg; unfold ez; lia).
    nia.
Qed.

Lemma max_zero (d : number) :
  d <> S754_nan ->
  Math.max (of_Z 0) d = if SFltb (S754_zero false) d then d else S754_zero false.
Proof.
  intros Hd. change (of_Z 0) with (S754_zero false).
  destruct d as [[|]|s| |s m e]; try reflexivity. congruence.
Qed.

(** A bar is longer than nothing: for finite economies the score is a
    positive number. *)
Lemma score_of_positive (maxEcon econ : number) :
  valid_binary prec emax maxEcon = true -> valid_binary prec emax econ = true ->
  is_finite maxEcon = true -> is_finite econ = true ->
  SFltb (S754_zero false) (BowlerRadialChart.score_of maxEcon econ) = true.
Proof.
  intros Hvm Hve Hfm Hfe. unfold BowlerRadialChart.score_of.
  destruct (sub_sign econ maxEcon Hve Hvm Hfe Hfm) as (Hnan & _).
  pose proof (sub_exponent econ maxEcon Hve Hvm Hfe Hfm) as Hexp.
  rewrite (max_zero _ Hnan). apply add_positive.
  destruct (SFltb (S754_zero false) (sub maxEcon econ)) eqn:Hpos;
    [right; split; [exact Hpos | exact Hexp] | left; reflexivity].
Qed.

Lemma sub_diag (x : number) :
  valid_binary prec emax x = true -> is_finite x = true ->
  exists s, sub x x = S754_zero s.
Proof.
  intros Hv Hf. apply (sub_sign x x Hv Hv Hf Hf). reflexivity.
Qed.

Lemma score_of_diag (x : number) :
  valid_binary prec emax x = true -> is_finite x = true ->
  BowlerRadialChart.score_of x x = decimal 1 2.
Proof.
  intros Hv Hf. unfold BowlerRadialChart.score_of.
  destruct (sub_diag x Hv Hf) as [s ->]. destruct s; reflexivity.
Qed.

Lemma bar_of_econ (maxEcon : number) (r : value)
  (b : BowlerRadialChart.bar) :
  BowlerRadialChart.bar_of maxEcon r = Some (Normal b) ->
  number_or_zero r (js "econ") = Some (Normal (BowlerRadialChart.econ b)) /\
  BowlerRadialChart.score b
  = BowlerRadialChart.score_of maxEcon (BowlerRadialChart.econ b).
Proof.
  unfold BowlerRadialChart.bar_of.
  destruct (number_or_zero r (js "econ")) as [[e|?]|]; try discriminate.
  destruct (read r (js "bowler")) as [[n|?]|]; try discriminate;
    destruct (read r (js "team")) as [[t|?]|]; try discriminate.
  destruct (number_or_zero r (js "wicket_pct_per_start")) as [[w|?]|];
    try discriminate.
  destruct (RadialChart.teamColor _ _ _) as [f|?]; cbn [bind];
    [|discriminate].
  intros [= <-]. split; reflexivity.
Qed.

Lemma Forall2_length_eq {A B} (R : A -> B -> Prop) (l : list A)
  (l' : list B) :
  Forall2 R l l' -> length l' = length l.
Proof. induction 1; cbn [length]; congruence. Qed.

(** X16: the bars of the bowler chart are never empty: for rows, at
    least one, whose economies are finite, whenever the data of the
    chart is computed there is one entry per row, and every score is
    [Math.max(0, maxEcon - econ) + 0.01] for one [maxEcon], which is
    the economy of a row or 0; every score is above 0, and the score of
    a row whose economy is [maxEcon] is [0.01]. *)
Theorem bowler_chart_scores (rows : list value)
  (bars : list BowlerRadialChart.bar) :
  rows <> [] ->
  BowlerRadialChart.data rows = Some (Normal bars) ->
  Forall finite_econ rows ->
  length bars = length rows /\
  exists maxEcon,
    In maxEcon (List.map BowlerRadialChart.econ bars ++ [of_Z 0]) /\
    Forall (fun b =>
              BowlerRadialChart.score b
              = BowlerRadialChart.score_of maxEcon (BowlerRadialChart.econ b)
              /\ SFltb (of_Z 0) (BowlerRadialChart.score b) = true
              /\ (BowlerRadialChart.econ b = maxEcon ->
                  BowlerRadialChart.score b = decimal 1 2))
      bars.
Proof.
  intros _ Hdata Hfin. unfold BowlerRadialChart.data in Hdata.
  destruct (traverse (fun r => number_or_zero r (js "econ")) rows)
    as [[econVals|?]|] eqn:Hvals; try discriminate.
  cbv zeta in Hdata.
  set (maxEcon := max_of (econVals ++ [of_Z 0])) in *.
  apply traverse_Forall2 in Hvals, Hdata.
  assert (Forall (fun x => valid_binary prec emax x = true /\
                           is_finite x = true) econVals) as Hvalid.
  { clear Hdata maxEcon. induction Hvals as [|r x rows xs Hx _ IH];
      [constructor|].
    apply Forall_cons_iff in Hfin as [(x' & Hx' & Hv & Hf) Hfin].
    rewrite Hx in Hx'. injection Hx' as <-.
    constructor; [split; assumption | apply IH, Hfin]. }
  assert (List.map BowlerRadialChart.econ bars = econVals) as Hmap.
  { clear Hvalid Hfin. clearbody maxEcon. revert econVals Hvals.
    induction Hdata as [|r b rows bars Hb _ IH]; intros econVals Hvals;
      inversion Hvals as [|? x ? xs Hx Hxs]; subst; [reflexivity|].
    apply bar_of_econ in Hb as [Hb _]. rewrite Hx in Hb.
    injection Hb as ->. cbn [List.map]. f_equal. apply IH, Hxs. }
  assert (valid_binary prec emax maxEcon = true /\ is_finite maxEcon = true)
    as [Hvm Hfm].
  { assert (Forall (fun x => valid_binary prec emax x = true /\
                             is_finite x = true) (econVals ++ [of_Z 0]))
      as Hall by (apply Forall_app; split;
                  [exact Hvalid | repeat constructor]).
    rewrite Forall_forall in Hall. apply Hall. apply max_of_in.
    - destruct econVals; discriminate.
    - apply Forall_forall. intros x Hx. apply Hall in Hx as [_ Hx].
      intros ->. discriminate Hx. }
  split; [apply (Forall2_length_eq _ _ _ Hdata)|].
  exists maxEcon. split.
  { rewrite Hmap. apply max_of_in.
    - destruct econVals; discriminate.
    - apply Forall_app. split; [|repeat constructor; discriminate].
      apply (Forall_impl _ (P := fun x => valid_binary prec emax x = true /\
                                          is_finite x = true));
        [|exact Hvalid].
      intros x [_ Hx] ->. discriminate Hx. }
  rewrite <- Hmap in Hvalid. clear Hmap Hvals.
  induction Hdata as [|r b rows bars Hb _ IH]; [constructor|].
  cbn [List.map] in Hvalid. apply Forall_cons_iff in Hvalid as [[Hv Hf] Hrest].
  apply Forall_cons_iff in Hfin as [_ Hfin].
  constructor; [|apply IH; assumption].
  apply bar_of_econ in Hb as [_ Hscore]. rewrite Hscore.
  split; [reflexivity|].
  split; [apply score_of_positive; assumption|].
  intros ->. apply score_of_diag; assumption.
Qed.

Lemma bowler_chart_scores_witness :
  let row (n : jsstring) (e : value) :=
    VObject [(js "bowler", VString n); (js "econ", e)] in
  let rows := [row (js "JJ Bumrah") (VNumber (decimal 65 1));
               row (js "A Zampa") VNull;
               row (js "Rashid Khan") (VNumber (decimal 825 2))] in
  rows <> [] /\ Forall finite_econ rows /\
  exists bars,
    BowlerRadialChart.data rows = Some (Normal bars) /\
    length bars = length rows /\
    Forall (fun b => SFltb (of_Z 0) (BowlerRadialChart.score b) = true) bars /\
    List.map (fun b => toString (BowlerRadialChart.score b)) bars
    = [js "1.76"; js "8.26"; js "0.01"].
Proof.
  intros row rows.
  assert (Forall finite_econ rows) as Hfin
    by (repeat constructor; eexists; repeat split; vm_compute; reflexivity).
  assert (rows <> []) as Hne by discriminate.
  split; [exact Hne|]. split; [exact Hfin|].
  destruct (BowlerRadialChart.data rows) as [[bars|e]|] eqn:Hdata;
    [|vm_compute in Hdata; discriminate Hdata
     |vm_compute in Hdata; discriminate Hdata].
  exists bars. split; [reflexivity|].
  destruct (bowler_chart_scores rows bars Hne Hdata Hfin)
    as (Hlen & maxEcon & _ & Hbars).
  split; [exact Hlen|]. split.
  - apply (Forall_impl _ (P := fun b =>
      BowlerRadialChart.score b
      = BowlerRadialChart.score_of maxEcon (BowlerRadialChart.econ b)
      /\ SFltb (of_Z 0) (BowlerRadialChart.score b) = true
      /\ (BowlerRadialChart.econ b = maxEcon ->
          BowlerRadialChart.score b = decimal 1 2))); [|exact Hbars].
    intros b (_ & H & _). exact H.
  - vm_compute in Hdata. injection Hdata as <-. vm_compute. reflexivity.
Defined.
